(** * bsmm: the BeatSaber mod manager core (beatmodsapi.py)

    A shallow embedding of the package record [ModSpec] and of the
    [Patcher] operations, with the properties of the resolver and of the
    patch pipeline proved over it.

    Python objects are shared and mutated in place, so records live in a
    store indexed by references; the catalog and queue lists hold
    references.  Exceptions are explicit results.  The network, the zip
    decoder and file permissions are parameters ([Env]). *)

From Stdlib Require Import Ascii.
From stdpp Require Import gmap strings list pretty.

Open Scope Z_scope.

(** ** Python built-ins used by the source *)

Module Py.

(** [list < list]: the first position where the elements differ decides;
    when one list is a prefix of the other the shorter one is smaller. *)
Fixpoint list_lt (a b : list Z) : bool :=
  match a, b with
  | [], [] => false
  | [], _ :: _ => true
  | _ :: _, [] => false
  | x :: a', y :: b' => if decide (x = y) then list_lt a' b' else bool_decide (x < y)
  end.

(** [list.remove(x)]: drops the first element equal to [x]; [None] stands
    for the [ValueError] raised when there is none. *)
Fixpoint list_remove `{EqDecision A} (x : A) (l : list A) : option (list A) :=
  match l with
  | [] => None
  | y :: l' => if decide (x = y) then Some l' else cons y <$> list_remove x l'
  end.

(** [sep.join(parts)] *)
Fixpoint join (sep : string) (parts : list string) : string :=
  match parts with
  | [] => ""
  | [p] => p
  | p :: rest => p +:+ sep +:+ join sep rest
  end.

(** [s.split(sep)] for a one-character separator. *)
Fixpoint split_go (sep : ascii) (cur : string) (s : string) : list string :=
  match s with
  | EmptyString => [String.rev cur]
  | String c s' =>
      if decide (c = sep) then String.rev cur :: split_go sep EmptyString s'
      else split_go sep (String c cur) s'
  end.

Definition split (sep : ascii) (s : string) : list string :=
  split_go sep EmptyString s.

(** [str.lower()] on ASCII letters. *)
Definition lower_ascii (c : ascii) : ascii :=
  let n := nat_of_ascii c in
  if bool_decide (65 <= n <= 90)%nat then ascii_of_nat (n + 32) else c.

Fixpoint lower (s : string) : string :=
  match s with
  | EmptyString => EmptyString
  | String c s' => String (lower_ascii c) (lower s')
  end.

(** [s.endswith(suffix)] *)
Definition endswith (s suffix : string) : bool :=
  String.prefix (String.rev suffix) (String.rev s).

(** [str(n)] for an integer. *)
Definition str_of_int (n : Z) : string := pretty n.

(** [int(s)] for a string: surrounding blanks (space, tab, line feed,
    vertical tab, form feed and carriage return, the characters [int]
    skips), an optional sign, then decimal digits, single underscores
    allowed between digits.  [None] stands for [ValueError].  Strings
    are byte strings here, so digits and blanks outside ASCII are not
    recognised. *)
Definition is_space (c : ascii) : bool :=
  let n := nat_of_ascii c in
  bool_decide (n = 32 \/ 9 <= n <= 13)%nat.

Fixpoint lstrip (s : string) : string :=
  match s with
  | String c s' => if is_space c then lstrip s' else s
  | EmptyString => EmptyString
  end.

Definition strip (s : string) : string :=
  String.rev (lstrip (String.rev (lstrip s))).

Definition digit_of (c : ascii) : option Z :=
  let n := nat_of_ascii c in
  if bool_decide (48 <= n <= 57)%nat then Some (Z.of_nat n - 48) else None.

(** [digits acc after_digit s]: [after_digit] tells whether the previous
    character was a digit (an underscore is only legal there, and the
    literal may not end on one). *)
Fixpoint digits (acc : Z) (after_digit : bool) (s : string) : option Z :=
  match s with
  | EmptyString => if after_digit then Some acc else None
  | String c s' =>
      match digit_of c with
      | Some d => digits (10 * acc + d) true s'
      | None =>
          if decide (c = "_"%char) then
            if after_digit then digits acc false s' else None
          else None
      end
  end.

Definition int_of_str (s : string) : option Z :=
  match strip s with
  | String "-" s' => Z.opp <$> digits 0 false s'
  | String "+" s' => digits 0 false s'
  | s' => digits 0 false s'
  end.

End Py.

(** ** hashlib.md5 (RFC 1321) *)

Module MD5.

Definition mask32 (x : Z) : Z := Z.land x 0xffffffff.

Definition rotl32 (x : Z) (n : Z) : Z :=
  mask32 (Z.lor (Z.shiftl x n) (Z.shiftr x (32 - n))).

Definition not32 (x : Z) : Z := Z.lxor x 0xffffffff.

Definition K : list Z :=
  [ 0xd76aa478; 0xe8c7b756; 0x242070db; 0xc1bdceee;
    0xf57c0faf; 0x4787c62a; 0xa8304613; 0xfd469501;
    0x698098d8; 0x8b44f7af; 0xffff5bb1; 0x895cd7be;
    0x6b901122; 0xfd987193; 0xa679438e; 0x49b40821;
    0xf61e2562; 0xc040b340; 0x265e5a51; 0xe9b6c7aa;
    0xd62f105d; 0x02441453; 0xd8a1e681; 0xe7d3fbc8;
    0x21e1cde6; 0xc33707d6; 0xf4d50d87; 0x455a14ed;
    0xa9e3e905; 0xfcefa3f8; 0x676f02d9; 0x8d2a4c8a;
    0xfffa3942; 0x8771f681; 0x6d9d6122; 0xfde5380c;
    0xa4beea44; 0x4bdecfa9; 0xf6bb4b60; 0xbebfbc70;
    0x289b7ec6; 0xeaa127fa; 0xd4ef3085; 0x04881d05;
    0xd9d4d039; 0xe6db99e5; 0x1fa27cf8; 0xc4ac5665;
    0xf4292244; 0x432aff97; 0xab9423a7; 0xfc93a039;
    0x655b59c3; 0x8f0ccc92; 0xffeff47d; 0x85845dd1;
    0x6fa87e4f; 0xfe2ce6e0; 0xa3014314; 0x4e0811a1;
    0xf7537e82; 0xbd3af235; 0x2ad7d2bb; 0xeb86d391 ].

Definition shifts : list Z :=
  [ 7; 12; 17; 22; 7; 12; 17; 22; 7; 12; 17; 22; 7; 12; 17; 22;
    5; 9; 14; 20; 5; 9; 14; 20; 5; 9; 14; 20; 5; 9; 14; 20;
    4; 11; 16; 23; 4; 11; 16; 23; 4; 11; 16; 23; 4; 11; 16; 23;
    6; 10; 15; 21; 6; 10; 15; 21; 6; 10; 15; 21; 6; 10; 15; 21 ].

Definition bytes_of (s : string) : list Z :=
  (fun c => Z.of_nat (nat_of_ascii c)) <$> String.list_ascii_of_string s.

(** Little-endian bytes of [x], [n] of them. *)
Fixpoint le_bytes (n : nat) (x : Z) : list Z :=
  match n with
  | O => []
  | S n' => Z.land x 0xff :: le_bytes n' (Z.shiftr x 8)
  end.

Definition padding (len : Z) : list Z :=
  let zeros := Z.to_nat ((55 - len) `mod` 64) in
  0x80 :: replicate zeros 0 ++ le_bytes 8 (8 * len).

Fixpoint words (n : nat) (bs : list Z) : list Z :=
  match n with
  | O => []
  | S n' =>
      match bs with
      | b0 :: b1 :: b2 :: b3 :: bs' =>
          (b0 + Z.shiftl b1 8 + Z.shiftl b2 16 + Z.shiftl b3 24) :: words n' bs'
      | _ => []
      end
  end.

Definition round (M : list Z) (st : Z * Z * Z * Z) (i : nat) : Z * Z * Z * Z :=
  let '(A, B, C, D) := st in
  let '(F, g) :=
    if bool_decide (i < 16)%nat then
      (Z.lor (Z.land B C) (Z.land (not32 B) D), i)
    else if bool_decide (i < 32)%nat then
      (Z.lor (Z.land D B) (Z.land (not32 D) C), (5 * i + 1) mod 16)%nat
    else if bool_decide (i < 48)%nat then
      (Z.lxor (Z.lxor B C) D, (3 * i + 5) mod 16)%nat
    else
      (Z.lxor C (Z.lor B (not32 D)), (7 * i) mod 16)%nat in
  let F' := mask32 (F + A + (K !!! i) + (M !!! g)) in
  (D, mask32 (B + rotl32 F' (shifts !!! i)), B, C).

Definition block (st : Z * Z * Z * Z) (M : list Z) : Z * Z * Z * Z :=
  let '(a0, b0, c0, d0) := st in
  let '(A, B, C, D) := foldl (round M) st (seq 0 64) in
  (mask32 (a0 + A), mask32 (b0 + B), mask32 (c0 + C), mask32 (d0 + D)).

Fixpoint blocks (n : nat) (st : Z * Z * Z * Z) (bs : list Z) : Z * Z * Z * Z :=
  match n with
  | O => st
  | S n' => blocks n' (block st (words 16 bs)) (drop 64 bs)
  end.

Definition hex_digit (d : Z) : ascii :=
  ascii_of_nat (Z.to_nat (if bool_decide (d < 10) then 48 + d else 87 + d)).

Fixpoint hex_of_bytes (bs : list Z) : string :=
  match bs with
  | [] => EmptyString
  | b :: bs' =>
      String (hex_digit (Z.shiftr b 4))
        (String (hex_digit (Z.land b 15)) (hex_of_bytes bs'))
  end.

(** [hashlib.md5(); update(data); hexdigest()] *)
Definition hexdigest (data : string) : string :=
  let bs := bytes_of data in
  let msg := bs ++ padding (Z.of_nat (length bs)) in
  let '(a, b, c, d) :=
    blocks (length msg / 64)%nat (0x67452301, 0xefcdab89, 0x98badcfe, 0x10325476) msg in
  hex_of_bytes (le_bytes 4 a ++ le_bytes 4 b ++ le_bytes 4 c ++ le_bytes 4 d).

End MD5.

(** [validateFile(data, hash)] *)
Definition validateFile (data hash : string) : bool :=
  bool_decide (Py.lower (MD5.hexdigest data) = Py.lower hash).

(** ** JSON documents

    [json.load] and [json.dump] are taken at the level of the document
    they read or write: a file holding JSON text is its document.
    Numbers are integers (the file format has no others). *)

Module Json.

#[local] Set Warnings "-register-all".

Inductive json :=
  | JNull
  | JBool (b : bool)
  | JInt (n : Z)
  | JStr (s : string)
  | JList (l : list json)
  | JDict (kvs : list (string * json)).

End Json.
Export Json.

(** Exceptions raised by the modelled code. *)
Inductive exn :=
  | KeyError (key : string)
  | TypeError
  | ValueError
  | AttributeError
  | OSError
  | HTTPException                (* http.client: IncompleteRead, InvalidURL *)
  | RuntimeError (msg : string).

#[global] Instance exn_eq_dec : EqDecision exn.
Proof. solve_decision. Defined.

(** Fallible pure code: [inl e] is "raise e". *)
Definition res (A : Type) : Type := exn + A.

Definition res_bind {A B} (m : res A) (k : A -> res B) : res B :=
  match m with
  | inl e => inl e
  | inr a => k a
  end.

Declare Scope res_scope.
Delimit Scope res_scope with res.
Notation "'let?' x ':=' m 'in' k" := (res_bind m (fun x => k))
  (at level 10, x pattern, m at level 100, k at level 200) : res_scope.
Open Scope res_scope.

Definition raise {A} (e : exn) : res A := inl e.

(** [try: m  except: d] *)
Definition try_except {A} (m : res A) (d : A) : A :=
  match m with
  | inl _ => d
  | inr a => a
  end.

Fixpoint res_map {A B} (f : A -> res B) (l : list A) : res (list B) :=
  match l with
  | [] => inr []
  | a :: l' =>
      let? b := f a in
      let? bs := res_map f l' in
      inr (b :: bs)
  end.

(** Python's view of a document. *)
Module Dyn.

Fixpoint assoc (k : string) (kvs : list (string * json)) : option json :=
  match kvs with
  | [] => None
  | (k', v) :: kvs' => if decide (k' = k) then Some v else assoc k kvs'
  end.

(** [d[k]] for a string key [k]. *)
Definition getitem (d : json) (k : string) : res json :=
  match d with
  | JDict kvs =>
      match assoc k kvs with
      | Some v => inr v
      | None => raise (KeyError k)
      end
  | _ => raise TypeError
  end.

(** [for x in v]: the elements of a list, the keys of a dict, the
    characters of a string. *)
Definition iter (v : json) : res (list json) :=
  match v with
  | JList l => inr l
  | JDict kvs => inr ((fun kv => JStr kv.1) <$> kvs)
  | JStr s => inr ((fun c => JStr (String c EmptyString)) <$> String.list_ascii_of_string s)
  | _ => raise TypeError
  end.

(** Reading a value at the type the file format gives it. *)
Definition as_str (v : json) : res string :=
  match v with
  | JStr s => inr s
  | _ => raise TypeError
  end.

Definition as_int (v : json) : res Z :=
  match v with
  | JInt n => inr n
  | JBool b => inr (if b then 1 else 0)
  | _ => raise TypeError
  end.

Definition as_list {A} (f : json -> res A) (v : json) : res (list A) :=
  match v with
  | JList l => res_map f l
  | _ => raise TypeError
  end.

End Dyn.

(** ** The package record *)

Inductive ModCategories := CORE | LIBRARY | COSMETIC | GAMEPLAY | UI | OTHER.

#[global] Instance ModCategories_eq_dec : EqDecision ModCategories.
Proof. solve_decision. Defined.

(** A lifecycle flag holds [True]/[False] when set by the code and an
    integer when read from a manifest ([bool] is a subtype of [int]). *)
Inductive flag :=
  | FBool (b : bool)
  | FInt (n : Z).

#[global] Instance flag_eq_dec : EqDecision flag.
Proof. solve_decision. Defined.

(** [int(x)] *)
Definition int_of_flag (x : flag) : Z :=
  match x with
  | FBool b => if b then 1 else 0
  | FInt n => n
  end.

(** [if x:] *)
Definition truthy (x : flag) : bool := negb (int_of_flag x =? 0).

(** [x == y] *)
Definition flag_eqb (x y : flag) : bool := int_of_flag x =? int_of_flag y.

(** An entry of [files]: [{"file": ..., "hash": ...}]. *)
Record FileEntry := { file : string; hash : string }.

(** An entry of [dependencies]: an object of the remote listing, read
    through its ["name"] key ([depend["name"]]). *)
Record Dependency := { dep_name : string }.

#[global] Instance FileEntry_eq_dec : EqDecision FileEntry.
Proof. solve_decision. Defined.
#[global] Instance Dependency_eq_dec : EqDecision Dependency.
Proof. solve_decision. Defined.

(** References to [ModSpec] objects. *)
Definition ref := nat.

Record ModSpec := mkModSpec {
  _archive : option string;      (* "" (None) or a path *)
  _source : option ref;          (* set by addMod *)
  id : string;
  name : string;
  version : list Z;
  gameVersion : list Z;
  dependencies : list Dependency;
  category : ModCategories;
  url : string;
  files : list FileEntry;
  ignore : flag;
  is_local : flag;
  is_remote : flag;
  need_update : flag;
  need_install : flag;
  need_uninstall : flag
}.

#[global] Instance ModSpec_eq_dec : EqDecision ModSpec.
Proof. solve_decision. Defined.

(** [ModSpec.__init__] *)
Definition ModSpec_init (id name : string) (version : list Z) (url : string)
    (files : list FileEntry) (dependencies : list Dependency)
    (category : ModCategories) (gameVersion : list Z) : ModSpec :=
  {| _archive := None; _source := None;
     id := id; name := name; version := version; gameVersion := gameVersion;
     dependencies := dependencies; category := category; url := url; files := files;
     ignore := FBool false; is_local := FBool false; is_remote := FBool false;
     need_update := FBool false; need_install := FBool false;
     need_uninstall := FBool false |}.

(** *** Manifest form

    Fields are read at the types of the file format given in the class
    docstring; a document whose fields have other types raises
    [TypeError] here. *)

Definition file_of_json (v : json) : res FileEntry :=
  let? f := res_bind (Dyn.getitem v "file") Dyn.as_str in
  let? h := res_bind (Dyn.getitem v "hash") Dyn.as_str in
  inr {| file := f; hash := h |}.

Definition json_of_file (e : FileEntry) : json :=
  JDict [("file", JStr (file e)); ("hash", JStr (hash e))]%string.

Definition dependency_of_json (v : json) : res Dependency :=
  let? n := res_bind (Dyn.getitem v "name") Dyn.as_str in
  inr {| dep_name := n |}.

Definition json_of_dependency (d : Dependency) : json :=
  JDict [("name", JStr (dep_name d))]%string.

Definition flag_of_json (v : json) : res flag :=
  match v with
  | JBool b => inr (FBool b)
  | JInt n => inr (FInt n)
  | _ => raise TypeError
  end.

(** [ModSpec.fromSpecFile(f)], on the document [d = json.load(f)]. *)
Definition fromSpecFile (d : json) : res ModSpec :=
  let? id := res_bind (Dyn.getitem d "id") Dyn.as_str in
  let? name := res_bind (Dyn.getitem d "name") Dyn.as_str in
  let? version := res_bind (Dyn.getitem d "version") (Dyn.as_list Dyn.as_int) in
  let? url := res_bind (Dyn.getitem d "url") Dyn.as_str in
  let? dependencies :=
    res_bind (Dyn.getitem d "dependencies") (Dyn.as_list dependency_of_json) in
  let? files := res_bind (Dyn.getitem d "files") (Dyn.as_list file_of_json) in
  let obj := ModSpec_init id name version url files dependencies OTHER [1; 0; 0] in
  let? config := Dyn.getitem d "config" in
  let? ignore := res_bind (Dyn.getitem config "ignore") flag_of_json in
  let? is_local := res_bind (Dyn.getitem config "is_local") flag_of_json in
  let? is_remote := res_bind (Dyn.getitem config "is_remote") flag_of_json in
  let? need_update := res_bind (Dyn.getitem config "need_update") flag_of_json in
  let? need_install := res_bind (Dyn.getitem config "need_install") flag_of_json in
  let? need_uninstall := res_bind (Dyn.getitem config "need_uninstall") flag_of_json in
  inr {| _archive := _archive obj; _source := _source obj;
         id := id; name := name; version := version; gameVersion := gameVersion obj;
         dependencies := dependencies; category := category obj; url := url;
         files := files;
         ignore := ignore; is_local := is_local; is_remote := is_remote;
         need_update := need_update; need_install := need_install;
         need_uninstall := need_uninstall |}.

(** [ModSpec.writeSpecFile(f)]: the document handed to [json.dump], keys
    in insertion order. *)
Definition writeSpecFile (self : ModSpec) : json :=
  let config :=
    JDict [ ("ignore", JInt (int_of_flag (ignore self)));
            ("is_local", JInt (int_of_flag (is_local self)));
            ("is_remote", JInt (int_of_flag (is_remote self)));
            ("need_update", JInt (int_of_flag (need_update self)));
            ("need_install", JInt (int_of_flag (need_install self)));
            ("need_uninstall", JInt (int_of_flag (need_uninstall self))) ]%string in
  JDict [ ("config", config);
          ("id", JStr (id self));
          ("name", JStr (name self));
          ("version", JList (JInt <$> version self));
          ("url", JStr (url self));
          ("files", JList (json_of_file <$> files self));
          ("dependencies", JList (json_of_dependency <$> dependencies self)) ]%string.

(** *** Remote listing entry

    As for a manifest, [_id], [name], the download's [url] and the
    entries of [hashMd5] and [dependencies] are read at the types the
    rest of the code uses them at. *)

(** [list(map(int, s.split(".")))] for [s = d[key]]. *)
Definition parse_version (d : json) (key : string) : res (list Z) :=
  let? v := Dyn.getitem d key in
  match v with
  | JStr s =>
      res_map (fun part => match Py.int_of_str part with
                           | Some n => inr n
                           | None => raise ValueError
                           end)
              (Py.split "." s)
  | _ => raise AttributeError
  end.

Definition category_of_label (c : json) : ModCategories :=
  match c with
  | JStr s =>
      if decide (s = "Core"%string) then CORE
      else if decide (s = "Libraries"%string) then LIBRARY
      else if decide (s = "Cosmetic"%string) then COSMETIC
      else if decide (s = "UI Enhancements"%string) then UI
      else if decide (s = "Gameplay"%string) then GAMEPLAY
      else OTHER
  | _ => OTHER
  end.

(** [downloads[i["type"]] = i] for every [i]: a later entry of the same
    type replaces an earlier one.  Only string types can match the
    application type or ["universal"], so other keys are not kept. *)
Fixpoint dict_set (k : string) (v : json) (kvs : list (string * json)) : list (string * json) :=
  match kvs with
  | [] => [(k, v)]
  | (k', v') :: kvs' => if decide (k' = k) then (k, v) :: kvs' else (k', v') :: dict_set k v kvs'
  end.

Fixpoint collect_downloads (entries : list json) (downloads : list (string * json))
    : res (list (string * json)) :=
  match entries with
  | [] => inr downloads
  | i :: rest =>
      let? t := Dyn.getitem i "type" in
      match t with
      | JStr s => collect_downloads rest (dict_set s i downloads)
      | JList _ | JDict _ => raise TypeError          (* unhashable key *)
      | _ => collect_downloads rest downloads
      end
  end.

(** [ModSpec.fromBeatMods(d, type)] *)
Definition fromBeatMods (d : json) (type : string) : res ModSpec :=
  let? id := res_bind (Dyn.getitem d "_id") Dyn.as_str in
  let? name := res_bind (Dyn.getitem d "name") Dyn.as_str in
  let version := try_except (parse_version d "version") [0; 0; 0] in
  let? gameVersion := parse_version d "gameVersion" in
  let? c := Dyn.getitem d "category" in
  let cat := category_of_label c in
  let? entries := res_bind (Dyn.getitem d "downloads") Dyn.iter in
  let? downloads := collect_downloads entries [] in
  let? dl_spec :=
    match Dyn.assoc type downloads with
    | Some spec => inr spec
    | None =>
        match Dyn.assoc "universal" downloads with
        | None => raise (RuntimeError
            ("No version found for application type '" +:+ type +:+ "'"))
        | Some spec => inr spec
        end
    end in
  let? url := res_bind (Dyn.getitem dl_spec "url") Dyn.as_str in
  let? files := res_bind (Dyn.getitem dl_spec "hashMd5") (Dyn.as_list file_of_json) in
  let? dependencies :=
    res_bind (Dyn.getitem d "dependencies") (Dyn.as_list dependency_of_json) in
  let obj := ModSpec_init id name version url files dependencies cat gameVersion in
  inr {| _archive := _archive obj; _source := _source obj;
         id := id; name := name; version := version; gameVersion := gameVersion;
         dependencies := dependencies; category := cat; url := url; files := files;
         ignore := ignore obj; is_local := is_local obj; is_remote := FBool true;
         need_update := need_update obj; need_install := need_install obj;
         need_uninstall := need_uninstall obj |}.

(** Attribute assignment on a record. *)
Definition set_archive (v : option string) (m : ModSpec) : ModSpec :=
  {| _archive := v; _source := _source m; id := id m; name := name m;
     version := version m; gameVersion := gameVersion m;
     dependencies := dependencies m; category := category m; url := url m;
     files := files m; ignore := ignore m; is_local := is_local m;
     is_remote := is_remote m; need_update := need_update m;
     need_install := need_install m; need_uninstall := need_uninstall m |}.

Definition set_source (v : option ref) (m : ModSpec) : ModSpec :=
  {| _archive := _archive m; _source := v; id := id m; name := name m;
     version := version m; gameVersion := gameVersion m;
     dependencies := dependencies m; category := category m; url := url m;
     files := files m; ignore := ignore m; is_local := is_local m;
     is_remote := is_remote m; need_update := need_update m;
     need_install := need_install m; need_uninstall := need_uninstall m |}.

Definition set_is_local (v : flag) (m : ModSpec) : ModSpec :=
  {| _archive := _archive m; _source := _source m; id := id m; name := name m;
     version := version m; gameVersion := gameVersion m;
     dependencies := dependencies m; category := category m; url := url m;
     files := files m; ignore := ignore m; is_local := v;
     is_remote := is_remote m; need_update := need_update m;
     need_install := need_install m; need_uninstall := need_uninstall m |}.

Definition set_is_remote (v : flag) (m : ModSpec) : ModSpec :=
  {| _archive := _archive m; _source := _source m; id := id m; name := name m;
     version := version m; gameVersion := gameVersion m;
     dependencies := dependencies m; category := category m; url := url m;
     files := files m; ignore := ignore m; is_local := is_local m;
     is_remote := v; need_update := need_update m;
     need_install := need_install m; need_uninstall := need_uninstall m |}.

Definition set_need_update (v : flag) (m : ModSpec) : ModSpec :=
  {| _archive := _archive m; _source := _source m; id := id m; name := name m;
     version := version m; gameVersion := gameVersion m;
     dependencies := dependencies m; category := category m; url := url m;
     files := files m; ignore := ignore m; is_local := is_local m;
     is_remote := is_remote m; need_update := v;
     need_install := need_install m; need_uninstall := need_uninstall m |}.

Definition set_need_install (v : flag) (m : ModSpec) : ModSpec :=
  {| _archive := _archive m; _source := _source m; id := id m; name := name m;
     version := version m; gameVersion := gameVersion m;
     dependencies := dependencies m; category := category m; url := url m;
     files := files m; ignore := ignore m; is_local := is_local m;
     is_remote := is_remote m; need_update := need_update m;
     need_install := v; need_uninstall := need_uninstall m |}.

Definition set_need_uninstall (v : flag) (m : ModSpec) : ModSpec :=
  {| _archive := _archive m; _source := _source m; id := id m; name := name m;
     version := version m; gameVersion := gameVersion m;
     dependencies := dependencies m; category := category m; url := url m;
     files := files m; ignore := ignore m; is_local := is_local m;
     is_remote := is_remote m; need_update := need_update m;
     need_install := need_install m; need_uninstall := v |}.

(** *** Standalone archive *)

(** A zip member; [is_dir()] is "the name ends with a slash". *)
Record ZipInfo := { filename : string; data : string }.

Definition is_dir (m : ZipInfo) : bool := Py.endswith (filename m) "/".

(** An open [zipfile.ZipFile]: the path it was opened from and its
    members in archive order. *)
Record ZipFile := { zip_filename : string; infolist : list ZipInfo }.

Definition namelist (f : ZipFile) : list string := filename <$> infolist f.

(** [f.getinfo(name)]: the last member of that name; [None] is [KeyError]. *)
Definition getinfo (f : ZipFile) (n : string) : option ZipInfo :=
  last (filter (fun m => filename m = n) (infolist f)).

(** [f.read(name)], also [f.open(name).read()]. *)
Definition zip_read (f : ZipFile) (n : string) : option string :=
  data <$> getinfo f n.

(** [pathlib.Path(p).name], with ["/"] as the separator. *)
Definition path_name (p : string) : string :=
  default EmptyString (last (filter (fun s => s <> EmptyString) (Py.split "/" p))).

Section Archive.

(** [json.loads] on the bytes of an archive member; [None] when they are
    not JSON text. *)
Variable json_loads : string -> option json.

(** The record read from the archive's own [spec.json], if any.  The
    second attempt of the source, [fromBeatMods(json.load(f))], hands the
    archive object itself to [json.load] and always fails. *)
Definition archive_spec (f : ZipFile) : option ModSpec :=
  match zip_read f "spec.json" with
  | None => None
  | Some text =>
      match json_loads text with
      | None => None
      | Some d =>
          match fromSpecFile d with
          | inr s => Some s
          | inl _ => None
          end
      end
  end.

(** [ModSpec.fromArchive(f)] *)
Definition fromArchive (f : ZipFile) : ModSpec :=
  match archive_spec f with
  | Some s => s
  | None =>
      let entries := namelist f in
      let id := MD5.hexdigest (foldr String.append EmptyString entries) in
      let hashes :=
        (fun n => {| file := n;
                     hash := MD5.hexdigest (default EmptyString (zip_read f n)) |})
          <$> entries in
      let modName := path_name (zip_filename f) in
      let spec := ModSpec_init id modName [1; 0; 0] "local" hashes [] OTHER [1; 0; 0] in
      set_archive (Some (zip_filename f)) spec
  end.

End Archive.

(** ** The patcher *)

(** What a file holds: raw bytes, or JSON text given by its document. *)
Inductive content :=
  | Bytes (b : string)
  | Document (d : json).

(** What [downloadMod(url)] and the [read()] of its response come to:
    the request raises, the response opens and reading it raises, or
    reading it gives the bytes. *)
Inductive response :=
  | Refused (e : exn)
  | Broken (e : exn)
  | Body (b : string).

(** The world outside the program. *)
Record Env := {
  (* downloadMod(url) and f.read() *)
  net : string -> response;
  (* zipfile.ZipFile on the bytes of a file; None: not a zip archive *)
  unzip : string -> option (list ZipInfo);
  (* json.loads on raw bytes; None: not JSON text *)
  json_loads : string -> option json;
  (* whether a path may be created, overwritten or removed *)
  writable : string -> bool;
  (* getBeatModsList(); None: the request fails *)
  listing : option (list json)
}.

Inductive phase := Uninstalling | Downloading | Installing.

(** What a run of the patcher does to the installation, in order. *)
Inductive event :=
  | Unlinked (r : ref) (p : string)      (* a file of [r] removed *)
  | Forgotten (r : ref) (p : string)     (* the manifest of [r] removed *)
  | Fetched (r : ref) (p : string)       (* the archive of [r] stored in the cache *)
  | Extracted (r : ref) (p : string)     (* a member of [r]'s archive written *)
  | Persisted (r : ref) (p : string)     (* the manifest of [r] written *)
  | Failed (ph : phase) (r : ref) (e : exn).  (* logger.exception in patch() *)

(** The [Patcher] object, the store of the records it refers to, the
    file system and the trace. *)
Module Patcher.

Record t := mk {
  heap : gmap ref ModSpec;
  next_ref : ref;
  app_type : string;
  path : string;
  download_cache : string;
  manifest_cache : string;
  remote : list ref;
  local : list ref;
  need_install : list ref;
  need_uninstall : list ref;
  need_update : list ref;
  fs : gmap string content;
  trace : list event
}.

Definition with_heap (h : gmap ref ModSpec) (s : t) : t :=
  mk h (next_ref s) (app_type s) (path s) (download_cache s) (manifest_cache s)
    (remote s) (local s) (need_install s) (need_uninstall s) (need_update s)
    (fs s) (trace s).

Definition with_next_ref (n : ref) (s : t) : t :=
  mk (heap s) n (app_type s) (path s) (download_cache s) (manifest_cache s)
    (remote s) (local s) (need_install s) (need_uninstall s) (need_update s)
    (fs s) (trace s).

Definition with_remote (l : list ref) (s : t) : t :=
  mk (heap s) (next_ref s) (app_type s) (path s) (download_cache s)
    (manifest_cache s) l (local s) (need_install s) (need_uninstall s)
    (need_update s) (fs s) (trace s).

Definition with_local (l : list ref) (s : t) : t :=
  mk (heap s) (next_ref s) (app_type s) (path s) (download_cache s)
    (manifest_cache s) (remote s) l (need_install s) (need_uninstall s)
    (need_update s) (fs s) (trace s).

Definition with_need_install (l : list ref) (s : t) : t :=
  mk (heap s) (next_ref s) (app_type s) (path s) (download_cache s)
    (manifest_cache s) (remote s) (local s) l (need_uninstall s)
    (need_update s) (fs s) (trace s).

Definition with_need_uninstall (l : list ref) (s : t) : t :=
  mk (heap s) (next_ref s) (app_type s) (path s) (download_cache s)
    (manifest_cache s) (remote s) (local s) (need_install s) l
    (need_update s) (fs s) (trace s).

Definition with_need_update (l : list ref) (s : t) : t :=
  mk (heap s) (next_ref s) (app_type s) (path s) (download_cache s)
    (manifest_cache s) (remote s) (local s) (need_install s) (need_uninstall s)
    l (fs s) (trace s).

Definition with_fs (f : gmap string content) (s : t) : t :=
  mk (heap s) (next_ref s) (app_type s) (path s) (download_cache s)
    (manifest_cache s) (remote s) (local s) (need_install s) (need_uninstall s)
    (need_update s) f (trace s).

Definition with_trace (tr : list event) (s : t) : t :=
  mk (heap s) (next_ref s) (app_type s) (path s) (download_cache s)
    (manifest_cache s) (remote s) (local s) (need_install s) (need_uninstall s)
    (need_update s) (fs s) tr.

End Patcher.

#[global] Instance ModSpec_inhabited : Inhabited ModSpec :=
  populate (ModSpec_init "" "" [] "" [] [] OTHER []).

(** Reading and updating the object behind a reference. *)
Definition get (s : Patcher.t) (r : ref) : ModSpec := Patcher.heap s !!! r.

Definition upd (r : ref) (f : ModSpec -> ModSpec) (s : Patcher.t) : Patcher.t :=
  Patcher.with_heap (<[r := f (get s r)]> (Patcher.heap s)) s.

(** A freshly constructed object. *)
Definition alloc (m : ModSpec) (s : Patcher.t) : ref * Patcher.t :=
  (Patcher.next_ref s,
   Patcher.with_next_ref (S (Patcher.next_ref s))
     (Patcher.with_heap (<[Patcher.next_ref s := m]> (Patcher.heap s)) s)).

Definition emit (e : event) (s : Patcher.t) : Patcher.t :=
  Patcher.with_trace (Patcher.trace s ++ [e]) s.

(** [for mod in l: if mod.name == n: ...; break]: the first record of
    that name. *)
Fixpoint find_name (s : Patcher.t) (l : list ref) (n : string) : option ref :=
  match l with
  | [] => None
  | r :: l' => if decide (name (get s r) = n) then Some r else find_name s l' n
  end.

(** Paths as [pathlib] reads and spells them, with ["/"] as the
    separator: a root (["/"], or ["//"] for exactly two leading
    slashes) and the components that are neither empty nor ["."]; a
    path without root and components is spelled ["."]. *)
Definition path_root (p : string) : string :=
  if String.prefix "/" p then
    if String.prefix "//" p && negb (String.prefix "///" p) then "//" else "/"
  else "".

Definition path_parts (p : string) : list string :=
  filter (fun c => c <> EmptyString /\ c <> "."%string) (Py.split "/" p).

Definition path_str (root : string) (parts : list string) : string :=
  let s := root +:+ Py.join "/" parts in
  if decide (s = EmptyString) then "." else s.

(** [a / b] on paths, [a] a path and [b] a string: an absolute [b]
    replaces [a]; otherwise its components follow those of [a]. *)
Definition path_join (a b : string) : string :=
  if String.prefix "/" b then path_str (path_root b) (path_parts b)
  else path_str (path_root a) (path_parts a ++ path_parts b).

(** [".".join(map(str, spec.version))] *)
Definition version_str (m : ModSpec) : string :=
  Py.join "." (Py.str_of_int <$> version m).

(** [Patcher._getSpecFileName] *)
Definition _getSpecFileName (m : ModSpec) : string :=
  name m +:+ "_" +:+ version_str m +:+ ".json".

(** [Patcher._getArchiveName] *)
Definition _getArchiveName (m : ModSpec) : string :=
  name m +:+ "_" +:+ version_str m +:+ ".zip".

Section Operations.

Variable env : Env.

(** [os.remove(p)]; [None] is [OSError]. *)
Definition os_remove (p : string) (s : Patcher.t) : option Patcher.t :=
  match Patcher.fs s !! p with
  | Some _ =>
      if writable env p then Some (Patcher.with_fs (delete p (Patcher.fs s)) s)
      else None
  | None => None
  end.

(** [open(p, "w").write(c)]; [None] is [OSError]. *)
Definition write_file (p : string) (c : content) (s : Patcher.t) : option Patcher.t :=
  if writable env p then Some (Patcher.with_fs (<[p := c]> (Patcher.fs s)) s)
  else None.

(** [zipfile.ZipFile(p, "r")]; [None] is [OSError] or [zipfile.error]. *)
Definition open_zip (s : Patcher.t) (p : string) : option ZipFile :=
  match Patcher.fs s !! p with
  | Some (Bytes b) => (fun ms => {| zip_filename := p; infolist := ms |}) <$> unzip env b
  | _ => None
  end.

(** The loop over [spec.files] in [_uninstallMod]: a file that cannot be
    removed is logged and skipped. *)
Fixpoint remove_files (r : ref) (fl : list FileEntry) (s : Patcher.t) : Patcher.t :=
  match fl with
  | [] => s
  | f :: fl' =>
      let p := path_join (Patcher.path s) (file f) in
      match os_remove p s with
      | Some s' => remove_files r fl' (emit (Unlinked r p) s')
      | None => remove_files r fl' s
      end
  end.

(** [Patcher._uninstallMod(spec)] *)
Definition _uninstallMod (s : Patcher.t) (spec : ref) : res unit * Patcher.t :=
  if negb (truthy (is_local (get s spec))) then
    (raise (RuntimeError "This mod is not currently installed."), s)
  else
    let s := remove_files spec (files (get s spec)) s in
    let p := path_join (Patcher.manifest_cache s) (_getSpecFileName (get s spec)) in
    match os_remove p s with
    | Some s' => (inr tt, emit (Forgotten spec p) s')
    | None => (inr tt, s)
    end.

(** [Patcher._writeSpec(spec)] *)
Definition _writeSpec (s : Patcher.t) (spec : ref) : res unit * Patcher.t :=
  let p := path_join (Patcher.manifest_cache s) (_getSpecFileName (get s spec)) in
  match write_file p (Document (writeSpecFile (get s spec))) s with
  | Some s' => (inr tt, emit (Persisted spec p) s')
  | None => (raise OSError, s)
  end.

(** The loop over [archive.infolist()] in [_installMod]. *)
Fixpoint extract_members (r : ref) (ms : list ZipInfo) (s : Patcher.t)
    : res unit * Patcher.t :=
  match ms with
  | [] => (inr tt, s)
  | member :: ms' =>
      if is_dir member then extract_members r ms' s
      else
        let p2 := path_join (Patcher.path s) (filename member) in
        match write_file p2 (Bytes (data member)) s with
        | Some s' => extract_members r ms' (emit (Extracted r p2) s')
        | None => (raise OSError, s)
        end
  end.

(** [Patcher._installMod(spec)] *)
Definition _installMod (s : Patcher.t) (spec : ref) : res unit * Patcher.t :=
  let p1 :=
    match _archive (get s spec) with
    | Some p => p
    | None => path_join (Patcher.download_cache s) (_getArchiveName (get s spec))
    end in
  match Patcher.fs s !! p1 with
  | None => (raise (RuntimeError "Missing archive."), s)
  | Some _ =>
      match open_zip s p1 with
      | None =>
          (raise (RuntimeError
             ("Unable to open file '" +:+ p1 +:+ "', probably bad download.")), s)
      | Some archive =>
          match extract_members spec (infolist archive) s with
          | (inl e, s') => (inl e, s')
          | (inr _, s') =>
              let s' := upd spec (set_is_remote (FBool false)) s' in
              let s' := upd spec (set_is_local (FBool true)) s' in
              let s' := upd spec (set_need_install (FBool false)) s' in
              _writeSpec s' spec
          end
      end
  end.

(** [hashes[name]] for the dict built from [spec.files]: the last entry
    of that name. *)
Definition expected_hash (fl : list FileEntry) (n : string) : option string :=
  hash <$> last (filter (fun e => file e = n) fl).

(** The loop over the members in [_verifyArchive]. *)
Fixpoint verify_members (archive : ZipFile) (fl : list FileEntry) (ms : list ZipInfo)
    : res unit :=
  match ms with
  | [] => inr tt
  | member :: ms' =>
      if is_dir member then verify_members archive fl ms'
      else
        match expected_hash fl (filename member) with
        | None => verify_members archive fl ms'
        | Some h =>
            if validateFile (default EmptyString (zip_read archive (filename member))) h
            then verify_members archive fl ms'
            else raise (RuntimeError
                   ("MD5 mismatch for file '" +:+ filename member +:+ "'."))
        end
  end.

(** [Patcher._verifyArchive(spec, path)]: [False] when the archive cannot
    be opened, an exception on a hash mismatch, [True] otherwise. *)
Definition _verifyArchive (s : Patcher.t) (spec : ref) (p : string) : res bool :=
  match open_zip s p with
  | None => inr false
  | Some archive =>
      let? _ := verify_members archive (files (get s spec)) (infolist archive) in
      inr true
  end.

(** [Patcher._downloadMod(spec)].  The cache file is opened for writing
    before the response is read, so a response that cannot be read
    leaves it empty.  The result of [_verifyArchive] is dropped, as in
    the source. *)
Definition _downloadMod (s : Patcher.t) (spec : ref) : res bool * Patcher.t :=
  match net env ("https://beatmods.com" +:+ url (get s spec)) with
  | Refused e => (raise e, s)
  | Broken e =>
      let p := path_join (Patcher.download_cache s) (_getArchiveName (get s spec)) in
      match write_file p (Bytes EmptyString) s with
      | None => (raise OSError, s)
      | Some s' => (raise e, s')
      end
  | Body body =>
      let p := path_join (Patcher.download_cache s) (_getArchiveName (get s spec)) in
      match write_file p (Bytes body) s with
      | None => (raise OSError, s)
      | Some s' =>
          let s' := emit (Fetched spec p) s' in
          let s' := upd spec (set_archive (Some p)) s' in
          match _verifyArchive s' spec p with
          | inl e => (inl e, s')
          | inr _ => (inr true, s')
          end
      end
  end.

(** *** patch() *)

(** Phase 1: [for mod in uninstall: try: self._uninstallMod(mod) ...] *)
Fixpoint uninstall_all (l : list ref) (s : Patcher.t) : Patcher.t :=
  match l with
  | [] => s
  | md :: l' =>
      match _uninstallMod s md with
      | (inl e, s') => uninstall_all l' (emit (Failed Uninstalling md e) s')
      | (inr _, s') => uninstall_all l' s'
      end
  end.

(** Phase 2: the remote record of the same name for every record queued
    for update; a record without one is skipped. *)
Definition substitute_remotes (s : Patcher.t) (l : list ref) : list ref :=
  omap (fun md => find_name s (Patcher.remote s) (name (get s md))) l.

(** Phase 3: [for mod in install[:]: ...], [todo] being the copy that is
    iterated and [install] the list that shrinks. *)
Fixpoint download_all (todo install : list ref) (s : Patcher.t)
    : res (list ref) * Patcher.t :=
  match todo with
  | [] => (inr install, s)
  | md :: todo' =>
      match _archive (get s md) with
      | Some _ => download_all todo' install s
      | None =>
          match _downloadMod s md with
          | (inr _, s') => download_all todo' install s'
          | (inl e, s') =>
              let s' := emit (Failed Downloading md e) s' in
              match Py.list_remove md install with
              | Some install' => download_all todo' install' s'
              | None => (raise ValueError, s')
              end
          end
      end
  end.

(** Phase 4, one of the two loops. *)
Fixpoint install_all (l : list ref) (s : Patcher.t) : Patcher.t :=
  match l with
  | [] => s
  | md :: l' =>
      match _installMod s md with
      | (inl e, s') => install_all l' (emit (Failed Installing md e) s')
      | (inr _, s') => install_all l' s'
      end
  end.

(** A direct child of directory [dir]. *)
Definition is_child (dir p : string) : bool :=
  String.prefix (dir +:+ "/") p &&
  bool_decide (length (Py.split "/" p) = S (length (Py.split "/" dir))).

(** Phase 5: every file of the download cache that can be removed is. *)
Definition cleanup (s : Patcher.t) : Patcher.t :=
  Patcher.with_fs
    (filter (fun kv => (is_child (Patcher.download_cache s) kv.1 && writable env kv.1) = false)
            (Patcher.fs s)) s.

(** [Patcher.patch()] *)
Definition patch (s : Patcher.t) : res unit * Patcher.t :=
  let uninstall := Patcher.need_uninstall s ++ Patcher.need_update s in
  let s := uninstall_all uninstall s in
  let install := substitute_remotes s (Patcher.need_update s) ++ Patcher.need_install s in
  match download_all install install s with
  | (inl e, s') => (inl e, s')
  | (inr install, s) =>
      let core_install := filter (fun md => category (get s md) = CORE) install in
      let generic_install := filter (fun md => category (get s md) <> CORE) install in
      let s := install_all core_install s in
      let s := install_all generic_install s in
      (inr tt, cleanup s)
  end.

End Operations.

(** *** Queueing *)

(** What a method returns. *)
Inductive retval := RetNone | RetTrue | RetFalse.

(** Step four of [addMod]: [rec] is the recursive call
    [self.addMod(mod, spec)]; [None] when it does not return. *)
Definition deps_loop (rec : Patcher.t -> ref -> option ref -> option (retval * Patcher.t))
    (spec : ref) : list Dependency -> Patcher.t -> option Patcher.t :=
  fix go (deps : list Dependency) (s : Patcher.t) : option Patcher.t :=
    match deps with
    | [] => Some s
    | depend :: deps' =>
        let dep := dep_name depend in
        match find_name s (Patcher.local s) dep with
        | Some _ => go deps' s
        | None =>
            match find_name s (Patcher.remote s) dep with
            | Some md =>
                match rec s md (Some spec) with
                | Some (_, s') => go deps' s'
                | None => None
                end
            | None => go deps' s
            end
        end
    end.

(** Step one of [addMod] when a local record [md] of the same name
    exists: all three branches return. *)
Definition addMod_found (s : Patcher.t) (md : ref) : Patcher.t :=
  if truthy (need_uninstall (get s md)) then
    let s :=
      match Py.list_remove md (Patcher.need_uninstall s) with
      | Some l => Patcher.with_need_uninstall l s
      | None => s                                   (* try: ... except: pass *)
      end in
    upd md (set_need_uninstall (FBool false)) s
  else if truthy (need_install (get s md)) then s
  else s.

(** [Patcher.addMod(spec, fromSpec)]; [fuel] bounds the depth of the
    recursion, [None] meaning that it was exceeded. *)
Fixpoint addMod (fuel : nat) (s : Patcher.t) (spec : ref) (fromSpec : option ref)
    : option (retval * Patcher.t) :=
  match fuel with
  | O => None
  | S fuel' =>
      match find_name s (Patcher.local s) (name (get s spec)) with
      | Some md => Some (RetNone, addMod_found s md)
      | None =>
          let spec := default spec (find_name s (Patcher.remote s) (name (get s spec))) in
          let s :=
            match fromSpec with
            | Some src => upd spec (set_source (Some src)) s
            | None => s
            end in
          let s := upd spec (set_need_install (FBool true)) s in
          let s := Patcher.with_local (Patcher.local s ++ [spec]) s in
          let s := Patcher.with_need_install (Patcher.need_install s ++ [spec]) s in
          match deps_loop (addMod fuel') spec (dependencies (get s spec)) s with
          | Some s' => Some (RetTrue, s')
          | None => None
          end
      end
  end.

(** The names collected in step two of [removeMod]: one per dependency
    entry of a local record that carries the name [n]. *)
Definition dependents (s : Patcher.t) (n : string) : list string :=
  Patcher.local s ≫= (fun md =>
    (fun _ => name (get s md)) <$> filter (fun dep => dep_name dep = n) (dependencies (get s md))).

Definition conflict_message (deps : list string) : string :=
  "Other mods depend on this package. Uninstall the following mods first: "
    +:+ Py.join ", " deps.

(** [Patcher.removeMod(spec, force)] *)
Definition removeMod (s : Patcher.t) (spec : ref) (force : bool) : res retval * Patcher.t :=
  if truthy (need_install (get s spec)) then
    match Py.list_remove spec (Patcher.need_install s) with
    | None => (raise ValueError, s)
    | Some l =>
        let s := Patcher.with_need_install l s in
        let s := upd spec (set_need_install (FBool false)) s in
        match Py.list_remove spec (Patcher.local s) with
        | None => (raise ValueError, s)
        | Some l' => (inr RetTrue, Patcher.with_local l' s)
        end
    end
  else if negb (truthy (is_local (get s spec))) then (inr RetFalse, s)
  else
    let deps := dependents s (name (get s spec)) in
    if bool_decide (deps <> []) && negb force then
      (raise (RuntimeError (conflict_message deps)), s)
    else
      let s :=
        match Py.list_remove spec (Patcher.need_update s) with
        | Some l => Patcher.with_need_update l s    (* if spec in self.need_update *)
        | None => s
        end in
      let s := upd spec (set_need_uninstall (FBool true)) s in
      let s := upd spec (set_need_install (FBool false)) s in
      let s := upd spec (set_need_update (FBool false)) s in
      (inr RetTrue, Patcher.with_need_uninstall (Patcher.need_uninstall s ++ [spec]) s).

(** *** Catalog loading *)

(** [list.sort()] with [ModSpec.__lt__]: stable, by name. *)
Fixpoint sort_insert (s : Patcher.t) (r : ref) (l : list ref) : list ref :=
  match l with
  | [] => [r]
  | r' :: l' =>
      if String.ltb (name (get s r)) (name (get s r')) then r :: r' :: l'
      else r' :: sort_insert s r l'
  end.

Definition sort_by_name (s : Patcher.t) (l : list ref) : list ref :=
  foldl (fun acc r => sort_insert s r acc) [] l.

Section Catalog.

Variable env : Env.

(** [json.load(open(p))]; [ValueError] is [json.JSONDecodeError]. *)
Definition json_load (c : content) : res json :=
  match c with
  | Document d => inr d
  | Bytes b =>
      match json_loads env b with
      | Some d => inr d
      | None => raise ValueError
      end
  end.

(** The loop of [getLocal] over the manifest directory. *)
Fixpoint load_manifests (entries : list (string * content)) (s : Patcher.t)
    : res unit * Patcher.t :=
  match entries with
  | [] => (inr tt, s)
  | (p, c) :: rest =>
      if Py.endswith p ".json" then
        match res_bind (json_load c) fromSpecFile with
        | inl e => (inl e, s)
        | inr spec =>
            if truthy (ignore spec) then load_manifests rest s
            else
              let '(r, s') := alloc spec s in
              load_manifests rest (Patcher.with_local (Patcher.local s' ++ [r]) s')
        end
      else load_manifests rest s
  end.

(** [Patcher.getLocal()] *)
Definition getLocal (s : Patcher.t) : res unit * Patcher.t :=
  let s := Patcher.with_local [] s in
  let entries :=
    filter (fun kv => is_child (Patcher.manifest_cache s) kv.1 = true)
           (map_to_list (Patcher.fs s)) in
  match load_manifests entries s with
  | (inl e, s') => (inl e, s')
  | (inr _, s') => (inr tt, Patcher.with_local (sort_by_name s' (Patcher.local s')) s')
  end.

(** The loop of [getRemote] over the listing. *)
Fixpoint load_listing (mods : list json) (s : Patcher.t) : res unit * Patcher.t :=
  match mods with
  | [] => (inr tt, s)
  | md :: rest =>
      match fromBeatMods md (Patcher.app_type s) with
      | inl e => (inl e, s)
      | inr spec =>
          let '(r, s') := alloc spec s in
          load_listing rest (Patcher.with_remote (Patcher.remote s' ++ [r]) s')
      end
  end.

(** [Patcher.getRemote()] *)
Definition getRemote (s : Patcher.t) : res unit * Patcher.t :=
  let s := Patcher.with_remote [] s in
  match listing env with
  | None => (raise OSError, s)
  | Some mods => load_listing mods s
  end.

(** The update check of [refreshMods], for one local record against the
    remote list. *)
Fixpoint check_updates (spec : ref) (remotes : list ref) (s : Patcher.t) : Patcher.t :=
  match remotes with
  | [] => s
  | rspec :: rest =>
      if decide (name (get s spec) = name (get s rspec)) then
        let s := upd rspec (set_is_local (FBool true)) s in
        if Py.list_lt (version (get s spec)) (version (get s rspec)) then
          let s := upd spec (set_need_update (FBool true)) s in
          check_updates spec rest
            (Patcher.with_need_update (Patcher.need_update s ++ [spec]) s)
        else check_updates spec rest s
      else check_updates spec rest s
  end.

(** [Patcher.refreshMods(doUpdate)] *)
Definition refreshMods (s : Patcher.t) (doUpdate : bool) : res unit * Patcher.t :=
  let s := Patcher.with_need_install [] s in
  let s := Patcher.with_need_uninstall [] s in
  let s := Patcher.with_need_update [] s in
  match getLocal s with
  | (inl e, s') => (inl e, s')
  | (inr _, s') =>
      match getRemote s' with
      | (inl e, s'') => (inl e, s'')
      | (inr _, s'') =>
          if negb doUpdate then (inr tt, s'')
          else
            (inr tt,
             foldl (fun st spec => check_updates spec (Patcher.remote st) st)
                   s'' (Patcher.local s''))
      end
  end.

End Catalog.

(** * Vocabulary of the properties

    The orders, relations, measures and sample inputs the statements
    below are written with. *)

(** The order the specification describes: pad the shorter sequence with
    zeros, then compare component by component. *)
Fixpoint lex_lt (a b : list Z) : bool :=
  match a, b with
  | x :: a', y :: b' => (x <? y) || ((x =? y) && lex_lt a' b')
  | _, _ => false
  end.

Definition zero_pad (n : nat) (l : list Z) : list Z := l ++ replicate (n - length l) 0.

Definition padded_lt (a b : list Z) : bool :=
  let n := (length a `max` length b)%nat in
  lex_lt (zero_pad n a) (zero_pad n b).

(** [b] is [a] followed by one or more components, all of them zero. *)
Fixpoint zero_extension (a b : list Z) : bool :=
  match a, b with
  | [], [] => false
  | [], _ :: _ => forallb (Z.eqb 0) b
  | _ :: _, [] => false
  | x :: a', y :: b' => (x =? y) && zero_extension a' b'
  end.

(** What a record looks like once it went through a manifest: the
    persisted fields as they were, the flags as integers, the remaining
    fields as the constructor sets them. *)
Definition reloaded (m : ModSpec) : ModSpec :=
  {| _archive := None; _source := None;
     id := id m; name := name m; version := version m; gameVersion := [1; 0; 0];
     dependencies := dependencies m; category := OTHER; url := url m; files := files m;
     ignore := FInt (int_of_flag (ignore m));
     is_local := FInt (int_of_flag (is_local m));
     is_remote := FInt (int_of_flag (is_remote m));
     need_update := FInt (int_of_flag (need_update m));
     need_install := FInt (int_of_flag (need_install m));
     need_uninstall := FInt (int_of_flag (need_uninstall m)) |}.

(** An entry of the remote listing with the given two version strings. *)
Definition listing_entry (version gameVersion : string) : json :=
  JDict [ ("_id", JStr "5cc8a1b2e8a4d300065e2a46");
          ("name", JStr "SongCore");
          ("version", JStr version);
          ("gameVersion", JStr gameVersion);
          ("category", JStr "Core");
          ("dependencies", JList [JDict [("name", JStr "BSIPA")]]);
          ("downloads",
           JList [JDict [ ("type", JStr "universal");
                          ("url", JStr "/uploads/SongCore.zip");
                          ("hashMd5",
                           JList [JDict [ ("hash", JStr "900150983cd24fb0d6963f7d28e17f72");
                                          ("file", JStr "Plugins/SongCore.dll") ]]) ]]) ]%string.

(** [sorted(names)] *)
Fixpoint insert_name (n : string) (l : list string) : list string :=
  match l with
  | [] => [n]
  | n' :: l' => if String.ltb n n' then n :: n' :: l' else n' :: insert_name n l'
  end.

Definition sorted_names (l : list string) : list string :=
  foldl (fun acc n => insert_name n acc) [] l.

(** The id the specification describes: the hash of the sorted list of
    member names. *)
Definition sorted_names_id (f : ZipFile) : string :=
  MD5.hexdigest (foldr String.append EmptyString (sorted_names (namelist f))).

(** Archives with the members [b], [a] (twice, with different contents)
    and [a], [b]. *)
Definition archive_ba : ZipFile :=
  {| zip_filename := "/mods/ba.zip";
     infolist := [ {| filename := "b"; data := "x" |}; {| filename := "a"; data := "y" |} ] |}.

Definition archive_ba' : ZipFile :=
  {| zip_filename := "/mods/other.zip";
     infolist := [ {| filename := "b"; data := "y" |}; {| filename := "a"; data := "x" |} ] |}.

Definition archive_ab : ZipFile :=
  {| zip_filename := "/mods/ab.zip";
     infolist := [ {| filename := "a"; data := "y" |}; {| filename := "b"; data := "x" |} ] |}.

(** Assignments to flags and transient fields leave the identity of a
    record alone. *)
Definition keeps (f : ModSpec -> ModSpec) : Prop :=
  forall m, name (f m) = name m /\ category (f m) = category m /\
            dependencies (f m) = dependencies m /\ version (f m) = version m.

(** [s'] has the catalogs, the queues and the configuration of [s], and
    every record has kept its name, category, dependencies and version. *)
Record stable (s s' : Patcher.t) : Prop := {
  stable_remote : Patcher.remote s' = Patcher.remote s;
  stable_local : Patcher.local s' = Patcher.local s;
  stable_need_install : Patcher.need_install s' = Patcher.need_install s;
  stable_need_uninstall : Patcher.need_uninstall s' = Patcher.need_uninstall s;
  stable_need_update : Patcher.need_update s' = Patcher.need_update s;
  stable_path : Patcher.path s' = Patcher.path s;
  stable_download_cache : Patcher.download_cache s' = Patcher.download_cache s;
  stable_manifest_cache : Patcher.manifest_cache s' = Patcher.manifest_cache s;
  stable_name : forall r, name (get s' r) = name (get s r);
  stable_category : forall r, category (get s' r) = category (get s r)
}.

(** The record an event installs: files extracted, manifest written, or
    the failure of the installation logged. *)
Definition installs (e : event) : option ref :=
  match e with
  | Extracted r _ | Persisted r _ | Failed Installing r _ => Some r
  | _ => None
  end.

(** The event that ends the installation of [r], one way or the other. *)
Definition concludes (r : ref) (e : event) : Prop :=
  (exists p, e = Persisted r p) \/ (exists x, e = Failed Installing r x).

(** [s'] is reached from [s] by a run that keeps [s] stable and appends
    [evs] to the trace. *)
Definition run (s s' : Patcher.t) (evs : list event) : Prop :=
  stable s s' /\ Patcher.trace s' = Patcher.trace s ++ evs.

(** How often [r] occurs in [l]. *)
Definition occurrences (r : ref) (l : list ref) : nat :=
  length (filter (fun x => x = r) l).

(** Phases 1 to 3: the install set and the state once the downloads are
    over. *)
Definition downloaded (env : Env) (s : Patcher.t) : res (list ref) * Patcher.t :=
  let s1 := uninstall_all env (Patcher.need_uninstall s ++ Patcher.need_update s) s in
  let install := substitute_remotes s1 (Patcher.need_update s1) ++ Patcher.need_install s1 in
  download_all env install install s1.

(** The install set phase 4 works on. *)
Definition install_set (env : Env) (s : Patcher.t) : list ref :=
  match (downloaded env s).1 with
  | inr l => l
  | inl _ => []
  end.










(** The queues of [s'] are those of [s]. *)
Definition same_queues (s s' : Patcher.t) : Prop :=
  Patcher.need_install s' = Patcher.need_install s /\
  Patcher.need_uninstall s' = Patcher.need_uninstall s /\
  Patcher.need_update s' = Patcher.need_update s.

(** One remote record, queued for installation. *)
Definition songcore : ModSpec :=
  set_need_install (FBool true) (set_is_remote (FBool true)
    (ModSpec_init "5cc8a1b2e8a4d300065e2a46" "SongCore" [2; 0; 0] "/uploads/SongCore.zip"
       [ {| file := "Plugins/SongCore.dll"; hash := "900150983cd24fb0d6963f7d28e17f72" |} ]
       [] CORE [1; 0; 0])).

Definition queued : Patcher.t :=
  Patcher.mk {[ 0%nat := songcore ]} 1%nat "steam" "/bs" "/bs/.bsmm/cache" "/bs/.bsmm/meta"
    [0%nat] [0%nat] [0%nat] [] [] ∅ [].

(** The archive with the one member [Plugins/SongCore.dll]. *)
Definition songcore_zip (contents : string) : list ZipInfo :=
  [ {| filename := "Plugins/"; data := "" |};
    {| filename := "Plugins/SongCore.dll"; data := contents |} ].

(** Worlds in which the download fails, arrives with a wrong member,
    arrives as something that is not an archive, or arrives intact. *)
Definition world (download : option string) : Env :=
  {| net := fun _ => match download with
                      | Some body => Body body
                      | None => Refused OSError
                      end;
     unzip := fun b =>
       if decide (b = "good"%string) then Some (songcore_zip "abc")
       else if decide (b = "tampered"%string) then Some (songcore_zip "abd")
       else None;
     json_loads := fun _ => None;
     writable := fun _ => true;
     listing := None |}.

(** The names of the records of a list. *)
Definition names (s : Patcher.t) (l : list ref) : list string :=
  (fun r => name (get s r)) <$> l.

(** How many records of [l] carry the name [n]. *)
Definition count_name (s : Patcher.t) (l : list ref) (n : string) : nat :=
  length (filter (fun r => name (get s r) = n) l).

(** The remote records whose name no local record carries: the records
    a recursive call of [addMod] can still be made on. *)
Definition missing (s : Patcher.t) : nat :=
  length (filter (fun r => find_name s (Patcher.local s) (name (get s r)) = None)
                 (Patcher.remote s)).

(** What a call of [addMod] that queues something does to the state: the
    records of [l] are appended to the local catalog and to the install
    queue and flagged; their names are new and pairwise different;
    nothing else changes but transient fields. *)
Record grows (s s' : Patcher.t) (l : list ref) : Prop := {
  grows_remote : Patcher.remote s' = Patcher.remote s;
  grows_local : Patcher.local s' = Patcher.local s ++ l;
  grows_need_install : Patcher.need_install s' = Patcher.need_install s ++ l;
  grows_need_uninstall : Patcher.need_uninstall s' = Patcher.need_uninstall s;
  grows_need_update : Patcher.need_update s' = Patcher.need_update s;
  grows_name : forall r, name (get s' r) = name (get s r);
  grows_dependencies : forall r, dependencies (get s' r) = dependencies (get s r);
  grows_flag : forall r, need_uninstall (get s' r) = need_uninstall (get s r);
  grows_queued : forall r, r ∈ l -> truthy (need_install (get s' r)) = true;
  grows_keeps_queued :
    forall r, truthy (need_install (get s r)) = true ->
              truthy (need_install (get s' r)) = true;
  grows_fresh : NoDup (names s l);
  grows_new : forall r, r ∈ l -> find_name s (Patcher.local s) (name (get s r)) = None
}.

(** Steps two and three of [addMod] on the chosen record. *)
Definition queue_record (s : Patcher.t) (spec : ref) (fromSpec : option ref) : Patcher.t :=
  let s :=
    match fromSpec with
    | Some src => upd spec (set_source (Some src)) s
    | None => s
    end in
  let s := upd spec (set_need_install (FBool true)) s in
  let s := Patcher.with_local (Patcher.local s ++ [spec]) s in
  Patcher.with_need_install (Patcher.need_install s ++ [spec]) s.

(** Two remote packages that depend on each other, nothing installed. *)
Definition remote_spec (n : string) (deps : list string) : ModSpec :=
  set_is_remote (FBool true)
    (ModSpec_init n n [1; 0; 0] ("/uploads/" +:+ n +:+ ".zip") []
       ((fun d => {| dep_name := d |}) <$> deps) OTHER [1; 0; 0]).

Definition cycle : Patcher.t :=
  Patcher.mk (<[0%nat := remote_spec "A" ["B"]]> (<[1%nat := remote_spec "B" ["A"]]> ∅))
    2%nat "steam" "/bs" "/bs/.bsmm/cache" "/bs/.bsmm/meta"
    [0%nat; 1%nat] [] [] [] [] ∅ [].

(** The cycle once [A] has been queued. *)
Definition cycle_queued : Patcher.t :=
  match addMod 2 cycle 0%nat None with
  | Some (_, s') => s'
  | None => cycle
  end.

(** Two installed packages, [SongCore] depending on [BSIPA], the latter
    queued for an update. *)
Definition local_spec (n : string) (deps : list string) (c : ModCategories) : ModSpec :=
  set_is_local (FInt 1)
    (ModSpec_init n n [1; 0; 0] ("/uploads/" +:+ n +:+ ".zip") []
       ((fun d => {| dep_name := d |}) <$> deps) c [1; 0; 0]).

Definition installed_pair : Patcher.t :=
  Patcher.mk
    (<[0%nat := set_need_update (FBool true) (local_spec "BSIPA" [] CORE)]>
       (<[1%nat := local_spec "SongCore" ["BSIPA"] OTHER]> ∅))
    2%nat "steam" "/bs" "/bs/.bsmm/cache" "/bs/.bsmm/meta"
    [] [0%nat; 1%nat] [] [] [0%nat] ∅ [].

(** The remote catalog of scenario B: the Core package [BSIPA] and the
    Library package [SongCore] that depends on it; nothing installed. *)
Definition libs : Patcher.t :=
  Patcher.mk
    (<[0%nat := set_is_remote (FBool true)
                  (ModSpec_init "c" "BSIPA" [4; 0; 0] "/uploads/BSIPA.zip" [] [] CORE
                     [1; 0; 0])]>
       (<[1%nat := set_is_remote (FBool true)
                     (ModSpec_init "l" "SongCore" [2; 0; 0] "/uploads/SongCore.zip" []
                        [ {| dep_name := "BSIPA" |} ] LIBRARY [1; 0; 0])]> ∅))
    2%nat "steam" "/bs" "/bs/.bsmm/cache" "/bs/.bsmm/meta"
    [0%nat; 1%nat] [] [] [] [] ∅ [].

(** A world that serves both archives. *)
Definition mirror : Env :=
  {| net := fun u => Body u;
     unzip := fun b =>
       if decide (b = "https://beatmods.com/uploads/BSIPA.zip"%string)
       then Some [ {| filename := "IPA.exe"; data := "ipa" |} ]
       else if decide (b = "https://beatmods.com/uploads/SongCore.zip"%string)
       then Some [ {| filename := "Plugins/SongCore.dll"; data := "abc" |} ]
       else None;
     json_loads := fun _ => None;
     writable := fun _ => true;
     listing := None |}.

(** Scenario B once [SongCore] has been queued. *)
Definition libs_queued : Patcher.t :=
  match addMod 2 libs 1%nat None with
  | Some (_, s') => s'
  | None => libs
  end.


(** Local [X] at version [[1, 2]], remote [X] at version [[1, 2, 0]]. *)
Definition trailing_zero_update : Patcher.t :=
  Patcher.mk
    (<[0%nat := set_is_local (FInt 1)
                  (ModSpec_init "x" "X" [1; 2] "/uploads/X.zip" [] [] OTHER [1; 0; 0])]>
       (<[1%nat := set_is_remote (FBool true)
                     (ModSpec_init "x" "X" [1; 2; 0] "/uploads/X.zip" [] [] OTHER
                        [1; 0; 0])]> ∅))
    2%nat "steam" "/bs" "/bs/.bsmm/cache" "/bs/.bsmm/meta"
    [1%nat] [0%nat] [] [] [] ∅ [].

(** * Further vocabulary *)

(** A byte. *)
Definition is_byte (b : Z) : Prop := 0 <= b < 256.

(** A member of [archive] whose contents do not have the hash that [fl]
    records for its name. *)
Definition mismatch (archive : ZipFile) (fl : list FileEntry) (member : ZipInfo) : Prop :=
  is_dir member = false /\
  exists h, expected_hash fl (filename member) = Some h /\
            validateFile (default EmptyString (zip_read archive (filename member))) h = false.

(** What a run of [patch] leaves alone in a record: everything but the
    archive binding and the flags [is_local], [is_remote] and
    [need_install]. *)
Definition same_data (m m' : ModSpec) : Prop :=
  _source m' = _source m /\ id m' = id m /\ name m' = name m /\
  version m' = version m /\ gameVersion m' = gameVersion m /\
  dependencies m' = dependencies m /\ category m' = category m /\
  url m' = url m /\ files m' = files m /\ ignore m' = ignore m /\
  need_update m' = need_update m /\ need_uninstall m' = need_uninstall m.

(** From [s] to [s'] only records satisfying [T] changed, and only as
    [same_data] allows; an archive binding, once made, stayed. *)
Definition evolves (T : ref -> Prop) (s s' : Patcher.t) : Prop :=
  forall r, same_data (get s r) (get s' r) /\
            (forall p, _archive (get s r) = Some p -> _archive (get s' r) = Some p) /\
            (~ T r -> get s' r = get s r).

(** The install set as phase 2 assembles it. *)
Definition assembled (s : Patcher.t) : list ref :=
  substitute_remotes s (Patcher.need_update s) ++ Patcher.need_install s.

(** The phase an event belongs to and the record it concerns. *)
Definition phase_of (e : event) : phase :=
  match e with
  | Unlinked _ _ | Forgotten _ _ | Failed Uninstalling _ _ => Uninstalling
  | Fetched _ _ | Failed Downloading _ _ => Downloading
  | Extracted _ _ | Persisted _ _ | Failed Installing _ _ => Installing
  end.

Definition subject (e : event) : ref :=
  match e with
  | Unlinked r _ | Forgotten r _ | Fetched r _ | Extracted r _ | Persisted r _
  | Failed _ r _ => r
  end.

(** The events a run of [patch] adds to the trace. *)
Definition events_of (env : Env) (s : Patcher.t) : list event :=
  drop (length (Patcher.trace s)) (Patcher.trace (patch env s).2).

(** The state after the downloads of the sample run in a world that
    serves the intact archive. *)
Definition queued_fetched : Patcher.t := (downloaded (world (Some "good")) queued).2.

(** Every dependency of [r] is met by the local catalog or unknown to the
    remote catalog as well. *)
Definition satisfied (s : Patcher.t) (r : ref) : Prop :=
  forall dep, dep ∈ dependencies (get s r) ->
    is_Some (find_name s (Patcher.local s) (dep_name dep)) \/
    find_name s (Patcher.remote s) (dep_name dep) = None.

(** The local catalog holds no name twice; the install queue holds no
    record twice, and every record in it is in the local catalog and
    flagged [need_install]. *)
Definition consistent (s : Patcher.t) : Prop :=
  NoDup (names s (Patcher.local s)) /\
  NoDup (Patcher.need_install s) /\
  forall r, r ∈ Patcher.need_install s ->
            r ∈ Patcher.local s /\ truthy (need_install (get s r)) = true.

(** How many records of [remotes] carry the name of [spec] and a version
    that compares greater. *)
Definition outdated (s : Patcher.t) (spec : ref) (remotes : list ref) : nat :=
  length (filter (fun r => name (get s spec) = name (get s r) /\
                           Py.list_lt (version (get s spec)) (version (get s r)) = true)
                 remotes).

(** One round of the inner loop of the update check. *)
Definition check_one (spec rspec : ref) (s : Patcher.t) : Patcher.t :=
  if decide (name (get s spec) = name (get s rspec)) then
    let s := upd rspec (set_is_local (FBool true)) s in
    if Py.list_lt (version (get s spec)) (version (get s rspec)) then
      let s := upd spec (set_need_update (FBool true)) s in
      Patcher.with_need_update (Patcher.need_update s ++ [spec]) s
    else s
  else s.

(** What the update check does to the state besides the update queue:
    catalogs as they were, records changed in [is_local] and
    [need_update] at most, and neither flag taken back once it is
    [True]. *)
Record checked (s s' : Patcher.t) : Prop := {
  checked_local : Patcher.local s' = Patcher.local s;
  checked_remote : Patcher.remote s' = Patcher.remote s;
  checked_data :
    forall r, exists a b, get s' r = set_need_update a (set_is_local b (get s r));
  checked_is_local :
    forall r, is_local (get s r) = FBool true -> is_local (get s' r) = FBool true;
  checked_need_update :
    forall r, need_update (get s r) = FBool true -> need_update (get s' r) = FBool true
}.

(** One installed package, [SongCore] 1.0.0, and a listing that offers
    it twice, as 1.2.0 and as 1.3.0. *)
Definition stale_install : Patcher.t :=
  Patcher.mk ∅ 0%nat "steam" "/bs" "/bs/.bsmm/cache" "/bs/.bsmm/meta"
    [] [] [] [] []
    (<["/bs/.bsmm/meta/SongCore-1.0.0.json"%string :=
         Document (writeSpecFile (local_spec "SongCore" ["BSIPA"] LIBRARY))]> ∅) [].

Definition two_releases : Env :=
  {| net := fun _ => Refused OSError;
     unzip := fun _ => None;
     json_loads := fun _ => None;
     writable := fun _ => true;
     listing := Some [listing_entry "1.2.0" "1.0.0"; listing_entry "1.3.0" "1.0.0"] |}.

(** No record of [l] is followed by one whose name is smaller. *)
Fixpoint ordered (s : Patcher.t) (l : list ref) : Prop :=
  match l with
  | a :: l' =>
      match l' with
      | b :: _ => String.ltb (name (get s b)) (name (get s a)) = false
      | [] => True
      end /\ ordered s l'
  | [] => True
  end.

(** The entries of a [downloads] list that are for application type [t],
    and the one of them that the dictionary built from the list keeps:
    the last. *)
Definition has_type (t : string) (i : json) : bool :=
  match Dyn.getitem i "type" with
  | inr (JStr s) => bool_decide (s = t)
  | _ => false
  end.

Definition variant (t : string) (entries : list json) : option json :=
  last (filter (fun i => has_type t i = true) entries).

Definition is_runtime (e : exn) : bool :=
  match e with
  | RuntimeError _ => true
  | _ => false
  end.

(** * The command line (src/bsmm.py) *)

(** [getStatusMsg(spec)] *)
Definition getStatusMsg (spec : ModSpec) : string :=
  if truthy (need_install spec) then "install"
  else if truthy (is_remote spec) && negb (truthy (is_local spec)) then "not installed"
  else if truthy (is_local spec) then
    if truthy (need_update spec) then "update pending"
    else if truthy (need_uninstall spec) then "uninstall"
    else "installed"
  else "".

(** What a command can end with besides the exceptions of the library:
    the [NameError] of a name that is bound nowhere. *)
Inductive cli_exn :=
  | Raised (e : exn)
  | NameError (n : string).

(** [print(line)] on the text written so far. *)
Definition print (line out : string) : string :=
  out +:+ line +:+ String (ascii_of_nat 10) EmptyString.

Section CommandLine.

Variable env : Env.

(** [installMods(args)] with [args.name = modname]; [cont] is the line that
    [input] reads.  The result carries the text written to the standard
    output; [None] when [addMod] exceeds the depth [fuel].  The test
    after the prompt compares with the name [n], which no scope binds:
    evaluating it raises [NameError], so the call of [patch] below it is
    never reached. *)
Definition installMods (fuel : nat) (s : Patcher.t) (modname cont : string)
    : option ((cli_exn + unit) * string * Patcher.t) :=
  match refreshMods env s false with
  | (inl e, s) => Some (inl (Raised e), EmptyString, s)
  | (inr _, s) =>
      match find_name s (Patcher.remote s) modname with
      | None =>
          Some (inl (Raised (RuntimeError
                  ("Unable to install mod '" +:+ modname
                   +:+ "': Package not found in remote repository."))),
                EmptyString, s)
      | Some spec =>
          match addMod fuel s spec None with
          | None => None
          | Some (_, s) =>
              let out := print "The following packages will be installed:" EmptyString in
              let out :=
                foldl (fun out md => print ("    " +:+ name (get s md)) out) out
                      (Patcher.need_install s) in
              let out := out +:+ "Do you wish to continue? (y/n) [y]: " in
              let lowered := Py.lower cont in
              Some (inl (NameError "n"), out, s)
          end
      end
  end.

(** [uninstallMods(args)] with [args.name = modname] and [args.force = force]. *)
Definition uninstallMods (s : Patcher.t) (modname : string) (force : bool)
    : res unit * Patcher.t :=
  match getLocal env s with
  | (inl e, s) => (inl e, s)
  | (inr _, s) =>
      match find_name s (Patcher.local s) modname with
      | None =>
          (raise (RuntimeError
             ("Unable to uninstall mod '" +:+ modname
              +:+ "': Package not found in local repository.")), s)
      | Some spec =>
          match removeMod s spec force with
          | (inl e, s) => (inl e, s)
          | (inr _, s) => patch env s
          end
      end
  end.

End CommandLine.

(** [SongCore] 2.0.0 as installed from the archive of [mirror]: its
    manifest and its one file on disk, and a leftover in the download
    cache. *)
Definition songcore_installed : ModSpec :=
  set_is_local (FInt 1)
    (ModSpec_init "l" "SongCore" [2; 0; 0] "/uploads/SongCore.zip"
       [ {| file := "Plugins/SongCore.dll"; hash := "900150983cd24fb0d6963f7d28e17f72" |} ]
       [ {| dep_name := "BSIPA" |} ] OTHER [1; 0; 0]).

Definition on_disk : Patcher.t :=
  Patcher.mk ∅ 0%nat "steam" "/bs" "/bs/.bsmm/cache" "/bs/.bsmm/meta"
    [] [] [] [] []
    (<["/bs/.bsmm/meta/SongCore_2.0.0.json"%string :=
         Document (writeSpecFile songcore_installed)]>
       (<["/bs/Plugins/SongCore.dll"%string := Bytes "abc"]>
          (<["/bs/.bsmm/cache/old.zip"%string := Bytes "zip"]>
             (<["/bs/Beat Saber.exe"%string := Bytes "exe"]> ∅)))) [].

(** [s'] has the files, the trace and the directories of [s]. *)
Definition same_disk (s s' : Patcher.t) : Prop :=
  Patcher.fs s' = Patcher.fs s /\
  Patcher.trace s' = Patcher.trace s /\
  Patcher.path s' = Patcher.path s /\
  Patcher.download_cache s' = Patcher.download_cache s /\
  Patcher.manifest_cache s' = Patcher.manifest_cache s.

(** No component of the path [p] is [".."]. Files are told apart by
    the spelling [pathlib] gives their paths; for paths without [".."]
    this is how the operating system tells them apart too, links and
    the folding of letter case aside. *)
Definition plain (p : string) : bool :=
  bool_decide (".."%string ∉ Py.split "/" p).

(** [l'] is [l] without the first occurrence of [r], and [l] itself when
    [r] does not occur in it. *)
Definition drops_first (r : ref) (l l' : list ref) : Prop :=
  (r ∉ l -> l' = l) /\
  (forall a b, l = a ++ r :: b -> r ∉ a -> l' = a ++ b).

(** Un-queueing the uninstall of [md], from [s] to [s']: when [md] is
    flagged for uninstall, its first occurrence leaves the uninstall
    queue and the flag is cleared; when it is not, nothing is done. In
    both cases nothing else changes. *)
Record unqueued (md : ref) (s s' : Patcher.t) : Prop := {
  unqueued_remote : Patcher.remote s' = Patcher.remote s;
  unqueued_local : Patcher.local s' = Patcher.local s;
  unqueued_need_install : Patcher.need_install s' = Patcher.need_install s;
  unqueued_need_update : Patcher.need_update s' = Patcher.need_update s;
  unqueued_disk : same_disk s s';
  unqueued_others : forall r, r <> md -> get s' r = get s r;
  unqueued_idle : truthy (need_uninstall (get s md)) = false -> s' = s;
  unqueued_flag :
    truthy (need_uninstall (get s md)) = true ->
    get s' md = set_need_uninstall (FBool false) (get s md);
  unqueued_queue :
    truthy (need_uninstall (get s md)) = true ->
    drops_first md (Patcher.need_uninstall s) (Patcher.need_uninstall s')
}.

(** The cycle with [A] flagged and queued for uninstall although it is
    not installed. *)
Definition cycle_flagged : Patcher.t :=
  Patcher.with_need_uninstall [0%nat] (upd 0%nat (set_need_uninstall (FBool true)) cycle).

(** A new installation: nothing on disk, nothing loaded. *)
Definition nothing_installed : Patcher.t :=
  Patcher.mk ∅ 0%nat "steam" "/bs" "/bs/.bsmm/cache" "/bs/.bsmm/meta" [] [] [] [] [] ∅ [].

(** Whether the character [c] occurs in [s]. *)
Fixpoint has_char (c : ascii) (s : string) : bool :=
  match s with
  | EmptyString => false
  | String c' s' => bool_decide (c' = c) || has_char c s'
  end.

(** An archive that carries its own manifest. *)
Definition archive_with_manifest : ZipFile :=
  {| zip_filename := "/mods/SongCore.zip";
     infolist := [ {| filename := "spec.json"; data := "{...}" |};
                   {| filename := "Plugins/SongCore.dll"; data := "abc" |} ] |}.

(** * The window (src/bsmmgui.py) *)

Section Window.

Variable env : Env.


End Window.


(** * Properties *)

(** ** hashlib.md5 against the test suite of RFC 1321 *)

Example md5_empty : MD5.hexdigest "" = "d41d8cd98f00b204e9800998ecf8427e"%string.
Proof. vm_compute. reflexivity. Qed.

Example md5_abc : MD5.hexdigest "abc" = "900150983cd24fb0d6963f7d28e17f72"%string.
Proof. vm_compute. reflexivity. Qed.

Example md5_message_digest :
  MD5.hexdigest "message digest" = "f96b697d7cb7938d525a2f31aaf161d0"%string.
Proof. vm_compute. reflexivity. Qed.

Example md5_two_blocks :
  MD5.hexdigest "aaaaaaaaaaaaaaaaaaaaaaaaaaaaaaaaaaaaaaaaaaaaaaaaaaaaaaaa"
  = "3b0c8ac703f828b04c6c197006d17218"%string.
Proof. vm_compute. reflexivity. Qed.


(** ** Version comparison *)

Lemma bool_decide_ltb (x y : Z) : bool_decide (x < y) = (x <? y).
Proof.
  destruct (Z.ltb_spec x y).
  - by apply bool_decide_eq_true_2.
  - apply bool_decide_eq_false_2. lia.
Qed.

Lemma padded_lt_cons x a y b :
  padded_lt (x :: a) (y :: b) = (x <? y) || ((x =? y) && padded_lt a b).
Proof. reflexivity. Qed.

Lemma lex_lt_zeros_r (l : list Z) :
  Forall (fun x => 0 <= x) l -> lex_lt l (replicate (length l) 0) = false.
Proof.
  induction 1 as [|x l Hx _ IH]; [reflexivity|].
  cbn [length replicate lex_lt]. rewrite IH, andb_false_r, orb_false_r.
  apply Z.ltb_ge, Hx.
Qed.

Lemma lex_lt_zeros_l (l : list Z) :
  Forall (fun x => 0 <= x) l ->
  lex_lt (replicate (length l) 0) l || forallb (Z.eqb 0) l = true.
Proof.
  induction 1 as [|x l Hx _ IH]; [reflexivity|].
  cbn [length replicate lex_lt forallb].
  destruct (Z.ltb_spec 0 x) as [Hlt|Hge]; [reflexivity|].
  assert (x = 0) as -> by lia. exact IH.
Qed.

Lemma padded_lt_nil_r (a : list Z) :
  Forall (fun x => 0 <= x) a -> padded_lt a [] = false.
Proof.
  intros Ha. unfold padded_lt, zero_pad. cbn [length].
  rewrite Nat.max_0_r, Nat.sub_diag, Nat.sub_0_r, app_nil_r. cbn [replicate app].
  by apply lex_lt_zeros_r.
Qed.

Lemma padded_lt_nil_l (b : list Z) :
  Forall (fun x => 0 <= x) b -> padded_lt [] b || forallb (Z.eqb 0) b = true.
Proof.
  intros Hb. unfold padded_lt, zero_pad. cbn [length app].
  rewrite Nat.max_0_l, Nat.sub_diag, Nat.sub_0_r, app_nil_r.
  by apply lex_lt_zeros_l.
Qed.

Lemma list_lt_padded (a b : list Z) :
  Forall (fun x => 0 <= x) a -> Forall (fun x => 0 <= x) b ->
  Py.list_lt a b = padded_lt a b || zero_extension a b.
Proof.
  intros Ha. revert b. induction Ha as [|x a Hx Ha IH]; intros [|y b] Hb.
  - reflexivity.
  - symmetry. apply (padded_lt_nil_l (y :: b) Hb).
  - rewrite padded_lt_nil_r by (by constructor). reflexivity.
  - inversion_clear Hb as [|? ? Hy Hb'].
    rewrite padded_lt_cons. cbn [Py.list_lt zero_extension].
    destruct (decide (x = y)) as [->|Hne].
    + rewrite Z.ltb_irrefl, Z.eqb_refl. cbn. by apply IH.
    + apply Z.eqb_neq in Hne as Hne'. rewrite Hne'. cbn. rewrite !orb_false_r.
      apply bool_decide_ltb.
Qed.

Lemma list_lt_same_length (a b : list Z) :
  length a = length b -> Py.list_lt a b = padded_lt a b.
Proof.
  revert b. induction a as [|x a IH]; intros [|y b] Hlen; try discriminate; [reflexivity|].
  rewrite padded_lt_cons. cbn [Py.list_lt].
  destruct (decide (x = y)) as [->|Hne].
  - rewrite Z.ltb_irrefl, Z.eqb_refl. cbn. apply IH. by injection Hlen.
  - apply Z.eqb_neq in Hne as Hne'. rewrite Hne'. cbn. rewrite orb_false_r.
    apply bool_decide_ltb.
Qed.

(** C6 (as the code has it): the update check compares versions with
    Python's list order.  On sequences of non-negative integers, [a < b]
    holds exactly when [a] is below [b] in the zero-padded component-wise
    order or [b] is [a] extended by zeros; the two orders agree on
    sequences of equal length.  [[1,2] < [1,2,1]] and [[1,9] < [1,10]]. *)
Theorem version_order (a b : list Z) :
  Forall (fun x => 0 <= x) a -> Forall (fun x => 0 <= x) b ->
  Py.list_lt a b = padded_lt a b || zero_extension a b /\
  (length a = length b -> Py.list_lt a b = padded_lt a b) /\
  Py.list_lt [1; 2] [1; 2; 1] = true /\
  Py.list_lt [1; 9] [1; 10] = true.
Proof.
  intros Ha Hb. split; [by apply list_lt_padded|].
  split; [apply list_lt_same_length|]. split; reflexivity.
Qed.

Lemma version_order_witness :
  Py.list_lt [1; 2] [1; 2; 0] = padded_lt [1; 2] [1; 2; 0] || zero_extension [1; 2] [1; 2; 0] /\
  (length [1; 2] = length [1; 2; 0] -> Py.list_lt [1; 2] [1; 2; 0] = padded_lt [1; 2] [1; 2; 0]) /\
  Py.list_lt [1; 2] [1; 2; 1] = true /\
  Py.list_lt [1; 9] [1; 10] = true.
Proof.
  apply (version_order [1; 2] [1; 2; 0]); repeat constructor; lia.
Defined.

(** C6 (as claimed) fails: a sequence is strictly below itself extended
    with a trailing zero, where the zero-padded order has them equal. *)
Lemma version_order_trailing_zero :
  Py.list_lt [1; 2] [1; 2; 0] = true /\
  padded_lt [1; 2] [1; 2; 0] = false /\
  padded_lt [1; 2; 0] [1; 2] = false.
Proof. repeat split. Qed.

(** ** Manifest round trip *)

Lemma res_map_fmap {A} (enc : A -> json) (dec : json -> res A) (l : list A) :
  (forall a, dec (enc a) = inr a) -> res_map dec (enc <$> l) = inr l.
Proof.
  intros Hinv. induction l as [|a l IH]; [reflexivity|].
  cbn [fmap list_fmap res_map]. rewrite Hinv. cbn. fold (fmap enc l).
  rewrite IH. reflexivity.
Qed.

Lemma file_of_json_of_file e : file_of_json (json_of_file e) = inr e.
Proof. by destruct e. Qed.

Lemma dependency_of_json_of_dependency d :
  dependency_of_json (json_of_dependency d) = inr d.
Proof. by destruct d. Qed.

(** [fromSpecFile] on a document with the keys of the file format. *)
Lemma fromSpecFile_document (i n u : string) (ver fl deps : list json)
    (f1 f2 f3 f4 f5 f6 : Z) :
  fromSpecFile
    (JDict [ ("config", JDict [ ("ignore", JInt f1); ("is_local", JInt f2);
                                ("is_remote", JInt f3); ("need_update", JInt f4);
                                ("need_install", JInt f5);
                                ("need_uninstall", JInt f6) ]%string);
             ("id", JStr i); ("name", JStr n); ("version", JList ver);
             ("url", JStr u); ("files", JList fl);
             ("dependencies", JList deps) ]%string)
  = (let? version := res_map Dyn.as_int ver in
     let? dependencies := res_map dependency_of_json deps in
     let? files := res_map file_of_json fl in
     inr {| _archive := None; _source := None;
            id := i; name := n; version := version; gameVersion := [1; 0; 0];
            dependencies := dependencies; category := OTHER; url := u; files := files;
            ignore := FInt f1; is_local := FInt f2; is_remote := FInt f3;
            need_update := FInt f4; need_install := FInt f5;
            need_uninstall := FInt f6 |}).
Proof. reflexivity. Qed.

Lemma fromSpecFile_writeSpecFile m :
  fromSpecFile (writeSpecFile m) = inr (reloaded m).
Proof.
  unfold writeSpecFile. rewrite fromSpecFile_document.
  rewrite (res_map_fmap JInt Dyn.as_int) by reflexivity.
  rewrite (res_map_fmap json_of_dependency dependency_of_json)
    by apply dependency_of_json_of_dependency.
  rewrite (res_map_fmap json_of_file file_of_json) by apply file_of_json_of_file.
  reflexivity.
Qed.

Lemma flag_eqb_reloaded (x : flag) : flag_eqb (FInt (int_of_flag x)) x = true.
Proof. apply Z.eqb_refl. Qed.

(** C7: a record written with [writeSpecFile] and read back with
    [fromSpecFile] is read without error and has the same id, name,
    version, url, files and dependencies; each flag comes back as the
    integer that encodes it, equal to the original under Python's [==]
    and with the same truth value; writing the result again gives the
    same document. *)
Theorem manifest_round_trip (m : ModSpec) :
  exists m',
    fromSpecFile (writeSpecFile m) = inr m' /\
    id m' = id m /\ name m' = name m /\ version m' = version m /\ url m' = url m /\
    files m' = files m /\ dependencies m' = dependencies m /\
    (ignore m' = FInt (int_of_flag (ignore m)) /\
     is_local m' = FInt (int_of_flag (is_local m)) /\
     is_remote m' = FInt (int_of_flag (is_remote m)) /\
     need_update m' = FInt (int_of_flag (need_update m)) /\
     need_install m' = FInt (int_of_flag (need_install m)) /\
     need_uninstall m' = FInt (int_of_flag (need_uninstall m))) /\
    (flag_eqb (ignore m') (ignore m) = true /\
     flag_eqb (is_local m') (is_local m) = true /\
     flag_eqb (is_remote m') (is_remote m) = true /\
     flag_eqb (need_update m') (need_update m) = true /\
     flag_eqb (need_install m') (need_install m) = true /\
     flag_eqb (need_uninstall m') (need_uninstall m) = true) /\
    (truthy (ignore m') = truthy (ignore m) /\
     truthy (is_local m') = truthy (is_local m) /\
     truthy (is_remote m') = truthy (is_remote m) /\
     truthy (need_update m') = truthy (need_update m) /\
     truthy (need_install m') = truthy (need_install m) /\
     truthy (need_uninstall m') = truthy (need_uninstall m)) /\
    writeSpecFile m' = writeSpecFile m.
Proof.
  exists (reloaded m). split; [apply fromSpecFile_writeSpecFile|].
  repeat split; apply flag_eqb_reloaded.
Qed.

(** ** Remote listing entries *)

Lemma res_bind_inr {A B} (m : res A) (k : A -> res B) (b : B) :
  res_bind m k = inr b -> exists a, m = inr a /\ k a = inr b.
Proof. destruct m as [e|a]; [discriminate|]. intros H. by exists a. Qed.

(** An unparsable version string is not fatal: the version of the record
    is [[0, 0, 0]]. *)
Lemma fromBeatMods_version_default d type e m :
  parse_version d "version" = inl e ->
  fromBeatMods d type = inr m -> version m = [0; 0; 0].
Proof.
  intros Hv. unfold fromBeatMods. rewrite Hv. cbn [try_except]. intros H.
  repeat (apply res_bind_inr in H as (? & _ & H)).
  by injection H as <-.
Qed.

(** An unparsable target-application version is fatal: no record is
    constructed. *)
Lemma fromBeatMods_gameVersion_raises d type e :
  parse_version d "gameVersion" = inl e ->
  exists e', fromBeatMods d type = inl e'.
Proof.
  intros Hg. unfold fromBeatMods. rewrite Hg.
  destruct (res_bind (Dyn.getitem d "_id") Dyn.as_str) as [e1|i]; [by exists e1|].
  destruct (res_bind (Dyn.getitem d "name") Dyn.as_str) as [e2|n]; [by exists e2|].
  by exists e.
Qed.

(** C8 on the code: with version ["2.0.0b"] the entry is parsed and the
    record has version [[0, 0, 0]]; with target-application version
    ["1.0.0b"] the same entry is not parsed at all, [fromBeatMods] raises
    [ValueError]. *)
Theorem fromBeatMods_unparsable_versions :
  (exists m, fromBeatMods (listing_entry "2.0.0b" "1.0.0") "steam" = inr m /\
             version m = [0; 0; 0] /\ gameVersion m = [1; 0; 0] /\
             category m = CORE /\ truthy (is_remote m) = true) /\
  fromBeatMods (listing_entry "2.0.0" "1.0.0b") "steam" = inl ValueError.
Proof. split; [eexists; split; [vm_compute; reflexivity|repeat split]|reflexivity]. Qed.

(** ** Records made from an archive *)

(** C9 (as the code has it): without a usable [spec.json] the id is the
    MD5 digest of the member names concatenated in archive order, so two
    archives that list the same names in the same order get the same
    id. *)
Theorem fromArchive_id (loads : string -> option json) (f g : ZipFile) :
  archive_spec loads f = None ->
  archive_spec loads g = None ->
  namelist f = namelist g ->
  id (fromArchive loads f) =
    MD5.hexdigest (foldr String.append EmptyString (namelist f)) /\
  id (fromArchive loads f) = id (fromArchive loads g).
Proof.
  intros Hf Hg Hnames. unfold fromArchive. rewrite Hf, Hg. split; [reflexivity|].
  cbn. by rewrite Hnames.
Qed.

Lemma fromArchive_id_witness :
  id (fromArchive (fun _ => None) archive_ba) =
    MD5.hexdigest (foldr String.append EmptyString (namelist archive_ba)) /\
  id (fromArchive (fun _ => None) archive_ba) = id (fromArchive (fun _ => None) archive_ba').
Proof. apply (fromArchive_id (fun _ => None) archive_ba archive_ba'); reflexivity. Defined.

(** C9 (as claimed) fails: the member names are not sorted before they
    are hashed; the two archives hold the same set of names and get
    different ids, and the id of the first is not the hash of its sorted
    names. *)
Lemma fromArchive_id_depends_on_order :
  archive_spec (fun _ => None) archive_ba = None /\
  archive_spec (fun _ => None) archive_ab = None /\
  sorted_names (namelist archive_ba) = sorted_names (namelist archive_ab) /\
  id (fromArchive (fun _ => None) archive_ba) <> id (fromArchive (fun _ => None) archive_ab) /\
  id (fromArchive (fun _ => None) archive_ba) <> sorted_names_id archive_ba.
Proof.
  split; [reflexivity|]. split; [reflexivity|]. split; [reflexivity|].
  split; vm_compute; discriminate.
Qed.

(** ** The store *)

Lemma get_upd (s : Patcher.t) (r r' : ref) (f : ModSpec -> ModSpec) :
  get (upd r f s) r' = if decide (r = r') then f (get s r) else get s r'.
Proof. unfold get, upd. cbn. apply lookup_total_insert. Qed.

Lemma get_upd_eq s r f : get (upd r f s) r = f (get s r).
Proof. rewrite get_upd. by rewrite decide_True. Qed.

Lemma get_upd_ne s r r' f : r <> r' -> get (upd r f s) r' = get s r'.
Proof. intros. rewrite get_upd. by rewrite decide_False. Qed.

Lemma keeps_set_archive v : keeps (set_archive v).
Proof. by intros []. Qed.
Lemma keeps_set_source v : keeps (set_source v).
Proof. by intros []. Qed.
Lemma keeps_set_is_local v : keeps (set_is_local v).
Proof. by intros []. Qed.
Lemma keeps_set_is_remote v : keeps (set_is_remote v).
Proof. by intros []. Qed.
Lemma keeps_set_need_update v : keeps (set_need_update v).
Proof. by intros []. Qed.
Lemma keeps_set_need_install v : keeps (set_need_install v).
Proof. by intros []. Qed.
Lemma keeps_set_need_uninstall v : keeps (set_need_uninstall v).
Proof. by intros []. Qed.

Create HintDb keeps.
#[local] Hint Resolve keeps_set_archive keeps_set_source keeps_set_is_local
  keeps_set_is_remote keeps_set_need_update keeps_set_need_install
  keeps_set_need_uninstall : keeps.

Lemma stable_refl s : stable s s.
Proof. by split. Qed.

Lemma stable_trans s1 s2 s3 : stable s1 s2 -> stable s2 s3 -> stable s1 s3.
Proof.
  intros [] []. split; congruence.
Qed.

Lemma stable_upd s r f : keeps f -> stable s (upd r f s).
Proof.
  intros Hf. split; try reflexivity; intros r'; rewrite get_upd;
    destruct (decide (r = r')) as [->|]; try reflexivity; apply Hf.
Qed.

Lemma stable_emit s e : stable s (emit e s).
Proof. by split. Qed.

Lemma stable_with_fs s f : stable s (Patcher.with_fs f s).
Proof. by split. Qed.

(** ** Runs of the patcher *)

Lemma run_refl s : run s s [].
Proof. split; [apply stable_refl|by rewrite app_nil_r]. Qed.

Lemma run_trans s1 s2 s3 e1 e2 : run s1 s2 e1 -> run s2 s3 e2 -> run s1 s3 (e1 ++ e2).
Proof.
  intros [H1 T1] [H2 T2]. split; [by eapply stable_trans|].
  by rewrite T2, T1, app_assoc.
Qed.

Lemma run_emit s e : run s (emit e s) [e].
Proof. split; [apply stable_emit|reflexivity]. Qed.

Lemma run_upd s r f : keeps f -> run s (upd r f s) [].
Proof. intros. split; [by apply stable_upd|by rewrite app_nil_r]. Qed.

Lemma run_upd_after s s' evs r f : keeps f -> run s s' evs -> run s (upd r f s') evs.
Proof.
  intros Hf Hrun. rewrite <- (app_nil_r evs).
  eapply run_trans; [exact Hrun|by apply run_upd].
Qed.

Lemma run_with_fs s f : run s (Patcher.with_fs f s) [].
Proof. split; [apply stable_with_fs|by rewrite app_nil_r]. Qed.

Lemma run_step s1 s2 s3 e1 e2 evs :
  run s1 s2 e1 -> run s2 s3 e2 -> evs = e1 ++ e2 -> run s1 s3 evs.
Proof. intros ? ? ->. by eapply run_trans. Qed.

Section Runs.

Variable env : Env.

Lemma os_remove_run p s s' : os_remove env p s = Some s' -> run s s' [].
Proof.
  unfold os_remove. destruct (Patcher.fs s !! p); [|discriminate].
  destruct (writable env p); [|discriminate]. intros [= <-]. apply run_with_fs.
Qed.

Lemma write_file_run p c s s' : write_file env p c s = Some s' -> run s s' [].
Proof.
  unfold write_file. destruct (writable env p); [|discriminate].
  intros [= <-]. apply run_with_fs.
Qed.

Lemma remove_files_run r fl s :
  exists evs, run s (remove_files env r fl s) evs /\
              Forall (fun e => installs e = None) evs.
Proof.
  revert s. induction fl as [|f fl IH]; intros s; cbn [remove_files].
  { exists []. split; [apply run_refl|constructor]. }
  destruct (os_remove env _ s) as [s'|] eqn:E; [|apply IH].
  destruct (IH (emit (Unlinked r (path_join (Patcher.path s) (file f))) s'))
    as (evs & Hrun & Hq).
  exists ([Unlinked r (path_join (Patcher.path s) (file f))] ++ evs). split.
  - eapply run_step; [|exact Hrun|reflexivity].
    eapply run_step; [by eapply os_remove_run|apply run_emit|reflexivity].
  - by constructor.
Qed.

Lemma uninstallMod_run s r :
  exists evs, run s (_uninstallMod env s r).2 evs /\
              Forall (fun e => installs e = None) evs.
Proof.
  unfold _uninstallMod. destruct (negb _).
  { exists []. split; [apply run_refl|constructor]. }
  destruct (remove_files_run r (files (get s r)) s) as (evs & Hrun & Hq).
  set (s1 := remove_files env r (files (get s r)) s) in *.
  destruct (os_remove env _ s1) as [s'|] eqn:E; cbn [snd].
  - eexists (evs ++ [_]). split.
    + eapply run_trans; [exact Hrun|].
      eapply run_step; [by eapply os_remove_run|apply run_emit|reflexivity].
    + apply Forall_app. split; [done|by repeat constructor].
  - by exists evs.
Qed.

Lemma uninstall_all_run l s :
  exists evs, run s (uninstall_all env l s) evs /\
              Forall (fun e => installs e = None) evs.
Proof.
  revert s. induction l as [|r l IH]; intros s; cbn [uninstall_all].
  { exists []. split; [apply run_refl|constructor]. }
  destruct (uninstallMod_run s r) as (e1 & Hrun1 & Hq1).
  destruct (_uninstallMod env s r) as [[x|?] s1]; cbn [snd] in Hrun1.
  - destruct (IH (emit (Failed Uninstalling r x) s1)) as (e2 & Hrun2 & Hq2).
    exists (e1 ++ [Failed Uninstalling r x] ++ e2). split.
    + eapply run_trans; [exact Hrun1|]. eapply run_trans; [apply run_emit|exact Hrun2].
    + apply Forall_app. split; [done|]. by constructor.
  - destruct (IH s1) as (e2 & Hrun2 & Hq2). exists (e1 ++ e2). split.
    + by eapply run_trans.
    + by apply Forall_app.
Qed.

Lemma downloadMod_run s r :
  exists evs, run s (_downloadMod env s r).2 evs /\
              Forall (fun e => installs e = None) evs.
Proof.
  unfold _downloadMod. destruct (net env _) as [e|e|body].
  { exists []. split; [apply run_refl|constructor]. }
  { destruct (write_file env _ _ s) as [s1|] eqn:E.
    - exists []. split; [by eapply write_file_run|constructor].
    - exists []. split; [apply run_refl|constructor]. }
  destruct (write_file env _ _ s) as [s1|] eqn:E.
  2:{ exists []. split; [apply run_refl|constructor]. }
  set (p := path_join (Patcher.download_cache s) (_getArchiveName (get s r))) in *.
  exists [Fetched r p].
  assert (run s (upd r (set_archive (Some p)) (emit (Fetched r p) s1)) [Fetched r p])
    as Hrun.
  { eapply run_step; [by eapply write_file_run|
      eapply run_trans; [apply run_emit|apply run_upd; auto with keeps]|reflexivity]. }
  split; [|by repeat constructor].
  destruct (_verifyArchive env _ r _); exact Hrun.
Qed.

Lemma occurrences_cons r x l :
  occurrences r (x :: l) = ((if decide (x = r) then 1 else 0) + occurrences r l)%nat.
Proof.
  unfold occurrences. rewrite filter_cons. by destruct (decide (x = r)).
Qed.

Lemma list_remove_occurrences (x : ref) l l' :
  Py.list_remove x l = Some l' ->
  forall y, occurrences y l = ((if decide (x = y) then 1 else 0) + occurrences y l')%nat.
Proof.
  revert l'. induction l as [|z l IH]; intros l'; cbn [Py.list_remove]; [discriminate|].
  destruct (decide (x = z)) as [->|Hne].
  - intros [= <-] y. apply occurrences_cons.
  - destruct (Py.list_remove x l) as [l0|]; [|discriminate].
    intros [= <-] y. rewrite !occurrences_cons, (IH l0 eq_refl y). lia.
Qed.

Lemma list_remove_is_Some (x : ref) l :
  (0 < occurrences x l)%nat -> is_Some (Py.list_remove x l).
Proof.
  induction l as [|z l IH]; cbn [Py.list_remove].
  - unfold occurrences. cbn. lia.
  - rewrite occurrences_cons. destruct (decide (x = z)) as [->|Hne]; [by eexists|].
    rewrite decide_False by congruence. intros H.
    destruct (IH H) as [l' ->]. by eexists.
Qed.

Lemma list_remove_elem_of (x : ref) l l' y :
  Py.list_remove x l = Some l' -> y ∈ l' -> y ∈ l.
Proof.
  revert l'. induction l as [|z l IH]; intros l'; cbn [Py.list_remove]; [discriminate|].
  destruct (decide (x = z)) as [->|Hne].
  - intros [= <-] ?. by right.
  - destruct (Py.list_remove x l) as [l0|]; [|discriminate].
    intros [= <-]. rewrite !elem_of_cons. intros [->|?]; [by left|right; by eapply IH].
Qed.

(** Phase 3 never fails as a whole: a record is only ever removed from
    the install set while it is still in it. *)
Lemma download_all_run (todo install : list ref) (s : Patcher.t) :
  (forall r, occurrences r todo <= occurrences r install)%nat ->
  exists (l : list ref) (s' : Patcher.t) (evs : list event),
    download_all env todo install s = (inr l, s') /\
    run s s' evs /\
    Forall (fun e => installs e = None) evs /\
    (forall r, r ∈ l -> r ∈ install).
Proof.
  revert install s. induction todo as [|r todo IH]; intros install s Hocc;
    cbn [download_all].
  { exists install, s, []. split; [done|]. split; [apply run_refl|].
    split; [constructor|done]. }
  assert (forall y, occurrences y todo <= occurrences y install)%nat as Hocc'.
  { intros y. specialize (Hocc y). rewrite occurrences_cons in Hocc. lia. }
  destruct (_archive (get s r)); [by apply IH|].
  destruct (downloadMod_run s r) as (e1 & Hrun1 & Hq1).
  destruct (_downloadMod env s r) as [[x|?] s1]; cbn [snd] in Hrun1.
  - destruct (list_remove_is_Some r install) as [install' Hrm].
    { specialize (Hocc r). rewrite occurrences_cons, decide_True in Hocc by done. lia. }
    rewrite Hrm.
    destruct (IH install' (emit (Failed Downloading r x) s1))
      as (l & s' & e2 & -> & Hrun2 & Hq2 & Hsub).
    { intros y. specialize (Hocc y). rewrite occurrences_cons in Hocc.
      rewrite (list_remove_occurrences _ _ _ Hrm y) in Hocc.
      destruct (decide (r = y)); lia. }
    exists l, s', (e1 ++ [Failed Downloading r x] ++ e2).
    split; [done|]. split; [|split].
    + eapply run_trans; [exact Hrun1|]. eapply run_trans; [apply run_emit|exact Hrun2].
    + apply Forall_app. split; [done|]. by constructor.
    + intros y Hy. eapply list_remove_elem_of; [exact Hrm|]. by apply Hsub.
  - destruct (IH install s1 Hocc') as (l & s' & e2 & -> & Hrun2 & Hq2 & Hsub).
    exists l, s', (e1 ++ e2). split; [done|]. split; [|split]; [|by apply Forall_app|done].
    by eapply run_trans.
Qed.

Lemma extract_members_run r ms s :
  exists evs, run s (extract_members env r ms s).2 evs /\
              Forall (fun e => installs e = Some r) evs.
Proof.
  revert s. induction ms as [|m ms IH]; intros s; cbn [extract_members].
  { exists []. split; [apply run_refl|constructor]. }
  destruct (is_dir m); [apply IH|].
  destruct (write_file env _ _ s) as [s1|] eqn:E.
  2:{ exists []. split; [apply run_refl|constructor]. }
  set (p2 := path_join (Patcher.path s) (filename m)) in *.
  destruct (IH (emit (Extracted r p2) s1)) as (evs & Hrun & Hq).
  exists ([Extracted r p2] ++ evs). split; [|by constructor].
  eapply run_step; [|exact Hrun|reflexivity].
  eapply run_step; [by eapply write_file_run|apply run_emit|reflexivity].
Qed.

Lemma writeSpec_run s r :
  exists evs, run s (_writeSpec env s r).2 evs /\
              Forall (fun e => installs e = Some r) evs /\
              ((_writeSpec env s r).1 = inr tt -> exists e, e ∈ evs /\ concludes r e).
Proof.
  unfold _writeSpec. destruct (write_file env _ _ s) as [s1|] eqn:E; cbn [fst snd].
  - eexists [Persisted r _]. split; [|split].
    + eapply run_step; [by eapply write_file_run|apply run_emit|reflexivity].
    + by repeat constructor.
    + intros _. eexists. split; [by left|]. left. by eexists.
  - exists []. split; [apply run_refl|]. split; [constructor|discriminate].
Qed.

Lemma installMod_run s r :
  exists evs, run s (_installMod env s r).2 evs /\
              Forall (fun e => installs e = Some r) evs /\
              ((_installMod env s r).1 = inr tt -> exists e, e ∈ evs /\ concludes r e).
Proof.
  unfold _installMod.
  destruct (Patcher.fs s !! _).
  2:{ exists []. split; [apply run_refl|]. split; [constructor|discriminate]. }
  destruct (open_zip env s _) as [archive|].
  2:{ exists []. split; [apply run_refl|]. split; [constructor|discriminate]. }
  destruct (extract_members_run r (infolist archive) s) as (e1 & Hrun1 & Hq1).
  destruct (extract_members env r (infolist archive) s) as [[x|?] s1]; cbn [snd] in Hrun1.
  { exists e1. split; [done|]. split; [done|discriminate]. }
  set (s2 := upd r (set_need_install (FBool false))
               (upd r (set_is_local (FBool true)) (upd r (set_is_remote (FBool false)) s1))).
  assert (run s s2 e1) as Hrun2.
  { unfold s2. repeat (apply run_upd_after; [auto with keeps|]). exact Hrun1. }
  destruct (writeSpec_run s2 r) as (e2 & Hrun3 & Hq2 & Hc).
  exists (e1 ++ e2). split; [by eapply run_trans|]. split; [by apply Forall_app|].
  intros Hok. destruct (Hc Hok) as (e & He & Hce). exists e. split; [|done].
  apply elem_of_app. by right.
Qed.

(** Phase 4, one loop: the events are those of the records of [l], and
    every record of [l] is brought to a conclusion. *)
Lemma install_all_run l s :
  exists evs, run s (install_all env l s) evs /\
              Forall (fun e => exists r, r ∈ l /\ installs e = Some r) evs /\
              (forall r, r ∈ l -> exists e, e ∈ evs /\ concludes r e).
Proof.
  revert s. induction l as [|r l IH]; intros s; cbn [install_all].
  { exists []. split; [apply run_refl|]. split; [constructor|]. intros r Hr. inversion Hr. }
  destruct (installMod_run s r) as (e1 & Hrun1 & Hq1 & Hc1).
  destruct (_installMod env s r) as [[x|[]] s1]; cbn [fst snd] in Hrun1, Hc1.
  - destruct (IH (emit (Failed Installing r x) s1)) as (e2 & Hrun2 & Hq2 & Hc2).
    exists (e1 ++ [Failed Installing r x] ++ e2). split; [|split].
    + eapply run_trans; [exact Hrun1|]. eapply run_trans; [apply run_emit|exact Hrun2].
    + apply Forall_app. split; [|constructor].
      * eapply Forall_impl; [exact Hq1|]. intros e He. exists r. split; [by left|done].
      * exists r. split; [by left|done].
      * eapply Forall_impl; [exact Hq2|]. intros e (r' & ? & ?). exists r'. split; [by right|done].
    + intros r' [->|Hr']%elem_of_cons.
      * exists (Failed Installing r x). split; [|right; by eexists].
        apply elem_of_app. right. by left.
      * destruct (Hc2 r' Hr') as (e & He & Hce). exists e. split; [|done].
        apply elem_of_app. right. by right.
  - destruct (IH s1) as (e2 & Hrun2 & Hq2 & Hc2).
    exists (e1 ++ e2). split; [|split].
    + by eapply run_trans.
    + apply Forall_app. split.
      * eapply Forall_impl; [exact Hq1|]. intros e He. exists r. split; [by left|done].
      * eapply Forall_impl; [exact Hq2|]. intros e (r' & ? & ?). exists r'. split; [by right|done].
    + intros r' [->|Hr']%elem_of_cons.
      * destruct (Hc1 eq_refl) as (e & He & Hce). exists e. split; [|done].
        apply elem_of_app. by left.
      * destruct (Hc2 r' Hr') as (e & He & Hce). exists e. split; [|done].
        apply elem_of_app. by right.
Qed.

Lemma cleanup_run s : run s (cleanup env s) [].
Proof. apply run_with_fs. Qed.

(** *** One installation, spelled out *)

Lemma getSpecFileName_flags m v1 v2 v3 :
  _getSpecFileName (set_need_install v3 (set_is_local v2 (set_is_remote v1 m)))
  = _getSpecFileName m.
Proof. by destruct m. Qed.











End Runs.

(** ** The patch pipeline *)

Section Pipeline.

Variable env : Env.

Lemma patch_phases s :
  exists install s3 pre core_tr gen_tr,
    downloaded env s = (inr install, s3) /\
    run s s3 pre /\
    Forall (fun e => installs e = None) pre /\
    (patch env s).1 = inr tt /\
    run s (patch env s).2 (pre ++ core_tr ++ gen_tr) /\
    Forall (fun e => exists r, (r ∈ install /\ category (get s r) = CORE) /\
                               installs e = Some r) core_tr /\
    Forall (fun e => exists r, (r ∈ install /\ category (get s r) <> CORE) /\
                               installs e = Some r) gen_tr /\
    (forall r, r ∈ install -> exists e, e ∈ core_tr ++ gen_tr /\ concludes r e).
Proof.
  unfold patch, downloaded.
  destruct (uninstall_all_run env (Patcher.need_uninstall s ++ Patcher.need_update s) s)
    as (e1 & Hrun1 & Hq1).
  set (s1 := uninstall_all env _ s) in *.
  set (install0 := substitute_remotes s1 (Patcher.need_update s1) ++ Patcher.need_install s1).
  destruct (download_all_run env install0 install0 s1)
    as (install & s3 & e2 & -> & Hrun2 & Hq2 & _); [done|].
  assert (run s s3 (e1 ++ e2)) as Hrun3 by by eapply run_trans.
  assert (forall r, category (get s3 r) = category (get s r)) as Hcat
    by (intros r; apply Hrun3).
  set (core := filter (fun md => category (get s3 md) = CORE) install).
  set (generic := filter (fun md => category (get s3 md) <> CORE) install).
  destruct (install_all_run env core s3) as (e3 & Hrun4 & Hq3 & Hc3).
  set (s4 := install_all env core s3) in *.
  destruct (install_all_run env generic s4) as (e4 & Hrun5 & Hq4 & Hc4).
  set (s5 := install_all env generic s4) in *.
  exists install, s3, (e1 ++ e2), e3, e4. cbn [fst snd].
  split; [done|]. split; [done|]. split; [by apply Forall_app|]. split; [done|].
  split; [|split; [|split]].
  - eapply run_trans; [exact Hrun3|]. eapply run_trans; [exact Hrun4|].
    rewrite <- (app_nil_r e4). eapply run_trans; [exact Hrun5|apply cleanup_run].
  - eapply Forall_impl; [exact Hq3|]. intros e (r & Hr & He). exists r. split; [|done].
    apply list_elem_of_filter in Hr as [Hr ?]. by rewrite <- Hcat.
  - eapply Forall_impl; [exact Hq4|]. intros e (r & Hr & He). exists r. split; [|done].
    apply list_elem_of_filter in Hr as [Hr ?]. by rewrite <- Hcat.
  - intros r Hr. destruct (decide (category (get s3 r) = CORE)) as [Hcore|Hgen].
    + destruct (Hc3 r) as (e & He & Hce); [by apply list_elem_of_filter|].
      exists e. split; [|done]. apply elem_of_app. by left.
    + destruct (Hc4 r) as (e & He & Hce); [by apply list_elem_of_filter|].
      exists e. split; [|done]. apply elem_of_app. by right.
Qed.


Lemma load_manifests_queues entries s : same_queues s (load_manifests env entries s).2.
Proof.
  revert s. induction entries as [|[p c] entries IH]; intros s; cbn [load_manifests].
  { by repeat split. }
  destruct (Py.endswith p ".json"); [|apply IH].
  destruct (res_bind (json_load env c) fromSpecFile) as [e|spec]; [by repeat split|].
  destruct (truthy (ignore spec)); [apply IH|].
  cbn. destruct (IH (Patcher.with_local (Patcher.local s ++ [Patcher.next_ref s])
    (Patcher.with_next_ref (S (Patcher.next_ref s))
       (Patcher.with_heap (<[Patcher.next_ref s:=spec]> (Patcher.heap s)) s))))
    as (H1 & H2 & H3).
  by repeat split.
Qed.

Lemma getLocal_queues s : same_queues s (getLocal env s).2.
Proof.
  unfold getLocal.
  pose proof (load_manifests_queues
    (filter (fun kv => is_child (Patcher.manifest_cache (Patcher.with_local [] s)) kv.1 = true)
       (map_to_list (Patcher.fs (Patcher.with_local [] s)))) (Patcher.with_local [] s)) as H.
  destruct (load_manifests env _ _) as [[e|?] s']; exact H.
Qed.

Lemma load_listing_queues mods s : same_queues s (load_listing mods s).2.
Proof.
  revert s. induction mods as [|md mods IH]; intros s; cbn [load_listing].
  { by repeat split. }
  destruct (fromBeatMods md (Patcher.app_type s)) as [e|spec]; [by repeat split|].
  cbn. destruct (IH (Patcher.with_remote (Patcher.remote s ++ [Patcher.next_ref s])
    (Patcher.with_next_ref (S (Patcher.next_ref s))
       (Patcher.with_heap (<[Patcher.next_ref s:=spec]> (Patcher.heap s)) s))))
    as (H1 & H2 & H3).
  by repeat split.
Qed.

Lemma getRemote_queues s : same_queues s (getRemote env s).2.
Proof.
  unfold getRemote. destruct (listing env) as [mods|]; [|by repeat split].
  apply (load_listing_queues mods (Patcher.with_remote [] s)).
Qed.

Lemma check_updates_queues spec remotes s :
  Patcher.need_install (check_updates spec remotes s) = Patcher.need_install s /\
  Patcher.need_uninstall (check_updates spec remotes s) = Patcher.need_uninstall s.
Proof.
  revert s. induction remotes as [|rspec remotes IH]; intros s; cbn [check_updates]; [done|].
  destruct (decide _); [|apply IH].
  destruct (Py.list_lt _ _); [|apply (IH (upd rspec _ s))].
  match goal with |- context [check_updates spec remotes ?t] => destruct (IH t) as [-> ->] end.
  done.
Qed.

(** [refreshMods] starts by clearing the three queues; only the update
    check puts records back, and only into the update queue. *)
Lemma refreshMods_queues s doUpdate :
  Patcher.need_install (refreshMods env s doUpdate).2 = [] /\
  Patcher.need_uninstall (refreshMods env s doUpdate).2 = [] /\
  (doUpdate = false -> Patcher.need_update (refreshMods env s doUpdate).2 = []).
Proof.
  unfold refreshMods.
  set (s0 := Patcher.with_need_update [] _).
  assert (Patcher.need_install s0 = []) as Z1 by reflexivity.
  assert (Patcher.need_uninstall s0 = []) as Z2 by reflexivity.
  assert (Patcher.need_update s0 = []) as Z3 by reflexivity.
  pose proof (getLocal_queues s0) as (L1 & L2 & L3).
  destruct (getLocal env s0) as [[e|?] s1]; cbn [snd] in *.
  { split; [congruence|]. split; intros; congruence. }
  pose proof (getRemote_queues s1) as (R1 & R2 & R3).
  destruct (getRemote env s1) as [[e|?] s2]; cbn [snd] in *.
  { split; [congruence|]. split; intros; congruence. }
  destruct doUpdate; cbn [negb snd].
  2:{ split; [congruence|]. split; intros; congruence. }
  assert (forall l st, Patcher.need_install st = [] -> Patcher.need_uninstall st = [] ->
            Patcher.need_install
              (foldl (fun st spec => check_updates spec (Patcher.remote st) st) st l) = [] /\
            Patcher.need_uninstall
              (foldl (fun st spec => check_updates spec (Patcher.remote st) st) st l) = [])
    as Hfold.
  { induction l as [|x l IH]; intros st H1 H2; cbn [foldl]; [done|].
    destruct (check_updates_queues x (Patcher.remote st) st) as [E1 E2].
    apply IH; congruence. }
  destruct (Hfold (Patcher.local s2) s2) as [-> ->]; [congruence|congruence|].
  split; [done|]. split; [done|discriminate].
Qed.

(** C10: [patch] returns, and the three queues are then exactly what
    they were before the call; it is [refreshMods] that empties them
    (the update check, when asked for, then refills the update queue). *)
Theorem patch_keeps_queues (s : Patcher.t) (doUpdate : bool) :
  (patch env s).1 = inr tt /\
  Patcher.need_install (patch env s).2 = Patcher.need_install s /\
  Patcher.need_uninstall (patch env s).2 = Patcher.need_uninstall s /\
  Patcher.need_update (patch env s).2 = Patcher.need_update s /\
  Patcher.need_install (refreshMods env (patch env s).2 doUpdate).2 = [] /\
  Patcher.need_uninstall (refreshMods env (patch env s).2 doUpdate).2 = [] /\
  Patcher.need_update (refreshMods env (patch env s).2 false).2 = [].
Proof.
  destruct (patch_phases s) as (? & ? & ? & ? & ? & _ & _ & _ & Hok & [Hst _] & _).
  split; [done|]. split; [apply Hst|]. split; [apply Hst|]. split; [apply Hst|].
  destruct (refreshMods_queues (patch env s).2 doUpdate) as (H1 & H2 & _).
  destruct (refreshMods_queues (patch env s).2 false) as (_ & _ & H3).
  split; [done|]. split; [done|]. by apply H3.
Qed.

End Pipeline.


(** ** Failed downloads *)

(** A download that does not open as an archive is not reported by
    [_downloadMod]: [_verifyArchive] answers [False] and the answer is
    dropped. *)
Lemma downloadMod_corrupt_archive (env : Env) (s : Patcher.t) (r : ref) (body : string) :
  net env ("https://beatmods.com" +:+ url (get s r)) = Body body ->
  writable env (path_join (Patcher.download_cache s) (_getArchiveName (get s r))) = true ->
  unzip env body = None ->
  (_downloadMod env s r).1 = inr true.
Proof.
  intros Hnet Hw Hzip. unfold _downloadMod, write_file. rewrite Hnet, Hw.
  unfold _verifyArchive, open_zip. cbn [Patcher.fs upd emit Patcher.with_heap
    Patcher.with_trace Patcher.with_fs].
  rewrite lookup_insert_eq, Hzip. reflexivity.
Qed.

(** C3 on the code: a failed request and a hash mismatch take the record
    out of the install set; a download that is not an archive leaves it
    in, and phase 4 tries to install it. *)
Theorem patch_corrupt_download :
  (install_set (world None) queued = [] /\
   Patcher.trace (patch (world None) queued).2 = [Failed Downloading 0%nat OSError]) /\
  (install_set (world (Some "tampered")) queued = [] /\
   Patcher.trace (patch (world (Some "tampered")) queued).2 =
     [ Fetched 0%nat "/bs/.bsmm/cache/SongCore_2.0.0.zip";
       Failed Downloading 0%nat
         (RuntimeError "MD5 mismatch for file 'Plugins/SongCore.dll'.") ]) /\
  (install_set (world (Some "<html>502 Bad Gateway</html>")) queued = [0%nat] /\
   Patcher.trace (patch (world (Some "<html>502 Bad Gateway</html>")) queued).2 =
     [ Fetched 0%nat "/bs/.bsmm/cache/SongCore_2.0.0.zip";
       Failed Installing 0%nat
         (RuntimeError
            "Unable to open file '/bs/.bsmm/cache/SongCore_2.0.0.zip', probably bad download.") ]) /\
  (install_set (world (Some "good")) queued = [0%nat] /\
   Patcher.trace (patch (world (Some "good")) queued).2 =
     [ Fetched 0%nat "/bs/.bsmm/cache/SongCore_2.0.0.zip";
       Extracted 0%nat "/bs/Plugins/SongCore.dll";
       Persisted 0%nat "/bs/.bsmm/meta/SongCore_2.0.0.json" ]).
Proof. repeat split; vm_compute; reflexivity. Qed.

(** ** Queueing an installation *)

Lemma find_name_None s l n : find_name s l n = None <-> n ∉ names s l.
Proof.
  induction l as [|r l IH]; cbn [find_name names fmap list_fmap].
  - split; [intros _ H; inversion H|done].
  - fold (names s l). rewrite not_elem_of_cons. destruct (decide (name (get s r) = n)).
    + split; [discriminate|]. intros [? _]. congruence.
    + rewrite IH. split; [intros; split; [congruence|done]|by intros [_ ?]].
Qed.

Lemma find_name_Some s l n r : find_name s l n = Some r -> r ∈ l /\ name (get s r) = n.
Proof.
  induction l as [|x l IH]; cbn [find_name]; [discriminate|].
  destruct (decide (name (get s x) = n)).
  - intros [= <-]. split; [by left|done].
  - intros H. destruct (IH H). split; [by right|done].
Qed.

Lemma find_name_is_Some s l n r : r ∈ l -> name (get s r) = n -> is_Some (find_name s l n).
Proof.
  intros Hr Hn. destruct (find_name s l n) eqn:E; [by eexists|].
  apply find_name_None in E. exfalso. apply E. unfold names.
  apply list_elem_of_fmap. by exists r.
Qed.

Lemma find_name_app s l1 l2 n :
  find_name s (l1 ++ l2) n =
    match find_name s l1 n with
    | Some r => Some r
    | None => find_name s l2 n
    end.
Proof.
  induction l1 as [|x l1 IH]; cbn [app find_name]; [done|].
  by destruct (decide (name (get s x) = n)).
Qed.

Lemma find_name_ext s s' l n :
  (forall r, name (get s' r) = name (get s r)) -> find_name s' l n = find_name s l n.
Proof.
  intros Hn. induction l as [|x l IH]; cbn [find_name]; [done|].
  rewrite Hn, IH. done.
Qed.

Lemma names_ext s s' l :
  (forall r, name (get s' r) = name (get s r)) -> names s' l = names s l.
Proof. intros Hn. unfold names. apply list_fmap_ext. intros _ r _. apply Hn. Qed.

Lemma length_filter_impl {A} (P Q : A -> Prop)
    `{!forall x, Decision (P x)} `{!forall x, Decision (Q x)} (l : list A) :
  (forall x, x ∈ l -> P x -> Q x) ->
  (length (filter P l) <= length (filter Q l))%nat.
Proof.
  induction l as [|x l IH]; intros Himp; [done|].
  rewrite !filter_cons.
  assert (length (filter P l) <= length (filter Q l))%nat as IH'.
  { apply IH. intros y Hy. apply Himp. by right. }
  destruct (decide (P x)) as [HP|HP], (decide (Q x)) as [HQ|HQ]; cbn [length]; try lia.
  exfalso. apply HQ, Himp; [by left|done].
Qed.

Lemma length_filter_strict {A} (P Q : A -> Prop)
    `{!forall x, Decision (P x)} `{!forall x, Decision (Q x)} (l : list A) (x : A) :
  x ∈ l -> Q x -> ~ P x ->
  (forall y, y ∈ l -> P y -> Q y) ->
  (length (filter P l) < length (filter Q l))%nat.
Proof.
  induction l as [|y l IH]; intros Hx HQ HP Himp; [inversion Hx|].
  rewrite !filter_cons.
  assert (length (filter P l) <= length (filter Q l))%nat as Hle.
  { apply length_filter_impl. intros z Hz. apply Himp. by right. }
  apply elem_of_cons in Hx as [<-|Hx].
  - rewrite decide_False, decide_True by done. cbn [length]. lia.
  - assert (length (filter P l) < length (filter Q l))%nat as IH'.
    { apply IH; try done. intros z Hz. apply Himp. by right. }
    destruct (decide (P y)) as [HPy|HPy], (decide (Q y)) as [HQy|HQy]; cbn [length]; try lia.
    exfalso. apply HQy, Himp; [by left|done].
Qed.

Lemma grows_refl s : grows s s [].
Proof.
  split; try done; try (by rewrite app_nil_r).
  - intros r Hr. inversion Hr.
  - constructor.
  - intros r Hr. inversion Hr.
Qed.

Lemma grows_trans s1 s2 s3 l1 l2 :
  grows s1 s2 l1 -> grows s2 s3 l2 -> grows s1 s3 (l1 ++ l2).
Proof.
  intros G1 G2. split.
  - by rewrite (grows_remote _ _ _ G2), (grows_remote _ _ _ G1).
  - by rewrite (grows_local _ _ _ G2), (grows_local _ _ _ G1), app_assoc.
  - by rewrite (grows_need_install _ _ _ G2), (grows_need_install _ _ _ G1), app_assoc.
  - by rewrite (grows_need_uninstall _ _ _ G2), (grows_need_uninstall _ _ _ G1).
  - by rewrite (grows_need_update _ _ _ G2), (grows_need_update _ _ _ G1).
  - intros r. by rewrite (grows_name _ _ _ G2), (grows_name _ _ _ G1).
  - intros r. by rewrite (grows_dependencies _ _ _ G2), (grows_dependencies _ _ _ G1).
  - intros r. by rewrite (grows_flag _ _ _ G2), (grows_flag _ _ _ G1).
  - intros r [Hr|Hr]%elem_of_app.
    + apply (grows_keeps_queued _ _ _ G2), (grows_queued _ _ _ G1), Hr.
    + apply (grows_queued _ _ _ G2), Hr.
  - intros r Hr. apply (grows_keeps_queued _ _ _ G2), (grows_keeps_queued _ _ _ G1), Hr.
  - unfold names. rewrite fmap_app. apply NoDup_app. split; [apply (grows_fresh _ _ _ G1)|].
    split.
    + intros n Hn1 Hn2. apply list_elem_of_fmap in Hn2 as (r2 & -> & Hr2).
      pose proof (grows_new _ _ _ G2 r2 Hr2) as Hnew.
      rewrite (grows_name _ _ _ G1) in Hnew.
      apply find_name_None in Hnew. apply Hnew.
      rewrite (grows_local _ _ _ G1). unfold names. rewrite fmap_app.
      apply elem_of_app. right. fold (names s2 l1).
      rewrite (names_ext s1 s2) by apply (grows_name _ _ _ G1). exact Hn1.
    + fold (names s1 l2). rewrite <- (names_ext s1 s2 l2) by apply (grows_name _ _ _ G1).
      apply (grows_fresh _ _ _ G2).
  - intros r [Hr|Hr]%elem_of_app; [by apply (grows_new _ _ _ G1)|].
    pose proof (grows_new _ _ _ G2 r Hr) as Hnew.
    rewrite (grows_local _ _ _ G1), find_name_app in Hnew.
    rewrite (grows_name _ _ _ G1) in Hnew.
    rewrite (find_name_ext s1 s2) in Hnew by apply (grows_name _ _ _ G1).
    by destruct (find_name s1 (Patcher.local s1) (name (get s1 r))).
Qed.

Lemma get_with_local l s r : get (Patcher.with_local l s) r = get s r.
Proof. reflexivity. Qed.

Lemma get_with_need_install l s r : get (Patcher.with_need_install l s) r = get s r.
Proof. reflexivity. Qed.

Lemma get_queue_record s spec src r :
  get (queue_record s spec src) r =
    if decide (spec = r) then
      set_need_install (FBool true)
        (match src with
         | Some x => set_source (Some x) (get s spec)
         | None => get s spec
         end)
    else get s r.
Proof.
  unfold queue_record. cbv zeta.
  rewrite get_with_need_install, get_with_local.
  destruct src as [x|]; rewrite !get_upd; destruct (decide (spec = r)); try done.
  by rewrite decide_True.
Qed.

Lemma grows_queue_record s spec src :
  find_name s (Patcher.local s) (name (get s spec)) = None ->
  grows s (queue_record s spec src) [spec].
Proof.
  intros Hnew. split.
  - by destruct src.
  - by destruct src.
  - by destruct src.
  - by destruct src.
  - by destruct src.
  - intros r. rewrite get_queue_record. destruct (decide (spec = r)) as [<-|]; [|done].
    by destruct src, (get s spec).
  - intros r. rewrite get_queue_record. destruct (decide (spec = r)) as [<-|]; [|done].
    by destruct src, (get s spec).
  - intros r. rewrite get_queue_record. destruct (decide (spec = r)) as [<-|]; [|done].
    by destruct src, (get s spec).
  - intros r ->%list_elem_of_singleton. rewrite get_queue_record, decide_True by done.
    by destruct src.
  - intros r Hr. rewrite get_queue_record. destruct (decide (spec = r)) as [<-|]; [|done].
    by destruct src.
  - repeat constructor. intros H. inversion H.
  - by intros r ->%list_elem_of_singleton.
Qed.

Lemma grows_missing s s' l : grows s s' l -> (missing s' <= missing s)%nat.
Proof.
  intros G. unfold missing. rewrite (grows_remote _ _ _ G).
  apply length_filter_impl. intros r _.
  rewrite (grows_name _ _ _ G), (find_name_ext s s') by apply (grows_name _ _ _ G).
  rewrite (grows_local _ _ _ G), find_name_app.
  by destruct (find_name s (Patcher.local s) (name (get s r))).
Qed.

Lemma grows_missing_strict s s' l r x :
  grows s s' l -> r ∈ l ->
  find_name s (Patcher.remote s) (name (get s r)) = Some x ->
  (missing s' < missing s)%nat.
Proof.
  intros G Hr Hx. apply find_name_Some in Hx as [Hx Hname].
  unfold missing. rewrite (grows_remote _ _ _ G).
  apply (length_filter_strict _ _ _ x); [done| | |].
  - rewrite Hname. by apply (grows_new _ _ _ G).
  - rewrite (grows_name _ _ _ G), (find_name_ext s s') by apply (grows_name _ _ _ G).
    rewrite (grows_local _ _ _ G), find_name_app, Hname.
    rewrite (grows_new _ _ _ G r Hr).
    destruct (find_name_is_Some s l (name (get s r)) r Hr eq_refl) as [? ->]. done.
  - intros y _.
    rewrite (grows_name _ _ _ G), (find_name_ext s s') by apply (grows_name _ _ _ G).
    rewrite (grows_local _ _ _ G), find_name_app.
    by destruct (find_name s (Patcher.local s) (name (get s y))).
Qed.

Lemma missing_pos s n x :
  find_name s (Patcher.local s) n = None ->
  find_name s (Patcher.remote s) n = Some x ->
  (0 < missing s)%nat.
Proof.
  intros Hl Hr. apply find_name_Some in Hr as [Hx <-].
  unfold missing.
  assert (x ∈ filter (fun r => find_name s (Patcher.local s) (name (get s r)) = None)
                     (Patcher.remote s)) as Hin by by apply list_elem_of_filter.
  destruct (filter _ _); [inversion Hin|cbn; lia].
Qed.

Lemma addMod_S fuel s spec src :
  addMod (S fuel) s spec src =
    match find_name s (Patcher.local s) (name (get s spec)) with
    | Some md => Some (RetNone, addMod_found s md)
    | None =>
        let spec' := default spec (find_name s (Patcher.remote s) (name (get s spec))) in
        let s1 := queue_record s spec' src in
        match deps_loop (addMod fuel) spec' (dependencies (get s1 spec')) s1 with
        | Some s' => Some (RetTrue, s')
        | None => None
        end
    end.
Proof. reflexivity. Qed.

(** The record chosen in step two carries the requested name. *)
Lemma chosen_name s spec :
  name (get s (default spec (find_name s (Patcher.remote s) (name (get s spec)))))
  = name (get s spec).
Proof.
  destruct (find_name s (Patcher.remote s) (name (get s spec))) as [x|] eqn:E; [|done].
  by apply find_name_Some in E as [_ ?].
Qed.

(** Step four returns as soon as the recursive calls it makes do. *)
Lemma deps_loop_returns fuel spec deps u :
  (forall u md src,
     (missing u <= fuel)%nat ->
     find_name u (Patcher.local u) (name (get u md)) = None ->
     is_Some (find_name u (Patcher.remote u) (name (get u md))) ->
     exists u' l, addMod fuel u md src = Some (RetTrue, u') /\ grows u u' l) ->
  (missing u <= fuel)%nat ->
  exists u' l, deps_loop (addMod fuel) spec deps u = Some u' /\ grows u u' l.
Proof.
  intros Hrec. revert u. induction deps as [|depend deps IH]; intros u Hu; cbn [deps_loop].
  { exists u, []. split; [done|apply grows_refl]. }
  destruct (find_name u (Patcher.local u) (dep_name depend)) as [?|] eqn:Hl; [by apply IH|].
  destruct (find_name u (Patcher.remote u) (dep_name depend)) as [md|] eqn:Hr; [|by apply IH].
  pose proof (find_name_Some _ _ _ _ Hr) as [_ Hname].
  destruct (Hrec u md (Some spec) Hu) as (u1 & l1 & -> & G1).
  { by rewrite Hname. }
  { rewrite Hname, Hr. by eexists. }
  destruct (IH u1) as (u2 & l2 & -> & G2).
  { pose proof (grows_missing _ _ _ G1). lia. }
  exists u2, (l1 ++ l2). split; [done|by eapply grows_trans].
Qed.

(** [addMod] returns whenever the depth allowed exceeds the number of
    remote records still missing from the local catalog (and already when
    it equals it, for a call on one of these).  A call that finds the
    name in the local catalog stops in step one; any other call queues
    the chosen record first and then what its dependencies pull in. *)
Lemma addMod_returns fuel s spec src :
  (missing s < fuel)%nat \/
  ((missing s <= fuel)%nat /\
   find_name s (Patcher.local s) (name (get s spec)) = None /\
   is_Some (find_name s (Patcher.remote s) (name (get s spec)))) ->
  match find_name s (Patcher.local s) (name (get s spec)) with
  | Some md => addMod fuel s spec src = Some (RetNone, addMod_found s md)
  | None =>
      exists s' l,
        addMod fuel s spec src = Some (RetTrue, s') /\
        grows s s' (default spec (find_name s (Patcher.remote s) (name (get s spec))) :: l)
  end.
Proof.
  revert s spec src. induction fuel as [|fuel IH]; intros s spec src Hfuel.
  { destruct Hfuel as [?|(Hm & Hl & [x Hx])]; [lia|].
    pose proof (missing_pos _ _ _ Hl Hx). lia. }
  rewrite addMod_S.
  destruct (find_name s (Patcher.local s) (name (get s spec))) as [md|] eqn:Hl; [done|].
  cbv zeta.
  set (spec' := default spec (find_name s (Patcher.remote s) (name (get s spec)))).
  assert (name (get s spec') = name (get s spec)) as Hname by apply chosen_name.
  assert (grows s (queue_record s spec' src) [spec']) as G1.
  { apply grows_queue_record. by rewrite Hname. }
  assert (missing (queue_record s spec' src) <= fuel)%nat as Hm1.
  { destruct Hfuel as [?|(Hm & _ & [x Hx])].
    - pose proof (grows_missing _ _ _ G1). lia.
    - assert (missing (queue_record s spec' src) < missing s)%nat; [|lia].
      eapply (grows_missing_strict _ _ _ spec' x); [exact G1|by left|].
      by rewrite Hname. }
  destruct (deps_loop_returns fuel spec'
              (dependencies (get (queue_record s spec' src) spec'))
              (queue_record s spec' src)) as (s' & l & -> & G2); [|done|].
  - intros u md src' Hu Hul Hur. specialize (IH u md src').
    rewrite Hul in IH. destruct IH as (u' & l' & ? & ?); [right; by repeat split|].
    by exists u', (default md (find_name u (Patcher.remote u) (name (get u md))) :: l').
  - exists s', l. split; [done|]. by apply (grows_trans _ _ _ [spec'] l G1 G2).
Qed.

Lemma missing_le_remote s : (missing s <= length (Patcher.remote s))%nat.
Proof. unfold missing. apply length_filter. Qed.

(** C1 (as the code has it): [addMod] always returns, within a recursion
    depth of one more than the number of remote records: the chosen
    record is appended to the local catalog before its dependencies are
    looked at, and a dependency whose name is in the local catalog is
    skipped, so a name being resolved is never resolved again. *)
Theorem addMod_terminates (s : Patcher.t) (spec : ref) (fromSpec : option ref) :
  exists rv s', addMod (S (length (Patcher.remote s))) s spec fromSpec = Some (rv, s').
Proof.
  pose proof (addMod_returns (S (length (Patcher.remote s))) s spec fromSpec) as H.
  destruct (find_name s (Patcher.local s) (name (get s spec))) as [md|].
  - eexists _, _. apply H. left. pose proof (missing_le_remote s). lia.
  - destruct H as (s' & l & ? & _); [left; pose proof (missing_le_remote s); lia|].
    by exists RetTrue, s'.
Qed.

(** C1 (as claimed) fails: on the cycle A -> B -> A of remote-only
    packages [addMod] returns at depth two with both queued, and there is
    no state and no pair of mutually dependent remote records on which it
    fails to return at every depth. *)
Lemma addMod_cycle_returns :
  (exists s', addMod 2 cycle 0%nat None = Some (RetTrue, s') /\
              Patcher.local s' = [0%nat; 1%nat] /\
              Patcher.need_install s' = [0%nat; 1%nat]) /\
  ~ (exists (s : Patcher.t) (a b : ref),
       a ∈ Patcher.remote s /\ b ∈ Patcher.remote s /\
       {| dep_name := name (get s b) |} ∈ dependencies (get s a) /\
       {| dep_name := name (get s a) |} ∈ dependencies (get s b) /\
       find_name s (Patcher.local s) (name (get s a)) = None /\
       find_name s (Patcher.local s) (name (get s b)) = None /\
       forall fuel, addMod fuel s a None = None).
Proof.
  split.
  - eexists. split; [vm_compute; reflexivity|]. split; reflexivity.
  - intros (s & a & b & _ & _ & _ & _ & Ha & _ & Hloop).
    pose proof (addMod_returns (S (length (Patcher.remote s))) s a None) as H.
    rewrite Ha in H. destruct H as (s' & l & H & _).
    { left. pose proof (missing_le_remote s). lia. }
    rewrite Hloop in H. discriminate.
Qed.

(** A deeper recursion allowance does not change what [addMod] returns. *)
Lemma deps_loop_mono rec1 rec2 spec deps u u' :
  (forall u md src r, rec1 u md src = Some r -> rec2 u md src = Some r) ->
  deps_loop rec1 spec deps u = Some u' -> deps_loop rec2 spec deps u = Some u'.
Proof.
  intros Hrec. revert u. induction deps as [|depend deps IH]; intros u; cbn [deps_loop]; [done|].
  destruct (find_name u (Patcher.local u) (dep_name depend)); [apply IH|].
  destruct (find_name u (Patcher.remote u) (dep_name depend)) as [md|]; [|apply IH].
  destruct (rec1 u md (Some spec)) as [[rv u1]|] eqn:E; [|discriminate].
  rewrite (Hrec _ _ _ _ E). apply IH.
Qed.

Lemma addMod_mono fuel fuel' s spec src r :
  (fuel <= fuel')%nat -> addMod fuel s spec src = Some r -> addMod fuel' s spec src = Some r.
Proof.
  revert fuel' s spec src r. induction fuel as [|fuel IH]; intros fuel' s spec src r Hle;
    [discriminate|].
  destruct fuel' as [|fuel']; [lia|]. rewrite !addMod_S.
  destruct (find_name s (Patcher.local s) (name (get s spec))); [done|]. cbv zeta.
  destruct (deps_loop (addMod fuel) _ _ _) as [u'|] eqn:E; [|discriminate].
  rewrite (deps_loop_mono (addMod fuel) (addMod fuel') _ _ _ _
             (fun u md src r => IH fuel' u md src r ltac:(lia)) E).
  done.
Qed.

(** What a call that returned has done. *)
Lemma addMod_inv fuel s spec src rv s1 :
  addMod fuel s spec src = Some (rv, s1) ->
  match find_name s (Patcher.local s) (name (get s spec)) with
  | Some md => rv = RetNone /\ s1 = addMod_found s md
  | None =>
      rv = RetTrue /\
      exists l, grows s s1
                  (default spec (find_name s (Patcher.remote s) (name (get s spec))) :: l)
  end.
Proof.
  intros H.
  apply (addMod_mono _ (fuel `max` S (length (Patcher.remote s)))) in H; [|lia].
  pose proof (addMod_returns (fuel `max` S (length (Patcher.remote s))) s spec src) as R.
  destruct (find_name s (Patcher.local s) (name (get s spec))) as [md|].
  - rewrite R in H by (left; pose proof (missing_le_remote s); lia). by injection H as <- <-.
  - destruct R as (s' & l & R & G); [left; pose proof (missing_le_remote s); lia|].
    rewrite R in H. injection H as <- <-. split; [done|by exists l].
Qed.

Lemma get_with_need_uninstall l s r : get (Patcher.with_need_uninstall l s) r = get s r.
Proof. reflexivity. Qed.

Lemma addMod_found_id s md :
  truthy (need_uninstall (get s md)) = false -> addMod_found s md = s.
Proof. unfold addMod_found. intros ->. by destruct (truthy _). Qed.

Lemma addMod_found_frame s md :
  Patcher.local (addMod_found s md) = Patcher.local s /\
  Patcher.need_install (addMod_found s md) = Patcher.need_install s /\
  Patcher.remote (addMod_found s md) = Patcher.remote s /\
  Patcher.need_update (addMod_found s md) = Patcher.need_update s /\
  (forall r, name (get (addMod_found s md) r) = name (get s r)) /\
  (forall r, need_install (get (addMod_found s md) r) = need_install (get s r)) /\
  truthy (need_uninstall (get (addMod_found s md) md)) = false.
Proof.
  unfold addMod_found. destruct (truthy (need_uninstall (get s md))) eqn:E.
  - destruct (Py.list_remove md (Patcher.need_uninstall s)) as [l|];
      (repeat split; [..|by rewrite get_upd_eq]);
      intros r; rewrite get_upd; destruct (decide (md = r)) as [<-|]; try done;
      rewrite ?get_with_need_uninstall; by destruct (get s md).
  - by destruct (truthy (need_install (get s md))).
Qed.

Lemma count_name_ext s s' l n :
  (forall r, name (get s' r) = name (get s r)) -> count_name s' l n = count_name s l n.
Proof.
  intros Hn. unfold count_name. induction l as [|x l IH]; [done|].
  rewrite !filter_cons, Hn. destruct (decide (name (get s x) = n)); cbn [length]; by rewrite IH.
Qed.

Lemma count_name_app s l1 l2 n :
  count_name s (l1 ++ l2) n = (count_name s l1 n + count_name s l2 n)%nat.
Proof. unfold count_name. by rewrite filter_app, length_app. Qed.

Lemma count_name_0 s l n : n ∉ names s l -> count_name s l n = 0%nat.
Proof.
  unfold count_name, names. induction l as [|x l IH]; [done|].
  cbn [fmap list_fmap]. rewrite not_elem_of_cons, filter_cons. intros [Hx Hl].
  rewrite decide_False by done. by apply IH.
Qed.

Lemma count_name_fresh s x l :
  NoDup (names s (x :: l)) -> count_name s (x :: l) (name (get s x)) = 1%nat.
Proof.
  intros Hnd. apply NoDup_cons in Hnd as [Hx _].
  unfold count_name. rewrite filter_cons, decide_True by done. cbn [length].
  f_equal. by apply count_name_0.
Qed.

Lemma list_remove_absent (x : ref) l : x ∉ l -> Py.list_remove x l = None.
Proof.
  induction l as [|y l IH]; cbn [Py.list_remove]; [done|].
  intros [Hne Hx]%not_elem_of_cons. rewrite decide_False by done. by rewrite IH.
Qed.

Lemma list_remove_first (x : ref) a b :
  x ∉ a -> Py.list_remove x (a ++ x :: b) = Some (a ++ b).
Proof.
  induction a as [|y a IH]; intros Hx; cbn [Py.list_remove app].
  - by rewrite decide_True.
  - apply not_elem_of_cons in Hx as [Hne Hx]. rewrite decide_False by done.
    by rewrite IH.
Qed.

Lemma list_remove_drops (x : ref) l :
  drops_first x l (default l (Py.list_remove x l)).
Proof.
  split.
  - intros Hx. by rewrite list_remove_absent.
  - intros a b -> Hx. by rewrite list_remove_first.
Qed.

(** Step one on the record found is the un-queueing of its uninstall. *)
Lemma addMod_found_unqueued s md : unqueued md s (addMod_found s md).
Proof.
  unfold addMod_found. destruct (truthy (need_uninstall (get s md))) eqn:E.
  2:{ destruct (truthy (need_install (get s md))); split; try done; congruence. }
  pose proof (list_remove_drops md (Patcher.need_uninstall s)) as Hd.
  split; try discriminate; try (by destruct (Py.list_remove md (Patcher.need_uninstall s)));
    intros; try congruence; try rewrite get_upd_eq; try rewrite get_upd_ne by done;
    by destruct (Py.list_remove md (Patcher.need_uninstall s)).
Qed.

Lemma unqueued_name md s s' r : unqueued md s s' -> name (get s' r) = name (get s r).
Proof.
  intros U. destruct (decide (r = md)) as [->|Hne]; [|by rewrite (unqueued_others _ _ _ U)].
  destruct (truthy (need_uninstall (get s md))) eqn:E.
  - rewrite (unqueued_flag _ _ _ U E). by destruct (get s md).
  - by rewrite (unqueued_idle _ _ _ U E).
Qed.

(** C4 (as amended): after a call of [addMod] that returned, a second
    call with any record of the same name stops in step one, at any
    depth allowed and returning nothing, on the local record [md] of
    that name. All it can do is to un-queue a pending uninstall of
    [md]: if [md] is flagged for uninstall, its first occurrence leaves
    the uninstall queue and the flag is cleared; nothing else changes,
    and nothing at all if [md] is not flagged. When the name was in the
    local catalog before the first call, it is the first call that
    un-queued the uninstall and the second changes nothing: the package
    is not queued for installation by either call. When the first call
    queued the package, the name occurs exactly once in the local
    catalog and (unless an unrelated queued record carried it before)
    exactly once in the install queue, before and after the second
    call, and the second call changes nothing unless the queued record
    carried an uninstall flag already. *)
Theorem addMod_idempotent (s s1 : Patcher.t) (spec spec2 : ref) (src src2 : option ref)
    (fuel fuel2 : nat) (rv : retval) :
  addMod fuel s spec src = Some (rv, s1) ->
  name (get s1 spec2) = name (get s spec) ->
  exists md s2,
    find_name s1 (Patcher.local s1) (name (get s spec)) = Some md /\
    addMod (S fuel2) s1 spec2 src2 = Some (RetNone, s2) /\
    unqueued md s1 s2 /\
    (forall md0,
       find_name s (Patcher.local s) (name (get s spec)) = Some md0 ->
       md = md0 /\ rv = RetNone /\ unqueued md0 s s1 /\ s2 = s1 /\
       count_name s2 (Patcher.need_install s2) (name (get s spec))
       = count_name s (Patcher.need_install s) (name (get s spec))) /\
    (find_name s (Patcher.local s) (name (get s spec)) = None ->
     rv = RetTrue /\
     md ∈ Patcher.need_install s1 /\
     truthy (need_install (get s1 md)) = true /\
     count_name s1 (Patcher.local s1) (name (get s spec)) = 1%nat /\
     count_name s2 (Patcher.local s2) (name (get s spec)) = 1%nat /\
     (count_name s (Patcher.need_install s) (name (get s spec)) = 0%nat ->
      count_name s1 (Patcher.need_install s1) (name (get s spec)) = 1%nat /\
      count_name s2 (Patcher.need_install s2) (name (get s spec)) = 1%nat) /\
     (truthy (need_uninstall (get s md)) = false -> s2 = s1)).
Proof.
  intros Hfirst Hname. apply addMod_inv in Hfirst.
  destruct (find_name s (Patcher.local s) (name (get s spec))) as [md|] eqn:Hl.
  - destruct Hfirst as [-> ->]. exists md, (addMod_found s md).
    pose proof (addMod_found_unqueued s md) as U.
    destruct (addMod_found_frame s md) as (F1 & F2 & F3 & F4 & F5 & F6 & F7).
    assert (find_name (addMod_found s md) (Patcher.local (addMod_found s md))
              (name (get s spec)) = Some md) as Hfind.
    { by rewrite F1, (find_name_ext s) by done. }
    assert (addMod_found (addMod_found s md) md = addMod_found s md) as Hid
      by by apply addMod_found_id.
    split; [done|]. split; [by rewrite addMod_S, Hname, Hfind, Hid|].
    split; [rewrite <- Hid at 2; apply addMod_found_unqueued|].
    split; [|discriminate].
    intros md0 [= <-]. repeat (split; [done|]).
    by rewrite F2, (count_name_ext s) by done.
  - destruct Hfirst as [-> (l & G)].
    set (spec' := default spec (find_name s (Patcher.remote s) (name (get s spec)))) in *.
    assert (name (get s spec') = name (get s spec)) as Hn' by apply chosen_name.
    exists spec', (addMod_found s1 spec').
    pose proof (addMod_found_unqueued s1 spec') as U.
    assert (forall r, name (get (addMod_found s1 spec') r) = name (get s1 r)) as F5
      by (intros r; by eapply unqueued_name).
    assert (find_name s1 (Patcher.local s1) (name (get s spec)) = Some spec') as Hfind.
    { rewrite (grows_local _ _ _ G), find_name_app.
      rewrite (find_name_ext s s1) by apply (grows_name _ _ _ G). rewrite Hl.
      cbn [find_name]. by rewrite (grows_name _ _ _ G), decide_True. }
    assert (count_name s1 (Patcher.local s1) (name (get s spec)) = 1%nat) as Hc1.
    { rewrite (grows_local _ _ _ G), count_name_app.
      rewrite !(count_name_ext s s1) by apply (grows_name _ _ _ G).
      rewrite (count_name_0 s (Patcher.local s)) by by apply find_name_None.
      rewrite <- Hn'. by rewrite count_name_fresh by apply (grows_fresh _ _ _ G). }
    split; [done|]. split; [by rewrite addMod_S, Hname, Hfind|].
    split; [done|]. split; [discriminate|]. intros _. split; [done|].
    split; [rewrite (grows_need_install _ _ _ G); apply elem_of_app; right; by left|].
    split; [apply (grows_queued _ _ _ G); by left|]. split; [done|].
    split; [by rewrite (unqueued_local _ _ _ U), (count_name_ext s1) by done|].
    split.
    + intros Hq.
      assert (count_name s1 (Patcher.need_install s1) (name (get s spec)) = 1%nat) as Hc2.
      { rewrite (grows_need_install _ _ _ G), count_name_app.
        rewrite !(count_name_ext s s1) by apply (grows_name _ _ _ G). rewrite Hq.
        rewrite <- Hn'. by rewrite count_name_fresh by apply (grows_fresh _ _ _ G). }
      split; [done|].
      by rewrite (unqueued_need_install _ _ _ U), (count_name_ext s1) by done.
    + intros Hflag. apply (unqueued_idle _ _ _ U).
      by rewrite (grows_flag _ _ _ G).
Qed.

Lemma addMod_idempotent_witness :
  exists md s2,
    find_name cycle_queued (Patcher.local cycle_queued) (name (get cycle 0%nat)) = Some md /\
    addMod 1 cycle_queued 0%nat None = Some (RetNone, s2) /\
    unqueued md cycle_queued s2 /\
    (forall md0,
       find_name cycle (Patcher.local cycle) (name (get cycle 0%nat)) = Some md0 ->
       md = md0 /\ RetTrue = RetNone /\ unqueued md0 cycle cycle_queued /\ s2 = cycle_queued /\
       count_name s2 (Patcher.need_install s2) (name (get cycle 0%nat))
       = count_name cycle (Patcher.need_install cycle) (name (get cycle 0%nat))) /\
    (find_name cycle (Patcher.local cycle) (name (get cycle 0%nat)) = None ->
     RetTrue = RetTrue /\
     md ∈ Patcher.need_install cycle_queued /\
     truthy (need_install (get cycle_queued md)) = true /\
     count_name cycle_queued (Patcher.local cycle_queued) (name (get cycle 0%nat)) = 1%nat /\
     count_name s2 (Patcher.local s2) (name (get cycle 0%nat)) = 1%nat /\
     (count_name cycle (Patcher.need_install cycle) (name (get cycle 0%nat)) = 0%nat ->
      count_name cycle_queued (Patcher.need_install cycle_queued)
        (name (get cycle 0%nat)) = 1%nat /\
      count_name s2 (Patcher.need_install s2) (name (get cycle 0%nat)) = 1%nat) /\
     (truthy (need_uninstall (get cycle md)) = false -> s2 = cycle_queued)).
Proof.
  apply (addMod_idempotent cycle cycle_queued 0%nat 0%nat None None 2 0 RetTrue).
  - vm_compute. reflexivity.
  - vm_compute. reflexivity.
Defined.

(** C4 (as claimed) fails. On an installed package both calls return in
    step one without a change, and the package is in the local catalog
    but not once in the install queue. And a second call does make a
    change when the record the first call queued carried an uninstall
    flag: it takes the record out of the uninstall queue and clears the
    flag. *)
Lemma addMod_twice_counterexample :
  addMod 1 installed_pair 0%nat None = Some (RetNone, installed_pair) /\
  count_name installed_pair (Patcher.local installed_pair) "BSIPA" = 1%nat /\
  count_name installed_pair (Patcher.need_install installed_pair) "BSIPA" = 0%nat /\
  exists s1 s2,
    addMod 2 cycle_flagged 0%nat None = Some (RetTrue, s1) /\
    addMod 1 s1 0%nat None = Some (RetNone, s2) /\
    Patcher.need_uninstall s1 = [0%nat] /\
    Patcher.need_uninstall s2 = [] /\
    need_uninstall (get s1 0%nat) = FBool true /\
    need_uninstall (get s2 0%nat) = FBool false.
Proof.
  split; [reflexivity|]. split; [reflexivity|]. split; [reflexivity|].
  eexists _, _. split; [vm_compute; reflexivity|]. split; [vm_compute; reflexivity|].
  repeat split.
Qed.

(** ** Queueing a removal *)

Lemma list_remove_None (x : ref) l : Py.list_remove x l = None -> x ∉ l.
Proof.
  induction l as [|y l IH]; cbn [Py.list_remove]; [intros _ H; inversion H|].
  destruct (decide (x = y)); [discriminate|].
  destruct (Py.list_remove x l); [discriminate|]. intros _.
  apply not_elem_of_cons. split; [done|by apply IH].
Qed.

Lemma list_remove_NoDup (x : ref) l l' : NoDup l -> Py.list_remove x l = Some l' -> x ∉ l'.
Proof.
  revert l'. induction l as [|y l IH]; intros l' Hnd; cbn [Py.list_remove]; [discriminate|].
  apply NoDup_cons in Hnd as [Hy Hnd].
  destruct (decide (x = y)) as [->|Hne]; [by intros [= <-]|].
  destruct (Py.list_remove x l) as [l0|]; [|discriminate]. intros [= <-].
  apply not_elem_of_cons. split; [done|by apply IH].
Qed.

Lemma list_remove_others (x r : ref) l l' :
  Py.list_remove x l = Some l' -> r <> x -> r ∈ l -> r ∈ l'.
Proof.
  revert l'. induction l as [|y l IH]; intros l'; cbn [Py.list_remove]; [discriminate|].
  destruct (decide (x = y)) as [->|Hne].
  - intros [= <-] Hr [->|?]%elem_of_cons; done.
  - destruct (Py.list_remove x l) as [l0|]; [|discriminate]. intros [= <-] Hr.
    rewrite !elem_of_cons. intros [->|?]; [by left|right; by apply IH].
Qed.

Lemma elem_of_dependents s n md dep :
  md ∈ Patcher.local s -> dep ∈ dependencies (get s md) -> dep_name dep = n ->
  name (get s md) ∈ dependents s n.
Proof.
  intros Hmd Hdep Hn. unfold dependents. apply list_elem_of_bind. exists md. split; [|done].
  apply list_elem_of_fmap. exists dep. split; [done|]. by apply list_elem_of_filter.
Qed.

(** [removeMod] on an installed record (local, not queued for
    installation): when another local record lists its name as a
    dependency, a removal without [force] raises the dependency
    conflict, whose message joins the names of all dependents, and
    changes nothing; a removal with [force] returns [True], takes the
    first occurrence of the record out of the update queue, sets
    [need_uninstall] and clears [need_install] and [need_update] on it,
    and appends it to the uninstall queue, leaving everything else
    alone. *)
Lemma removeMod_installed (s : Patcher.t) (spec : ref) :
  truthy (need_install (get s spec)) = false ->
  truthy (is_local (get s spec)) = true ->
  ((exists md dep, md ∈ Patcher.local s /\ md <> spec /\
                   dep ∈ dependencies (get s md) /\ dep_name dep = name (get s spec)) ->
   removeMod s spec false =
     (inl (RuntimeError
        ("Other mods depend on this package. Uninstall the following mods first: "
         +:+ Py.join ", " (dependents s (name (get s spec))))), s) /\
   (forall md dep, md ∈ Patcher.local s -> dep ∈ dependencies (get s md) ->
                   dep_name dep = name (get s spec) ->
                   name (get s md) ∈ dependents s (name (get s spec)))) /\
  (exists s',
     removeMod s spec true = (inr RetTrue, s') /\
     Patcher.need_update s' =
       default (Patcher.need_update s) (Py.list_remove spec (Patcher.need_update s)) /\
     (NoDup (Patcher.need_update s) -> spec ∉ Patcher.need_update s') /\
     (forall r, r <> spec -> r ∈ Patcher.need_update s -> r ∈ Patcher.need_update s') /\
     Patcher.need_uninstall s' = Patcher.need_uninstall s ++ [spec] /\
     need_uninstall (get s' spec) = FBool true /\
     need_install (get s' spec) = FBool false /\
     need_update (get s' spec) = FBool false /\
     Patcher.local s' = Patcher.local s /\
     Patcher.need_install s' = Patcher.need_install s /\
     Patcher.remote s' = Patcher.remote s /\
     (forall r, r <> spec -> get s' r = get s r)).
Proof.
  intros Hni Hloc. split.
  - intros (md & dep & Hmd & _ & Hdep & Hn).
    split; [|intros; by eapply elem_of_dependents].
    unfold removeMod. rewrite Hni, Hloc. cbn [negb].
    pose proof (elem_of_dependents s _ md dep Hmd Hdep Hn) as Hin.
    rewrite bool_decide_eq_true_2; [done|].
    intros E. rewrite E in Hin. inversion Hin.
  - unfold removeMod. rewrite Hni, Hloc, andb_false_r. cbn [negb]. cbv zeta.
    destruct (Py.list_remove spec (Patcher.need_update s)) as [l|] eqn:E; cbn [default];
      (eexists; split; [reflexivity|]); rewrite ?get_with_need_uninstall, !get_upd_eq.
    + split; [done|]. split; [intros Hnd; by eapply list_remove_NoDup|].
      split; [intros r Hr Hin; by eapply list_remove_others|].
      split; [done|].
      split; [by destruct (get _ spec)|]. split; [by destruct (get _ spec)|].
      split; [by destruct (get _ spec)|]. repeat (split; [done|]).
      intros r Hr. by rewrite get_with_need_uninstall, !get_upd_ne.
    + split; [done|]. split; [intros _; by apply list_remove_None|].
      split; [done|]. split; [done|].
      split; [by destruct (get _ spec)|]. split; [by destruct (get _ spec)|].
      split; [by destruct (get _ spec)|]. repeat (split; [done|]).
      intros r Hr. by rewrite get_with_need_uninstall, !get_upd_ne.
Qed.

Lemma removeMod_installed_witness :
  ((exists md dep, md ∈ Patcher.local installed_pair /\ md <> 0%nat /\
                   dep ∈ dependencies (get installed_pair md) /\
                   dep_name dep = name (get installed_pair 0%nat)) ->
   removeMod installed_pair 0%nat false =
     (inl (RuntimeError
        ("Other mods depend on this package. Uninstall the following mods first: "
         +:+ Py.join ", " (dependents installed_pair (name (get installed_pair 0%nat))))),
      installed_pair) /\
   (forall md dep, md ∈ Patcher.local installed_pair ->
                   dep ∈ dependencies (get installed_pair md) ->
                   dep_name dep = name (get installed_pair 0%nat) ->
                   name (get installed_pair md)
                     ∈ dependents installed_pair (name (get installed_pair 0%nat)))) /\
  (exists s',
     removeMod installed_pair 0%nat true = (inr RetTrue, s') /\
     Patcher.need_update s' =
       default (Patcher.need_update installed_pair)
               (Py.list_remove 0%nat (Patcher.need_update installed_pair)) /\
     (NoDup (Patcher.need_update installed_pair) -> 0%nat ∉ Patcher.need_update s') /\
     (forall r, r <> 0%nat -> r ∈ Patcher.need_update installed_pair ->
                r ∈ Patcher.need_update s') /\
     Patcher.need_uninstall s' = Patcher.need_uninstall installed_pair ++ [0%nat] /\
     need_uninstall (get s' 0%nat) = FBool true /\
     need_install (get s' 0%nat) = FBool false /\
     need_update (get s' 0%nat) = FBool false /\
     Patcher.local s' = Patcher.local installed_pair /\
     Patcher.need_install s' = Patcher.need_install installed_pair /\
     Patcher.remote s' = Patcher.remote installed_pair /\
     (forall r, r <> 0%nat -> get s' r = get installed_pair r)).
Proof.
  apply (removeMod_installed installed_pair 0%nat); vm_compute; reflexivity.
Defined.

Example removeMod_conflict_message :
  removeMod installed_pair 0%nat false =
    (inl (RuntimeError
       "Other mods depend on this package. Uninstall the following mods first: SongCore"),
     installed_pair).
Proof. vm_compute. reflexivity. Qed.

(** C5 on the code: the update check queues an installed record once
    for every newer release of the listing, here twice. The forced
    [removeMod] of that record returns [True], flags it and appends it
    to the uninstall queue, but takes only one of its occurrences out
    of the update queue: the record is still queued for update, and the
    install set that [patch] assembles next holds a new release of the
    package that was to be removed. *)
Theorem removeMod_still_queued_for_update :
  let s := (refreshMods two_releases stale_install true).2 in
  let s' := (removeMod s 0%nat true).2 in
  Patcher.local s = [0%nat] /\
  name (get s 0%nat) = "SongCore"%string /\
  truthy (is_local (get s 0%nat)) = true /\
  truthy (need_install (get s 0%nat)) = false /\
  Patcher.need_update s = [0%nat; 0%nat] /\
  (removeMod s 0%nat true).1 = inr RetTrue /\
  Patcher.need_update s' = [0%nat] /\
  Patcher.need_uninstall s' = [0%nat] /\
  need_uninstall (get s' 0%nat) = FBool true /\
  need_install (get s' 0%nat) = FBool false /\
  need_update (get s' 0%nat) = FBool false /\
  assembled s' = [1%nat] /\
  name (get s' 1%nat) = "SongCore"%string /\
  version (get s' 1%nat) = [1; 2; 0].
Proof. vm_compute. repeat split. Qed.

(** ** End-to-end runs *)

(** Scenario B: queueing [SongCore] queues it and then [BSIPA]; [patch]
    downloads in that order and installs [BSIPA] first. *)
Example scenario_B :
  exists s,
    addMod 2 libs 1%nat None = Some (RetTrue, s) /\
    Patcher.need_install s = [1%nat; 0%nat] /\
    Patcher.trace (patch mirror s).2 =
      [ Fetched 1%nat "/bs/.bsmm/cache/SongCore_2.0.0.zip";
        Fetched 0%nat "/bs/.bsmm/cache/BSIPA_4.0.0.zip";
        Extracted 0%nat "/bs/IPA.exe";
        Persisted 0%nat "/bs/.bsmm/meta/BSIPA_4.0.0.json";
        Extracted 1%nat "/bs/Plugins/SongCore.dll";
        Persisted 1%nat "/bs/.bsmm/meta/SongCore_2.0.0.json" ].
Proof. eexists. split; [vm_compute; reflexivity|]. split; vm_compute; reflexivity. Qed.

(** The update check of [refreshMods] takes the remote version with a
    trailing zero for a newer one. *)
Example check_updates_trailing_zero :
  Patcher.need_update (check_updates 0%nat [1%nat] trailing_zero_update) = [0%nat] /\
  need_update (get (check_updates 0%nat [1%nat] trailing_zero_update) 0%nat) = FBool true.
Proof. split; vm_compute; reflexivity. Qed.

(** * Further properties *)

(** ** Hashes *)

Lemma le_bytes_bytes n x : Forall is_byte (MD5.le_bytes n x).
Proof.
  revert x. induction n as [|n IH]; intros x; cbn [MD5.le_bytes]; constructor; [|apply IH].
  unfold is_byte. change 0xff with (Z.ones 8). rewrite Z.land_ones by lia.
  apply Z.mod_pos_bound. lia.
Qed.

Lemma lower_hex_digit d : 0 <= d < 16 -> Py.lower_ascii (MD5.hex_digit d) = MD5.hex_digit d.
Proof.
  intros Hd.
  assert (d = 0 \/ d = 1 \/ d = 2 \/ d = 3 \/ d = 4 \/ d = 5 \/ d = 6 \/ d = 7 \/
          d = 8 \/ d = 9 \/ d = 10 \/ d = 11 \/ d = 12 \/ d = 13 \/ d = 14 \/ d = 15)
    as Hcases by lia.
  repeat (destruct Hcases as [->|Hcases]; [reflexivity|]). by subst.
Qed.

Lemma lower_hex_of_bytes bs :
  Forall is_byte bs -> Py.lower (MD5.hex_of_bytes bs) = MD5.hex_of_bytes bs.
Proof.
  induction 1 as [|b bs Hb _ IH]; [reflexivity|]. unfold is_byte in Hb.
  cbn [MD5.hex_of_bytes Py.lower]. rewrite IH.
  rewrite !lower_hex_digit; [done| |].
  - change 15 with (Z.ones 4). rewrite Z.land_ones by lia. apply Z.mod_pos_bound. lia.
  - rewrite Z.shiftr_div_pow2 by lia. change (2 ^ 4) with 16.
    split; [apply Z.div_pos; lia|apply Z.div_lt_upper_bound; lia].
Qed.

(** The digest is written in lower case. *)
Lemma lower_hexdigest data : Py.lower (MD5.hexdigest data) = MD5.hexdigest data.
Proof.
  unfold MD5.hexdigest. destruct (MD5.blocks _ _ _) as [[[a b] c] d].
  apply lower_hex_of_bytes. rewrite !Forall_app. repeat split; apply le_bytes_bytes.
Qed.

(** X1: [validateFile] accepts exactly the hash strings that spell the MD5
    digest of the data, in upper or lower case. *)
Theorem validateFile_iff (data hash : string) :
  validateFile data hash = true <-> Py.lower hash = MD5.hexdigest data.
Proof.
  unfold validateFile. rewrite bool_decide_eq_true, lower_hexdigest. split; congruence.
Qed.

Lemma verify_members_inr archive fl ms :
  verify_members archive fl ms = inr tt <-> forall m, m ∈ ms -> ~ mismatch archive fl m.
Proof.
  unfold mismatch. induction ms as [|m ms IH]; cbn [verify_members].
  { split; [|done]. intros _ m Hm. inversion Hm. }
  destruct (is_dir m) eqn:Hdir.
  { rewrite IH. split.
    - intros H x [->|Hx]%elem_of_cons; [intros [? _]; congruence|by apply H].
    - intros H x Hx. apply H. by right. }
  destruct (expected_hash fl (filename m)) as [h|] eqn:Hh.
  2:{ rewrite IH. split.
      - intros H x [->|Hx]%elem_of_cons; [intros [_ (? & ? & _)]; congruence|by apply H].
      - intros H x Hx. apply H. by right. }
  destruct (validateFile _ h) eqn:Hv.
  - rewrite IH. split.
    + intros H x [->|Hx]%elem_of_cons; [|by apply H].
      intros [_ (h' & Hh' & Hv')]. congruence.
    + intros H x Hx. apply H. by right.
  - split; [discriminate|]. intros H. exfalso. apply (H m); [by left|].
    split; [done|]. by exists h.
Qed.



(** ** Records made from an archive, continued *)

Lemma last_filter_fmap_hash (f : ZipFile) (n : string) (l : list string) :
  n ∈ l ->
  hash <$> last (filter (fun e => file e = n)
     ((fun n0 => {| file := n0;
                    hash := MD5.hexdigest (default EmptyString (zip_read f n0)) |}) <$> l))
  = Some (MD5.hexdigest (default EmptyString (zip_read f n))).
Proof.
  induction l as [|x l IH] using rev_ind; [intros H; inversion H|].
  rewrite fmap_app, filter_app. cbn [fmap list_fmap]. rewrite filter_cons. cbn [file].
  intros [Hl| ->%list_elem_of_singleton]%elem_of_app.
  - destruct (decide (x = n)) as [->|Hne].
    + rewrite filter_nil, last_snoc. reflexivity.
    + rewrite filter_nil, app_nil_r. by apply IH.
  - rewrite decide_True by done. rewrite filter_nil, last_snoc. reflexivity.
Qed.

(** X3: A record synthesized from an archive records, for every member, the
    MD5 digest of what the archive holds under that name: checking the
    archive against the record finds no mismatch.  The record is bound to
    the archive, carries its file name, version [[1, 0, 0]], the url
    ["local"] and no dependencies. *)
Theorem fromArchive_self_verifies (loads : string -> option json) (f : ZipFile) :
  archive_spec loads f = None ->
  verify_members f (files (fromArchive loads f)) (infolist f) = inr tt /\
  _archive (fromArchive loads f) = Some (zip_filename f) /\
  name (fromArchive loads f) = path_name (zip_filename f) /\
  version (fromArchive loads f) = [1; 0; 0] /\
  url (fromArchive loads f) = "local"%string /\
  dependencies (fromArchive loads f) = [] /\
  file <$> files (fromArchive loads f) = namelist f.
Proof.
  intros Hspec. unfold fromArchive. rewrite Hspec. cbn.
  split; [|repeat split].
  - apply verify_members_inr. intros m Hm (_ & h & Hh & Hv).
    unfold expected_hash in Hh. unfold namelist in Hh.
    rewrite (last_filter_fmap_hash f (filename m)) in Hh.
    + injection Hh as <-. unfold validateFile in Hv.
      by rewrite bool_decide_eq_true_2 in Hv.
    + apply list_elem_of_fmap. by exists m.
  - rewrite <- list_fmap_compose. apply list_fmap_id.
Qed.

Lemma fromArchive_self_verifies_witness :
  verify_members archive_ba (files (fromArchive (fun _ => None) archive_ba))
    (infolist archive_ba) = inr tt /\
  _archive (fromArchive (fun _ => None) archive_ba) = Some (zip_filename archive_ba) /\
  name (fromArchive (fun _ => None) archive_ba) = path_name (zip_filename archive_ba) /\
  version (fromArchive (fun _ => None) archive_ba) = [1; 0; 0] /\
  url (fromArchive (fun _ => None) archive_ba) = "local"%string /\
  dependencies (fromArchive (fun _ => None) archive_ba) = [] /\
  file <$> files (fromArchive (fun _ => None) archive_ba) = namelist archive_ba.
Proof. apply (fromArchive_self_verifies (fun _ => None) archive_ba). reflexivity. Defined.

(** X4: An archive that carries a [spec.json] which parses as a manifest
    gives the record of that manifest, as [fromSpecFile] reads it: with
    the category [OTHER], and not bound to the archive it came from, so
    that [patch] would download the package rather than use the
    archive. *)
Theorem fromArchive_manifest (loads : string -> option json) (f : ZipFile) (m : ModSpec) :
  archive_spec loads f = Some m ->
  fromArchive loads f = m /\
  _archive m = None /\
  category m = OTHER /\
  exists text d,
    zip_read f "spec.json" = Some text /\ loads text = Some d /\ fromSpecFile d = inr m.
Proof.
  intros H. unfold fromArchive. rewrite H. split; [done|].
  unfold archive_spec in H. destruct (zip_read f "spec.json") as [text|]; [|discriminate].
  destruct (loads text) as [d|] eqn:Hd; [|discriminate].
  destruct (fromSpecFile d) as [e|m'] eqn:Hm; [discriminate|]. injection H as ->.
  unfold fromSpecFile in Hm.
  assert (category m = OTHER /\ _archive m = None) as [Hc Ha].
  { revert Hm.
    repeat (match goal with
            | |- res_bind ?x _ = inr _ -> _ =>
                destruct x; cbn [res_bind]; [discriminate|]
            end).
    cbv zeta. by intros [= <-]. }
  split; [exact Ha|]. split; [exact Hc|]. by exists text, d.
Qed.

Lemma fromArchive_manifest_witness :
  let loads := fun _ : string => Some (writeSpecFile songcore_installed) in
  let m := fromArchive loads archive_with_manifest in
  fromArchive loads archive_with_manifest = m /\
  _archive m = None /\
  category m = OTHER /\
  exists text d,
    zip_read archive_with_manifest "spec.json" = Some text /\ loads text = Some d /\
    fromSpecFile d = inr m.
Proof.
  apply (fromArchive_manifest (fun _ => Some (writeSpecFile songcore_installed))
           archive_with_manifest).
  vm_compute. reflexivity.
Defined.

(** ** Removing a package from disk *)

Section Uninstall.

Variable env : Env.

Lemma os_remove_Some p s s' :
  os_remove env p s = Some s' ->
  s' = Patcher.with_fs (delete p (Patcher.fs s)) s /\ writable env p = true.
Proof.
  unfold os_remove. destruct (Patcher.fs s !! p); [|discriminate].
  destruct (writable env p); [|discriminate]. by intros [= <-].
Qed.

Lemma os_remove_None p s :
  os_remove env p s = None -> writable env p = true -> Patcher.fs s !! p = None.
Proof.
  unfold os_remove. destruct (Patcher.fs s !! p); [|done].
  destruct (writable env p); [discriminate|]. intros _ H. discriminate.
Qed.

(** The loop over the files of a record only deletes, only at the listed
    paths, and deletes every listed path it may. *)
Lemma remove_files_fs r fl s :
  Patcher.heap (remove_files env r fl s) = Patcher.heap s /\
  Patcher.path (remove_files env r fl s) = Patcher.path s /\
  Patcher.manifest_cache (remove_files env r fl s) = Patcher.manifest_cache s /\
  Patcher.fs (remove_files env r fl s) ⊆ Patcher.fs s /\
  (forall p, (forall f, f ∈ fl -> p <> path_join (Patcher.path s) (file f)) ->
             Patcher.fs (remove_files env r fl s) !! p = Patcher.fs s !! p) /\
  (forall f, f ∈ fl -> writable env (path_join (Patcher.path s) (file f)) = true ->
             Patcher.fs (remove_files env r fl s) !! path_join (Patcher.path s) (file f) = None).
Proof.
  revert s. induction fl as [|f fl IH]; intros s; cbn [remove_files].
  { repeat split; try done. intros f Hf. inversion Hf. }
  destruct (os_remove env (path_join (Patcher.path s) (file f)) s) as [s1|] eqn:E.
  - apply os_remove_Some in E as [-> Hw].
    destruct (IH (emit (Unlinked r (path_join (Patcher.path s) (file f)))
                    (Patcher.with_fs (delete (path_join (Patcher.path s) (file f))
                       (Patcher.fs s)) s)))
      as (H1 & H2 & H3 & H4 & H5 & H6).
    cbn [emit Patcher.with_trace Patcher.with_fs Patcher.heap Patcher.path
         Patcher.manifest_cache Patcher.fs] in *.
    split; [done|]. split; [done|]. split; [done|]. split; [|split].
    + etrans; [exact H4|]. apply delete_subseteq.
    + intros p Hp. rewrite H5.
      * apply lookup_delete_ne. intros Heq. by apply (Hp f); [left|].
      * intros f' Hf'. apply Hp. by right.
    + intros f' [->|Hf']%elem_of_cons Hw'; [|by apply H6].
      apply (lookup_weaken_None _ _ _ (lookup_delete_eq _ _) H4).
  - destruct (IH s) as (H1 & H2 & H3 & H4 & H5 & H6).
    split; [done|]. split; [done|]. split; [done|]. split; [done|]. split.
    + intros p Hp. apply H5. intros f' Hf'. apply Hp. by right.
    + intros f' [->|Hf']%elem_of_cons Hw'; [|by apply H6].
      apply (lookup_weaken_None _ _ _ (os_remove_None _ _ E Hw') H4).
Qed.

Lemma uninstallMod_spec (s : Patcher.t) (spec : ref) :
  (truthy (is_local (get s spec)) = false ->
   _uninstallMod env s spec =
     (inl (RuntimeError "This mod is not currently installed."), s)) /\
  (truthy (is_local (get s spec)) = true ->
   (_uninstallMod env s spec).1 = inr tt /\
   Patcher.heap (_uninstallMod env s spec).2 = Patcher.heap s /\
   stable s (_uninstallMod env s spec).2 /\
   Patcher.fs (_uninstallMod env s spec).2 ⊆ Patcher.fs s /\
   (forall p,
      (forall f, f ∈ files (get s spec) -> p <> path_join (Patcher.path s) (file f)) ->
      p <> path_join (Patcher.manifest_cache s) (_getSpecFileName (get s spec)) ->
      Patcher.fs (_uninstallMod env s spec).2 !! p = Patcher.fs s !! p) /\
   (forall f, f ∈ files (get s spec) ->
      writable env (path_join (Patcher.path s) (file f)) = true ->
      Patcher.fs (_uninstallMod env s spec).2 !! path_join (Patcher.path s) (file f) = None) /\
   (writable env (path_join (Patcher.manifest_cache s) (_getSpecFileName (get s spec))) = true ->
    Patcher.fs (_uninstallMod env s spec).2
      !! path_join (Patcher.manifest_cache s) (_getSpecFileName (get s spec)) = None)).
Proof.
  split; intros Hloc.
  { unfold _uninstallMod. by rewrite Hloc. }
  pose proof (uninstallMod_run env s spec) as (evs & [Hst _] & _).
  unfold _uninstallMod in *. rewrite Hloc in *. cbn [negb] in *.
  destruct (remove_files_fs spec (files (get s spec)) s) as (H1 & H2 & H3 & H4 & H5 & H6).
  set (s1 := remove_files env spec (files (get s spec)) s) in *.
  assert (get s1 spec = get s spec) as Hget by (unfold get; by rewrite H1).
  rewrite Hget, H3 in *.
  set (mp := path_join (Patcher.manifest_cache s) (_getSpecFileName (get s spec))) in *.
  destruct (os_remove env mp s1) as [s2|] eqn:E; cbn [fst snd] in *.
  - apply os_remove_Some in E as [-> Hw].
    cbn [emit Patcher.with_trace Patcher.with_fs Patcher.heap Patcher.fs].
    split; [done|]. split; [done|]. split; [done|]. split; [|split; [|split]].
    + etrans; [apply delete_subseteq|done].
    + intros p Hp Hmp. rewrite lookup_delete_ne by done. by apply H5.
    + intros f Hf Hw'.
      apply (lookup_weaken_None _ _ _ (H6 f Hf Hw') (delete_subseteq _ _)).
    + intros _. apply lookup_delete_eq.
  - split; [done|]. split; [done|]. split; [done|]. split; [done|].
    split; [|split; [done|]].
    + intros p Hp _. by apply H5.
    + intros Hw. by eapply os_remove_None.
Qed.

(** X5: [_uninstallMod] on a record that is not flagged local raises and
    changes nothing.  On a local record it returns; it changes no record,
    catalog or queue; on disk it only deletes: each file the record
    lists, at the game directory joined with its entry as [pathlib]
    joins them (an absolute entry stands for itself), and the file of
    the manifest cache named after the record's name and version; each
    of these that may be removed is gone afterwards.  When none of these
    paths has a [".."] component, every other such path is as it was:
    nothing else the archive once extracted is touched. *)
Theorem uninstallMod_effect (s : Patcher.t) (spec : ref) :
  (truthy (is_local (get s spec)) = false ->
   _uninstallMod env s spec =
     (inl (RuntimeError "This mod is not currently installed."), s)) /\
  (truthy (is_local (get s spec)) = true ->
   (_uninstallMod env s spec).1 = inr tt /\
   Patcher.heap (_uninstallMod env s spec).2 = Patcher.heap s /\
   stable s (_uninstallMod env s spec).2 /\
   Patcher.fs (_uninstallMod env s spec).2 ⊆ Patcher.fs s /\
   ((forall f, f ∈ files (get s spec) ->
       plain (path_join (Patcher.path s) (file f)) = true) ->
    plain (path_join (Patcher.manifest_cache s) (_getSpecFileName (get s spec))) = true ->
    forall p,
      plain p = true ->
      (forall f, f ∈ files (get s spec) -> p <> path_join (Patcher.path s) (file f)) ->
      p <> path_join (Patcher.manifest_cache s) (_getSpecFileName (get s spec)) ->
      Patcher.fs (_uninstallMod env s spec).2 !! p = Patcher.fs s !! p) /\
   (forall f, f ∈ files (get s spec) ->
      writable env (path_join (Patcher.path s) (file f)) = true ->
      Patcher.fs (_uninstallMod env s spec).2 !! path_join (Patcher.path s) (file f) = None) /\
   (writable env (path_join (Patcher.manifest_cache s) (_getSpecFileName (get s spec))) = true ->
    Patcher.fs (_uninstallMod env s spec).2
      !! path_join (Patcher.manifest_cache s) (_getSpecFileName (get s spec)) = None)).
Proof.
  destruct (uninstallMod_spec s spec) as [Hno Hyes]. split; [exact Hno|].
  intros Hloc. destruct (Hyes Hloc) as (H1 & H2 & H3 & H4 & H5 & H6 & H7).
  repeat (split; [assumption|]). split; [|by split].
  intros _ _ p _. apply H5.
Qed.

End Uninstall.

(** ** What a run changes in the records *)

Lemma same_data_refl m : same_data m m.
Proof. by repeat split. Qed.

Lemma same_data_trans m1 m2 m3 : same_data m1 m2 -> same_data m2 m3 -> same_data m1 m3.
Proof. unfold same_data. intros. destruct_and!. repeat split; congruence. Qed.

Lemma evolves_refl T s : evolves T s s.
Proof. intros r. split; [apply same_data_refl|done]. Qed.

Lemma evolves_trans T s1 s2 s3 : evolves T s1 s2 -> evolves T s2 s3 -> evolves T s1 s3.
Proof.
  intros H1 H2 r. destruct (H1 r) as (A1 & B1 & C1), (H2 r) as (A2 & B2 & C2).
  split; [by eapply same_data_trans|]. split; [by auto|].
  intros HT. by rewrite C2, C1.
Qed.

Lemma evolves_weaken (T T' : ref -> Prop) s s' :
  (forall r, T r -> T' r) -> evolves T s s' -> evolves T' s s'.
Proof.
  intros HT H r. destruct (H r) as (A & B & C). split; [done|]. split; [done|].
  intros HT'. apply C. auto.
Qed.

Lemma evolves_heap T s s' : Patcher.heap s' = Patcher.heap s -> evolves T s s'.
Proof.
  intros Hh r. assert (get s' r = get s r) as -> by (unfold get; by rewrite Hh).
  split; [apply same_data_refl|done].
Qed.

Lemma evolves_upd (T : ref -> Prop) s r f :
  T r -> (forall m, same_data m (f m)) ->
  (forall m p, _archive m = Some p -> _archive (f m) = Some p) ->
  evolves T s (upd r f s).
Proof.
  intros HT Hd Ha r'. rewrite get_upd. destruct (decide (r = r')) as [<-|Hne].
  - split; [apply Hd|]. split; [apply Ha|done].
  - split; [apply same_data_refl|done].
Qed.

Section Effects.

Variable env : Env.

Lemma write_file_Some p c s s' :
  write_file env p c s = Some s' ->
  s' = Patcher.with_fs (<[p := c]> (Patcher.fs s)) s /\ writable env p = true.
Proof.
  unfold write_file. destruct (writable env p); [|discriminate]. by intros [= <-].
Qed.

Lemma uninstall_all_heap l s : Patcher.heap (uninstall_all env l s) = Patcher.heap s.
Proof.
  revert s. induction l as [|r l IH]; intros s; cbn [uninstall_all]; [done|].
  pose proof (uninstallMod_spec env s r) as [Hno Hyes].
  destruct (truthy (is_local (get s r))) eqn:Hloc.
  - destruct (Hyes eq_refl) as (Hok & Hh & _).
    destruct (_uninstallMod env s r) as [[e|?] s1]; cbn [fst snd] in *; [discriminate|].
    by rewrite IH.
  - rewrite (Hno eq_refl). by rewrite IH.
Qed.

Lemma extract_members_heap r ms s :
  Patcher.heap (extract_members env r ms s).2 = Patcher.heap s.
Proof.
  revert s. induction ms as [|m ms IH]; intros s; cbn [extract_members]; [done|].
  destruct (is_dir m); [apply IH|].
  destruct (write_file env _ _ s) as [s1|] eqn:E; [|done].
  apply write_file_Some in E as [-> _]. by rewrite IH.
Qed.

Lemma writeSpec_heap s r : Patcher.heap (_writeSpec env s r).2 = Patcher.heap s.
Proof.
  unfold _writeSpec. destruct (write_file env _ _ s) as [s1|] eqn:E; [|done].
  by apply write_file_Some in E as [-> _].
Qed.

Lemma same_data_flags m v1 v2 v3 :
  same_data m (set_need_install v3 (set_is_local v2 (set_is_remote v1 m))).
Proof. by destruct m. Qed.

(** The three flag assignments of [_installMod]. *)
Lemma installMod_evolves s r : evolves (fun x => x = r) s (_installMod env s r).2.
Proof.
  unfold _installMod. destruct (Patcher.fs s !! _); [|apply evolves_refl].
  destruct (open_zip env s _) as [archive|]; [|apply evolves_refl].
  pose proof (extract_members_heap r (infolist archive) s) as Hh.
  destruct (extract_members env r (infolist archive) s) as [[x|?] s1]; cbn [snd] in Hh.
  { by apply evolves_heap. }
  eapply evolves_trans; [by apply evolves_heap|].
  eapply evolves_trans; [|apply evolves_heap, writeSpec_heap].
  eapply evolves_trans; [|apply evolves_upd; [done|by intros []|by intros []]].
  eapply evolves_trans; apply evolves_upd; try done; by intros [].
Qed.

Lemma install_all_evolves l s : evolves (fun x => x ∈ l) s (install_all env l s).
Proof.
  revert s. induction l as [|r l IH]; intros s; cbn [install_all]; [apply evolves_refl|].
  pose proof (installMod_evolves s r) as H1.
  destruct (_installMod env s r) as [[x|?] s1]; cbn [snd] in H1.
  - eapply evolves_trans; [eapply evolves_weaken; [|exact H1]|].
    { intros ? ->. by left. }
    eapply evolves_trans;
      [by apply (evolves_heap _ s1 (emit (Failed Installing r x) s1))|].
    eapply evolves_weaken; [|apply IH]. intros ? ?. by right.
  - eapply evolves_trans; [eapply evolves_weaken; [|exact H1]|].
    { intros ? ->. by left. }
    eapply evolves_weaken; [|apply IH]. intros ? ?. by right.
Qed.

End Effects.

(** ** The events of a run, phase by phase *)

Section Phases.

Variable env : Env.

Lemma installs_phase e r : installs e = Some r -> phase_of e = Installing /\ subject e = r.
Proof. destruct e as [| | | | |[] ? ?]; cbn; intros [= <-]; done. Qed.

Lemma remove_files_events r fl s :
  exists evs, Patcher.trace (remove_files env r fl s) = Patcher.trace s ++ evs /\
              Forall (fun e => phase_of e = Uninstalling /\ subject e = r) evs.
Proof.
  revert s. induction fl as [|f fl IH]; intros s; cbn [remove_files].
  { exists []. by rewrite app_nil_r. }
  destruct (os_remove env _ s) as [s1|] eqn:E; [|apply IH].
  apply os_remove_Some in E as [-> _].
  destruct (IH (emit (Unlinked r (path_join (Patcher.path s) (file f)))
                  (Patcher.with_fs (delete (path_join (Patcher.path s) (file f))
                     (Patcher.fs s)) s))) as (evs & -> & Hevs).
  eexists (_ :: evs). cbn. rewrite <- app_assoc. split; [reflexivity|by constructor].
Qed.

Lemma uninstall_all_events l s :
  exists evs, Patcher.trace (uninstall_all env l s) = Patcher.trace s ++ evs /\
              Forall (fun e => phase_of e = Uninstalling /\ subject e ∈ l) evs.
Proof.
  revert s. induction l as [|r l IH]; intros s; cbn [uninstall_all].
  { exists []. by rewrite app_nil_r. }
  assert (exists e1, Patcher.trace (_uninstallMod env s r).2 = Patcher.trace s ++ e1 /\
                     Forall (fun e => phase_of e = Uninstalling /\ subject e = r) e1)
    as (e1 & T1 & H1).
  { unfold _uninstallMod. destruct (negb _); [exists []; by rewrite app_nil_r|].
    destruct (remove_files_events r (files (get s r)) s) as (e1 & T1 & H1).
    destruct (os_remove env _ _) as [s2|] eqn:E; cbn [snd]; [|by exists e1].
    apply os_remove_Some in E as [-> _]. eexists (e1 ++ [_]). cbn. rewrite T1, <- app_assoc.
    split; [reflexivity|]. apply Forall_app. split; [done|by repeat constructor]. }
  assert (Forall (fun e => phase_of e = Uninstalling /\ subject e ∈ r :: l) e1) as H1'.
  { eapply Forall_impl; [exact H1|]. intros e [? ->]. split; [done|by left]. }
  destruct (_uninstallMod env s r) as [[x|?] s1]; cbn [snd] in T1.
  - destruct (IH (emit (Failed Uninstalling r x) s1)) as (e2 & -> & H2).
    exists (e1 ++ Failed Uninstalling r x :: e2). cbn. rewrite T1, <- !app_assoc.
    split; [reflexivity|]. apply Forall_app. split; [done|]. constructor.
    + split; [done|by left].
    + eapply Forall_impl; [exact H2|]. intros e [? ?]. split; [done|by right].
  - destruct (IH s1) as (e2 & -> & H2). exists (e1 ++ e2). rewrite T1, <- app_assoc.
    split; [reflexivity|]. apply Forall_app. split; [done|].
    eapply Forall_impl; [exact H2|]. intros e [? ?]. split; [done|by right].
Qed.

(** One download: nothing is logged when the request, the opening of
    the cache file or the reading of the response fails; otherwise the
    archive is fetched and bound to the record, whatever the
    verification then says. *)
Lemma downloadMod_effect s r :
  _archive (get s r) = None ->
  evolves (fun x => x = r) s (_downloadMod env s r).2 /\
  ((Patcher.trace (_downloadMod env s r).2 = Patcher.trace s /\
    exists e, (_downloadMod env s r).1 = inl e) \/
   (exists p, Patcher.trace (_downloadMod env s r).2 = Patcher.trace s ++ [Fetched r p] /\
              _archive (get (_downloadMod env s r).2 r) = Some p /\
              writable env p = true)).
Proof.
  intros Hnone. unfold _downloadMod.
  destruct (net env _) as [e|e|body].
  { split; [apply evolves_refl|]. left. split; [done|by eexists]. }
  { destruct (write_file env _ _ s) as [s1|] eqn:E.
    - apply write_file_Some in E as [-> Hw]. split; [by apply evolves_heap|].
      left. split; [done|by eexists].
    - split; [apply evolves_refl|]. left. split; [done|by eexists]. }
  destruct (write_file env _ _ s) as [s1|] eqn:E.
  2:{ split; [apply evolves_refl|]. left. split; [done|by eexists]. }
  apply write_file_Some in E as [-> Hw].
  set (p := path_join (Patcher.download_cache s) (_getArchiveName (get s r))) in *.
  set (s2 := upd r (set_archive (Some p)) _).
  assert (evolves (fun x => x = r) s s2) as Hev.
  { intros r'. unfold s2. rewrite get_upd. destruct (decide (r = r')) as [<-|Hne].
    - change (get (emit _ _) r) with (get s r).
      split; [by destruct (get s r)|]. split; [|done]. intros q. by rewrite Hnone.
    - change (get (emit _ _) r') with (get s r'). split; [apply same_data_refl|done]. }
  assert (Patcher.trace s2 = Patcher.trace s ++ [Fetched r p]) as Htr by reflexivity.
  assert (_archive (get s2 r) = Some p) as Harch.
  { unfold s2. rewrite get_upd_eq. by destruct (get _ r). }
  destruct (_verifyArchive env s2 r p); cbn [fst snd];
    (split; [done|]); right; by exists p.
Qed.

(** Phase 3 as a whole. *)
Lemma download_all_effect (todo install : list ref) (s : Patcher.t) :
  (forall r, occurrences r todo <= occurrences r install)%nat ->
  exists (l : list ref) (s' : Patcher.t) (evs : list event),
    download_all env todo install s = (inr l, s') /\
    Patcher.trace s' = Patcher.trace s ++ evs /\
    Forall (fun e => phase_of e = Downloading /\ subject e ∈ todo) evs /\
    evolves (fun x => x ∈ todo) s s' /\
    (forall r p, Fetched r p ∈ evs ->
                 _archive (get s' r) = Some p /\ writable env p = true) /\
    (NoDup todo -> NoDup install -> (forall r, r ∈ todo -> r ∈ install) ->
     forall r, r ∈ l <-> r ∈ install /\ forall e, Failed Downloading r e ∉ evs).
Proof.
  revert install s. induction todo as [|r todo IH]; intros install s Hocc;
    cbn [download_all].
  { exists install, s, []. split; [done|]. split; [by rewrite app_nil_r|].
    split; [constructor|]. split; [apply evolves_refl|]. split.
    - intros r p H. inversion H.
    - intros _ _ _ r. split; [|by intros [? _]]. intros Hr. split; [done|].
      intros e H. inversion H. }
  assert (forall y, occurrences y todo <= occurrences y install)%nat as Hocc'.
  { intros y. specialize (Hocc y). rewrite occurrences_cons in Hocc. lia. }
  destruct (_archive (get s r)) as [q|] eqn:Harch.
  { destruct (IH install s Hocc') as (l & s' & evs & -> & T & Hph & Hev & Hf & Hex).
    exists l, s', evs. split; [done|]. split; [done|]. split; [|split; [|split; [done|]]].
    - eapply Forall_impl; [exact Hph|]. intros e [? ?]. split; [done|by right].
    - eapply evolves_weaken; [|exact Hev]. intros ? ?. by right.
    - intros [_ Hnd]%NoDup_cons Hni Hsub. apply Hex; [done|done|].
      intros y Hy. apply Hsub. by right. }
  destruct (downloadMod_effect s r Harch) as [Hev1 Hcase].
  destruct (_downloadMod env s r) as [[x|?] s1]; cbn [fst snd] in *.
  - destruct (list_remove_is_Some r install) as [install' Hrm].
    { specialize (Hocc r). rewrite occurrences_cons, decide_True in Hocc by done. lia. }
    rewrite Hrm.
    destruct (IH install' (emit (Failed Downloading r x) s1))
      as (l & s' & e2 & -> & T & Hph & Hev & Hf & Hex).
    { intros y. specialize (Hocc y). rewrite occurrences_cons in Hocc.
      rewrite (list_remove_occurrences _ _ _ Hrm y) in Hocc.
      destruct (decide (r = y)); lia. }
    assert (exists e1, Patcher.trace s1 = Patcher.trace s ++ e1 /\
              (e1 = [] \/ exists p, e1 = [Fetched r p] /\ _archive (get s1 r) = Some p /\
                                    writable env p = true)) as (e1 & T1 & He1).
    { destruct Hcase as [[-> _]|(p & -> & ? & ?)].
      - exists []. rewrite app_nil_r. split; [done|by left].
      - exists [Fetched r p]. split; [done|]. right. by exists p. }
    assert (evolves (fun y => y ∈ r :: todo) s s') as Hev'.
    { eapply evolves_trans; [eapply evolves_weaken; [|exact Hev1]|].
      { intros ? ->. by left. }
      eapply evolves_trans;
        [by apply (evolves_heap _ s1 (emit (Failed Downloading r x) s1))|].
      eapply evolves_weaken; [|exact Hev]. intros ? ?. by right. }
    exists l, s', (e1 ++ Failed Downloading r x :: e2).
    split; [done|]. split; [|split; [|split; [done|split]]].
    + rewrite T. cbn. rewrite T1, <- !app_assoc. reflexivity.
    + apply Forall_app. split.
      * destruct He1 as [->|(p & -> & _)]; [constructor|].
        repeat constructor.
      * constructor; [split; [done|by left]|].
        eapply Forall_impl; [exact Hph|]. intros e [? ?]. split; [done|by right].
    + intros r' p [Hin|Hin]%elem_of_app.
      * destruct He1 as [->|(p0 & -> & Ha & Hw)]; [inversion Hin|].
        apply list_elem_of_singleton in Hin as [= -> ->]. split; [|done].
        apply (Hev r). change (get (emit _ s1) r) with (get s1 r). done.
      * apply elem_of_cons in Hin as [[=]|Hin]. by apply Hf.
    + intros [Hr Hnd]%NoDup_cons Hni Hsub r'.
      assert (forall y, y ∈ install' <-> y ∈ install /\ y <> r) as Hin'.
      { intros y. split.
        - intros Hy. split; [by eapply list_remove_elem_of|].
          intros ->. by eapply list_remove_NoDup.
        - intros [Hy Hne]. by eapply list_remove_others. }
      assert (NoDup install') as Hni'.
      { clear -Hni Hrm. revert install' Hrm. induction install as [|z install IHi];
          intros install'; cbn [Py.list_remove]; [discriminate|].
        apply NoDup_cons in Hni as [Hz Hni].
        destruct (decide (r = z)); [by intros [= <-]|].
        destruct (Py.list_remove r install) as [l0|] eqn:E0; [|discriminate].
        intros [= <-]. apply NoDup_cons. split; [|by apply IHi].
        intros Hz'. apply Hz. by eapply list_remove_elem_of. }
      rewrite (Hex Hnd Hni'); [|intros y Hy; apply Hin'; split;
        [apply Hsub; by right|intros ->; done]].
      rewrite Hin'. split.
      * intros [[Hi Hne] Hnf]. split; [done|]. intros e [Hin|Hin]%elem_of_app.
        { destruct He1 as [->|(p & -> & _)]; [inversion Hin|].
          by apply list_elem_of_singleton in Hin. }
        apply elem_of_cons in Hin as [[= -> _]|Hin]; [done|]. by apply (Hnf e).
      * intros [Hi Hnf]. split; [split; [done|]|].
        { intros ->. apply (Hnf x). apply elem_of_app. right. by left. }
        intros e Hin. apply (Hnf e). apply elem_of_app. right. by right.
  - destruct Hcase as [[_ [e [=]]]|(p & T1 & Ha & Hw)].
    destruct (IH install s1 Hocc') as (l & s' & e2 & -> & T & Hph & Hev & Hf & Hex).
    exists l, s', (Fetched r p :: e2).
    split; [done|]. split; [|split; [|split; [|split]]].
    + rewrite T, T1, <- app_assoc. reflexivity.
    + constructor; [split; [done|by left]|].
      eapply Forall_impl; [exact Hph|]. intros e [? ?]. split; [done|by right].
    + eapply evolves_trans; [eapply evolves_weaken; [|exact Hev1]|].
      { intros ? ->. by left. }
      eapply evolves_weaken; [|exact Hev]. intros ? ?. by right.
    + intros r' p' [[= -> ->]|Hin]%elem_of_cons; [|by apply Hf].
      split; [|done]. by apply (Hev r).
    + intros [Hr Hnd]%NoDup_cons Hni Hsub r'.
      rewrite (Hex Hnd Hni); [|intros y Hy; apply Hsub; by right].
      split; intros [Hi Hnf]; (split; [done|]); intros e Hin.
      * apply elem_of_cons in Hin as [[=]|Hin]. by apply (Hnf e).
      * apply (Hnf e). by right.
Qed.

End Phases.

Section Run.

Variable env : Env.

Lemma substitute_remotes_ext s s' l :
  Patcher.heap s' = Patcher.heap s -> Patcher.remote s' = Patcher.remote s ->
  substitute_remotes s' l = substitute_remotes s l.
Proof.
  intros Hh Hr. unfold substitute_remotes. rewrite Hr.
  assert (forall r, get s' r = get s r) as Hget by (intros r; unfold get; by rewrite Hh).
  induction l as [|x l IH]; [done|]. cbn [omap list_omap].
  rewrite Hget, (find_name_ext s s') by (intros r; by rewrite Hget).
  fold (omap (fun md => find_name s' (Patcher.remote s) (name (get s' md))) l).
  fold (omap (fun md => find_name s (Patcher.remote s) (name (get s md))) l).
  by rewrite IH.
Qed.

(** The whole run, phase by phase. *)
Lemma patch_effect s :
  exists e1 e2 e3 s4,
    events_of env s = e1 ++ e2 ++ e3 /\
    Forall (fun e => phase_of e = Uninstalling /\
                     subject e ∈ Patcher.need_uninstall s ++ Patcher.need_update s) e1 /\
    Forall (fun e => phase_of e = Downloading /\ subject e ∈ assembled s) e2 /\
    Forall (fun e => phase_of e = Installing /\ subject e ∈ install_set env s) e3 /\
    evolves (fun r => r ∈ assembled s) s (patch env s).2 /\
    (forall r, r ∈ install_set env s -> r ∈ assembled s) /\
    (forall r p, Fetched r p ∈ e2 ->
       _archive (get (patch env s).2 r) = Some p /\ writable env p = true) /\
    (NoDup (assembled s) ->
     forall r, r ∈ install_set env s <->
               r ∈ assembled s /\ forall e, Failed Downloading r e ∉ e2) /\
    (patch env s).2 = cleanup env s4 /\
    Patcher.download_cache s4 = Patcher.download_cache s.
Proof.
  unfold events_of, install_set, downloaded, patch.
  destruct (uninstall_all_events env (Patcher.need_uninstall s ++ Patcher.need_update s) s)
    as (e1 & T1 & H1).
  destruct (uninstall_all_run env (Patcher.need_uninstall s ++ Patcher.need_update s) s)
    as (? & [St1 _] & _).
  pose proof (uninstall_all_heap env (Patcher.need_uninstall s ++ Patcher.need_update s) s)
    as Hh1.
  set (s1 := uninstall_all env _ s) in *.
  assert (substitute_remotes s1 (Patcher.need_update s1) ++ Patcher.need_install s1
          = assembled s) as Hasm.
  { unfold assembled. rewrite (stable_need_update _ _ St1), (stable_need_install _ _ St1).
    f_equal. apply substitute_remotes_ext; [done|apply St1]. }
  rewrite Hasm.
  destruct (download_all_effect env (assembled s) (assembled s) s1)
    as (install & s3 & e2 & Hd & T2 & H2 & Ev2 & Hf & Hex); [done|].
  destruct (download_all_run env (assembled s) (assembled s) s1)
    as (install' & s3' & ? & Hd' & [St2 _] & _ & Hsub); [done|].
  rewrite Hd in Hd'. injection Hd' as <- <-. rewrite Hd. cbn [fst snd].
  set (core := filter (fun md => category (get s3 md) = CORE) install).
  set (generic := filter (fun md => category (get s3 md) <> CORE) install).
  destruct (install_all_run env core s3) as (e3 & [St3 T3] & H3 & _).
  pose proof (install_all_evolves env core s3) as Ev3.
  set (s4 := install_all env core s3) in *.
  destruct (install_all_run env generic s4) as (e4 & [St4 T4] & H4 & _).
  pose proof (install_all_evolves env generic s4) as Ev4.
  set (s5 := install_all env generic s4) in *.
  assert (evolves (fun r => r ∈ assembled s) s s5) as Ev.
  { eapply evolves_trans; [by apply evolves_heap|].
    eapply evolves_trans; [exact Ev2|].
    eapply evolves_trans; eapply evolves_weaken; [|exact Ev3| |exact Ev4];
      intros r [_ Hr]%list_elem_of_filter; by apply Hsub. }
  exists e1, e2, (e3 ++ e4), s5. split; [|split; [done|split; [done|split]]].
  - change (Patcher.trace (cleanup env s5)) with (Patcher.trace s5).
    rewrite T4, T3, T2, T1, <- !app_assoc. apply drop_app_length.
  - apply Forall_app. split.
    + eapply Forall_impl; [exact H3|]. intros e (r & Hr & He).
      apply installs_phase in He as [? ->]. split; [done|].
      by apply list_elem_of_filter in Hr as [_ ?].
    + eapply Forall_impl; [exact H4|]. intros e (r & Hr & He).
      apply installs_phase in He as [? ->]. split; [done|].
      by apply list_elem_of_filter in Hr as [_ ?].
  - split; [by apply (evolves_trans _ s s5 _ Ev), evolves_heap|].
    split; [done|]. split.
    { intros r p Hin. destruct (Hf r p Hin) as [Ha Hw]. split; [|done].
      change (get (cleanup env s5) r) with (get s5 r).
      destruct (Ev3 r) as (_ & K3 & _), (Ev4 r) as (_ & K4 & _). auto. }
    split.
    { intros Hnd. by apply Hex. }
    split; [done|].
    by rewrite (stable_download_cache _ _ St4), (stable_download_cache _ _ St3),
      (stable_download_cache _ _ St2), (stable_download_cache _ _ St1).
Qed.

End Run.

(** X6: [patch] changes nothing in a record but its archive binding and the
    flags [is_local], [is_remote] and [need_install]; in particular it
    never clears [need_update] or [need_uninstall].  A record outside
    the assembled install set is not changed at all. *)
Theorem patch_records (env : Env) (s : Patcher.t) (r : ref) :
  same_data (get s r) (get (patch env s).2 r) /\
  (r ∉ assembled s -> get (patch env s).2 r = get s r).
Proof.
  destruct (patch_effect env s) as (? & ? & ? & ? & _ & _ & _ & _ & Ev & _).
  destruct (Ev r) as (A & _ & C). done.
Qed.

Lemma patch_cache_gone (env : Env) (s : Patcher.t) (p : string) :
  is_child (Patcher.download_cache s) p = true ->
  writable env p = true ->
  Patcher.fs (patch env s).2 !! p = None.
Proof.
  intros Hc Hw.
  destruct (patch_effect env s) as (? & ? & ? & s4 & _ & _ & _ & _ & _ & _ & _ & _ & -> & Hdc).
  unfold cleanup. cbn [Patcher.fs Patcher.with_fs]. apply map_lookup_filter_None. right.
  intros c _. cbn [fst]. rewrite Hdc, Hc, Hw. done.
Qed.

(** X7: After [patch], no file that may be removed is left directly in the
    download cache. *)
Theorem patch_purges_cache (env : Env) (s : Patcher.t) (p : string) :
  is_child (Patcher.download_cache s) p = true ->
  writable env p = true ->
  Patcher.fs (patch env s).2 !! p = None.
Proof. exact (patch_cache_gone env s p). Qed.

Lemma patch_purges_cache_witness :
  Patcher.fs (patch (world (Some "good")) queued).2
    !! "/bs/.bsmm/cache/SongCore_2.0.0.zip"%string = None.
Proof.
  apply (patch_purges_cache (world (Some "good")) queued); reflexivity.
Defined.

(** X8: The events of a run come in three blocks: first events of the
    removal of records queued for uninstall or update, then events of the
    download of records of the assembled install set, then events of the
    installation of records of the install set that is left. *)
Theorem patch_phase_order (env : Env) (s : Patcher.t) :
  exists e1 e2 e3,
    events_of env s = e1 ++ e2 ++ e3 /\
    Forall (fun e => phase_of e = Uninstalling /\
                     subject e ∈ Patcher.need_uninstall s ++ Patcher.need_update s) e1 /\
    Forall (fun e => phase_of e = Downloading /\ subject e ∈ assembled s) e2 /\
    Forall (fun e => phase_of e = Installing /\ subject e ∈ install_set env s) e3 /\
    (forall r, r ∈ install_set env s -> r ∈ assembled s).
Proof.
  destruct (patch_effect env s) as (e1 & e2 & e3 & ? & H0 & H1 & H2 & H3 & _ & H4 & _).
  by exists e1, e2, e3.
Qed.

(** X9: When no record occurs twice in the assembled install set, phase 3
    drops exactly the records whose download was logged as failed: the
    install set that is left consists of the others. *)
Theorem patch_download_failures (env : Env) (s : Patcher.t) :
  NoDup (assembled s) ->
  forall r, r ∈ install_set env s <->
            r ∈ assembled s /\ forall x, Failed Downloading r x ∉ events_of env s.
Proof.
  intros Hnd r.
  destruct (patch_effect env s) as (e1 & e2 & e3 & ? & -> & H1 & _ & H3 & _ & _ & _ & Hex & _).
  rewrite (Hex Hnd r). split; intros [Ha Hnf]; (split; [done|]); intros y Hin.
  - apply (Hnf y). apply elem_of_app in Hin as [Hin|[Hin|Hin]%elem_of_app]; [|done|].
    + rewrite Forall_forall in H1. by destruct (H1 _ Hin).
    + rewrite Forall_forall in H3. by destruct (H3 _ Hin).
  - apply (Hnf y). apply elem_of_app. right. apply elem_of_app. by left.
Qed.

Lemma patch_download_failures_witness :
  NoDup (assembled queued) /\
  (0%nat ∈ install_set (world None) queued <->
   0%nat ∈ assembled queued /\
   forall x, Failed Downloading 0%nat x ∉ events_of (world None) queued).
Proof.
  assert (NoDup (assembled queued)) as Hnd.
  { vm_compute. repeat constructor. intros H. inversion H. }
  split; [exact Hnd|]. apply (patch_download_failures (world None) queued Hnd).
Defined.

(** X10: An archive fetched during a run stays bound to its record, and the
    clean-up of the same run removes it from the cache: right after
    [patch], installing that record again fails with "Missing archive."
    (and phase 3 of a later run would skip the download, the record being
    bound). *)
Theorem fetched_archive_purged (env : Env) (s : Patcher.t) (r : ref) (p : string) :
  Fetched r p ∈ events_of env s ->
  is_child (Patcher.download_cache s) p = true ->
  _archive (get (patch env s).2 r) = Some p /\
  Patcher.fs (patch env s).2 !! p = None /\
  _installMod env (patch env s).2 r = (inl (RuntimeError "Missing archive."), (patch env s).2).
Proof.
  intros Hin Hc.
  destruct (patch_effect env s) as (e1 & e2 & e3 & ? & E & H1 & _ & H3 & _ & _ & Hf & _).
  rewrite E in Hin.
  assert (Fetched r p ∈ e2) as Hin2.
  { apply elem_of_app in Hin as [Hin|[Hin|Hin]%elem_of_app]; [|done|].
    - rewrite Forall_forall in H1. by destruct (H1 _ Hin).
    - rewrite Forall_forall in H3. by destruct (H3 _ Hin). }
  destruct (Hf r p Hin2) as [Ha Hw].
  pose proof (patch_cache_gone env s p Hc Hw) as Hnone.
  split; [done|]. split; [done|].
  unfold _installMod. by rewrite Ha, Hnone.
Qed.

Lemma fetched_archive_purged_witness :
  _archive (get (patch (world (Some "good")) queued).2 0%nat)
    = Some "/bs/.bsmm/cache/SongCore_2.0.0.zip"%string /\
  Patcher.fs (patch (world (Some "good")) queued).2
    !! "/bs/.bsmm/cache/SongCore_2.0.0.zip"%string = None /\
  _installMod (world (Some "good")) (patch (world (Some "good")) queued).2 0%nat
    = (inl (RuntimeError "Missing archive."), (patch (world (Some "good")) queued).2).
Proof.
  apply (fetched_archive_purged (world (Some "good")) queued 0%nat).
  - vm_compute. by left.
  - reflexivity.
Defined.

(** ** Installing a package *)

(** X11: When [_installMod] returns, the record is flagged local, not remote
    and not waiting for installation, and its manifest is on disk under
    the file name made of its name and version; read back with
    [fromSpecFile] the manifest gives these flags as [1], [0], [0], the
    name, version, files and dependencies of the record, and the
    category [OTHER] whatever the category of the record was. *)
Theorem installMod_success (env : Env) (s s' : Patcher.t) (spec : ref) :
  _installMod env s spec = (inr tt, s') ->
  is_local (get s' spec) = FBool true /\
  is_remote (get s' spec) = FBool false /\
  need_install (get s' spec) = FBool false /\
  Patcher.fs s' !! path_join (Patcher.manifest_cache s) (_getSpecFileName (get s spec))
    = Some (Document (writeSpecFile (get s' spec))) /\
  exists m,
    fromSpecFile (writeSpecFile (get s' spec)) = inr m /\
    name m = name (get s spec) /\ version m = version (get s spec) /\
    files m = files (get s spec) /\ dependencies m = dependencies (get s spec) /\
    is_local m = FInt 1 /\ is_remote m = FInt 0 /\ need_install m = FInt 0 /\
    category m = OTHER.
Proof.
  unfold _installMod. destruct (Patcher.fs s !! _); [|discriminate].
  destruct (open_zip env s _) as [archive|]; [|discriminate].
  pose proof (extract_members_heap env spec (infolist archive) s) as Hh.
  destruct (extract_members_run env spec (infolist archive) s) as (? & [St _] & _).
  destruct (extract_members env spec (infolist archive) s) as [[ex|?] s1];
    cbn [snd] in *; [discriminate|].
  set (s2 := upd spec (set_need_install (FBool false)) _).
  assert (get s2 spec = set_need_install (FBool false)
            (set_is_local (FBool true) (set_is_remote (FBool false) (get s spec)))) as Hget.
  { unfold s2. rewrite !get_upd_eq. do 3 f_equal. unfold get. by rewrite Hh. }
  assert (Patcher.manifest_cache s2 = Patcher.manifest_cache s) as Hmc
    by apply (stable_manifest_cache _ _ St).
  unfold _writeSpec. rewrite Hmc, Hget, getSpecFileName_flags.
  destruct (write_file env _ _ s2) as [s3|] eqn:E; [|discriminate].
  apply write_file_Some in E as [-> _]. intros [= <-].
  change (get (emit _ (Patcher.with_fs _ s2)) spec) with (get s2 spec). rewrite Hget.
  split; [by destruct (get s spec)|]. split; [by destruct (get s spec)|].
  split; [by destruct (get s spec)|]. split.
  { cbn [emit Patcher.with_trace Patcher.with_fs Patcher.fs]. apply lookup_insert_eq. }
  eexists. split; [apply fromSpecFile_writeSpecFile|].
  by destruct (get s spec).
Qed.

Lemma installMod_success_witness :
  is_local (get (_installMod (world (Some "good")) queued_fetched 0%nat).2 0%nat)
    = FBool true /\
  is_remote (get (_installMod (world (Some "good")) queued_fetched 0%nat).2 0%nat)
    = FBool false /\
  need_install (get (_installMod (world (Some "good")) queued_fetched 0%nat).2 0%nat)
    = FBool false /\
  Patcher.fs (_installMod (world (Some "good")) queued_fetched 0%nat).2
    !! path_join (Patcher.manifest_cache queued_fetched)
         (_getSpecFileName (get queued_fetched 0%nat))
    = Some (Document (writeSpecFile
        (get (_installMod (world (Some "good")) queued_fetched 0%nat).2 0%nat))) /\
  exists m,
    fromSpecFile (writeSpecFile
      (get (_installMod (world (Some "good")) queued_fetched 0%nat).2 0%nat)) = inr m /\
    name m = name (get queued_fetched 0%nat) /\
    version m = version (get queued_fetched 0%nat) /\
    files m = files (get queued_fetched 0%nat) /\
    dependencies m = dependencies (get queued_fetched 0%nat) /\
    is_local m = FInt 1 /\ is_remote m = FInt 0 /\ need_install m = FInt 0 /\
    category m = OTHER.
Proof.
  apply (installMod_success (world (Some "good")) queued_fetched).
  vm_compute. reflexivity.
Defined.

(** ** The dependency closure *)

Lemma grows_find_local s s' l n :
  grows s s' l -> is_Some (find_name s (Patcher.local s) n) ->
  is_Some (find_name s' (Patcher.local s') n).
Proof.
  intros G [x Hx]. rewrite (grows_local _ _ _ G), find_name_app.
  rewrite (find_name_ext s s') by apply (grows_name _ _ _ G). rewrite Hx. by eexists.
Qed.

Lemma grows_find_remote s s' l n :
  grows s s' l -> find_name s' (Patcher.remote s') n = find_name s (Patcher.remote s) n.
Proof.
  intros G. rewrite (grows_remote _ _ _ G). apply find_name_ext, (grows_name _ _ _ G).
Qed.

Lemma grows_satisfied s s' l r : grows s s' l -> satisfied s r -> satisfied s' r.
Proof.
  intros G H dep Hdep. rewrite (grows_dependencies _ _ _ G) in Hdep.
  destruct (H dep Hdep) as [Hl|Hr].
  - left. by eapply grows_find_local.
  - right. by rewrite (grows_find_remote _ _ _ _ G).
Qed.

Lemma grows_unique s s' l l' : grows s s' l -> grows s s' l' -> l = l'.
Proof.
  intros G G'. pose proof (grows_local _ _ _ G) as H. rewrite (grows_local _ _ _ G') in H.
  by apply app_inv_head in H.
Qed.

Lemma deps_loop_closed fuel spec deps u u' :
  (forall s md src rv s',
     addMod fuel s md src = Some (rv, s') ->
     find_name s (Patcher.local s) (name (get s md)) = None ->
     forall l, grows s s' l -> forall r, r ∈ l -> satisfied s' r) ->
  deps_loop (addMod fuel) spec deps u = Some u' ->
  exists l, grows u u' l /\
            (forall r, r ∈ l -> satisfied u' r) /\
            (forall dep, dep ∈ deps ->
               is_Some (find_name u' (Patcher.local u') (dep_name dep)) \/
               find_name u' (Patcher.remote u') (dep_name dep) = None).
Proof.
  intros Hrec. revert u. induction deps as [|depend deps IH]; intros u; cbn [deps_loop].
  { intros [= <-]. exists []. split; [apply grows_refl|].
    split; intros ? H; inversion H. }
  destruct (find_name u (Patcher.local u) (dep_name depend)) as [x|] eqn:Hl.
  { intros H. destruct (IH u H) as (l & G & Hsat & Hdeps). exists l.
    split; [done|]. split; [done|]. intros dep [->|Hd]%elem_of_cons; [|by apply Hdeps].
    left. eapply grows_find_local; [exact G|]. rewrite Hl. by eexists. }
  destruct (find_name u (Patcher.remote u) (dep_name depend)) as [md|] eqn:Hr.
  2:{ intros H. destruct (IH u H) as (l & G & Hsat & Hdeps). exists l.
      split; [done|]. split; [done|]. intros dep [->|Hd]%elem_of_cons; [|by apply Hdeps].
      right. by rewrite (grows_find_remote _ _ _ _ G). }
  pose proof (find_name_Some _ _ _ _ Hr) as [_ Hname].
  destruct (addMod fuel u md (Some spec)) as [[rv u1]|] eqn:E; [|discriminate].
  intros H. destruct (IH u1 H) as (l2 & G2 & Hsat2 & Hdeps2).
  pose proof (addMod_inv _ _ _ _ _ _ E) as Hinv. rewrite Hname, Hl in Hinv.
  destruct Hinv as [-> (l1 & G1)].
  set (chosen := default md (find_name u (Patcher.remote u) (dep_name depend))) in *.
  exists ((chosen :: l1) ++ l2). split; [by eapply grows_trans|]. split.
  - intros r [Hr1|Hr2]%elem_of_app; [|by apply Hsat2].
    eapply grows_satisfied; [exact G2|].
    eapply (Hrec u md (Some spec) RetTrue u1 E); [by rewrite Hname|exact G1|done].
  - intros dep [->|Hd]%elem_of_cons; [|by apply Hdeps2].
    left. eapply grows_find_local; [exact G2|].
    apply (find_name_is_Some u1 _ _ chosen).
    + rewrite (grows_local _ _ _ G1). apply elem_of_app. right. by left.
    + rewrite (grows_name _ _ _ G1). unfold chosen. rewrite Hr. cbn. done.
Qed.

Lemma addMod_closed fuel s spec src rv s' :
  addMod fuel s spec src = Some (rv, s') ->
  find_name s (Patcher.local s) (name (get s spec)) = None ->
  forall l, grows s s' l -> forall r, r ∈ l -> satisfied s' r.
Proof.
  revert s spec src rv s'. induction fuel as [|fuel IH]; intros s spec src rv s';
    [discriminate|].
  rewrite addMod_S. intros H Hl. rewrite Hl in H. cbv zeta in H.
  set (spec' := default spec (find_name s (Patcher.remote s) (name (get s spec)))) in *.
  destruct (deps_loop (addMod fuel) spec' _ _) as [u'|] eqn:E; [|discriminate].
  injection H as <- <-.
  destruct (deps_loop_closed fuel spec' _ _ _ IH E) as (l2 & G2 & Hsat & Hdeps).
  assert (grows s (queue_record s spec' src) [spec']) as G1.
  { apply grows_queue_record. unfold spec'. by rewrite chosen_name. }
  intros l G. rewrite (grows_unique _ _ _ _ G (grows_trans _ _ _ _ _ G1 G2)).
  intros r [->%list_elem_of_singleton|Hr]%elem_of_app; [|by apply Hsat].
  intros dep Hdep. apply Hdeps. by rewrite <- (grows_dependencies _ _ _ G2).
Qed.

(** X12: [addMod] computes a dependency closure: when it returns from a call
    on a name that was not in the local catalog, the records it appended
    to the local catalog are the records it appended to the install
    queue; each is flagged for installation, and each dependency of each
    of them now has a local record of its name, or else no remote record
    carries that name either. *)
Theorem addMod_closure (s s' : Patcher.t) (spec : ref) (src : option ref) (fuel : nat)
    (rv : retval) :
  addMod fuel s spec src = Some (rv, s') ->
  find_name s (Patcher.local s) (name (get s spec)) = None ->
  exists l,
    Patcher.local s' = Patcher.local s ++ l /\
    Patcher.need_install s' = Patcher.need_install s ++ l /\
    default spec (find_name s (Patcher.remote s) (name (get s spec))) ∈ l /\
    forall r, r ∈ l -> truthy (need_install (get s' r)) = true /\ satisfied s' r.
Proof.
  intros H Hl. pose proof (addMod_inv _ _ _ _ _ _ H) as Hinv. rewrite Hl in Hinv.
  destruct Hinv as [_ (l & G)]. eexists. split; [apply (grows_local _ _ _ G)|].
  split; [apply (grows_need_install _ _ _ G)|]. split; [by left|].
  intros r Hr. split; [by apply (grows_queued _ _ _ G)|].
  by eapply addMod_closed.
Qed.

Lemma addMod_closure_witness :
  exists l,
    Patcher.local cycle_queued = Patcher.local cycle ++ l /\
    Patcher.need_install cycle_queued = Patcher.need_install cycle ++ l /\
    default 0%nat (find_name cycle (Patcher.remote cycle) (name (get cycle 0%nat))) ∈ l /\
    forall r, r ∈ l -> truthy (need_install (get cycle_queued r)) = true /\
                       satisfied cycle_queued r.
Proof.
  apply (addMod_closure cycle cycle_queued 0%nat None 2 RetTrue); vm_compute; reflexivity.
Defined.

(** ** Staging and unstaging *)

Lemma list_remove_sublist (x : ref) l l' : Py.list_remove x l = Some l' -> l' `sublist_of` l.
Proof.
  revert l'. induction l as [|y l IH]; intros l'; cbn [Py.list_remove]; [discriminate|].
  destruct (decide (x = y)) as [->|Hne].
  - intros [= <-]. by apply sublist_cons.
  - destruct (Py.list_remove x l) as [l0|]; [|discriminate]. intros [= <-].
    apply sublist_skip. by apply IH.
Qed.

Lemma list_remove_middle (x : ref) a l :
  x ∉ a -> Py.list_remove x (a ++ x :: l) = Some (a ++ l).
Proof.
  induction a as [|y a IH]; intros Hx; cbn [Py.list_remove app].
  - by rewrite decide_True.
  - apply not_elem_of_cons in Hx as [Hne Hx]. rewrite decide_False by done.
    by rewrite IH.
Qed.

Lemma names_elem_of s l r : r ∈ l -> name (get s r) ∈ names s l.
Proof. intros H. unfold names. apply list_elem_of_fmap. by exists r. Qed.

Lemma new_name_not_local s r :
  find_name s (Patcher.local s) (name (get s r)) = None -> r ∉ Patcher.local s.
Proof. intros H Hin. apply find_name_None in H. by apply H, names_elem_of. Qed.

Lemma consistent_grows s s' l : consistent s -> grows s s' l -> consistent s'.
Proof.
  intros (Hn & Hq & Hin) G.
  assert (forall r, r ∈ l -> r ∉ Patcher.local s) as Hnew.
  { intros r Hr. apply new_name_not_local, (grows_new _ _ _ G), Hr. }
  split; [|split].
  - rewrite (names_ext s s') by apply (grows_name _ _ _ G).
    rewrite (grows_local _ _ _ G). unfold names. rewrite fmap_app. apply NoDup_app.
    split; [exact Hn|]. split; [|apply (grows_fresh _ _ _ G)].
    intros n Hn1 Hn2. apply list_elem_of_fmap in Hn2 as (r & -> & Hr).
    pose proof (grows_new _ _ _ G r Hr) as Hnone. apply find_name_None in Hnone.
    by apply Hnone.
  - rewrite (grows_need_install _ _ _ G). apply NoDup_app. split; [exact Hq|].
    split; [|eapply NoDup_fmap_1, (grows_fresh _ _ _ G)].
    intros r Hr Hl. apply (Hnew r Hl). by apply Hin.
  - intros r. rewrite (grows_need_install _ _ _ G), (grows_local _ _ _ G).
    intros [Hr|Hr]%elem_of_app.
    + destruct (Hin r Hr) as [? ?]. split; [apply elem_of_app; by left|].
      by apply (grows_keeps_queued _ _ _ G).
    + split; [apply elem_of_app; by right|]. by apply (grows_queued _ _ _ G).
Qed.

Lemma names_upd_need_install s spec v l :
  names (upd spec (set_need_install v) s) l = names s l.
Proof.
  apply names_ext. intros r. rewrite get_upd.
  destruct (decide (spec = r)) as [<-|]; [|done]. by destruct (get s spec).
Qed.

(** X13: The staging operations keep the bookkeeping consistent: when the
    local catalog holds no name twice and the install queue holds, once
    each, only records of the local catalog that are flagged
    [need_install], the same is true after [addMod] has returned and
    after [removeMod], whatever the latter returned or raised. *)
Theorem staging_keeps_consistent (s : Patcher.t) (spec : ref) (src : option ref)
    (fuel : nat) (force : bool) :
  consistent s ->
  (forall rv s', addMod fuel s spec src = Some (rv, s') -> consistent s') /\
  consistent (removeMod s spec force).2.
Proof.
  intros C. split.
  - intros rv s' H. apply addMod_inv in H.
    destruct (find_name s (Patcher.local s) (name (get s spec))) as [md|].
    + destruct H as [_ ->]. destruct C as (Hn & Hq & Hin).
      destruct (addMod_found_frame s md) as (El & Ei & _ & _ & En & Ef & _).
      split; [|split].
      * rewrite El. by rewrite (names_ext s (addMod_found s md)) by exact En.
      * by rewrite Ei.
      * intros r. rewrite Ei, El, Ef. apply Hin.
    + destruct H as [_ (l & G)]. by eapply consistent_grows.
  - destruct C as (Hn & Hq & Hin). unfold removeMod.
    destruct (truthy (need_install (get s spec))) eqn:Hni.
    + destruct (Py.list_remove spec (Patcher.need_install s)) as [l|] eqn:El; [|done].
      assert (forall r, r ∈ l ->
                r <> spec /\ r ∈ Patcher.local s /\ truthy (need_install (get s r)) = true)
        as Hl.
      { intros r Hr. split.
        - intros ->. by apply (list_remove_NoDup _ _ _ Hq El).
        - apply Hin. by eapply list_remove_elem_of. }
      cbn [Patcher.local upd Patcher.with_heap Patcher.with_need_install].
      destruct (Py.list_remove spec (Patcher.local s)) as [l'|] eqn:El'; cbn [snd].
      * split; [|split].
        -- change (NoDup (names (upd spec (set_need_install (FBool false)) s) l')).
           rewrite names_upd_need_install.
           assert (names s l' `sublist_of` names s (Patcher.local s)) as Hs
             by (unfold names; apply fmap_sublist; by eapply list_remove_sublist).
           eapply sublist_NoDup; eassumption.
        -- cbn. pose proof (list_remove_sublist _ _ _ El) as Hs.
           eapply sublist_NoDup; eassumption.
        -- intros r Hr. cbn in Hr. destruct (Hl r Hr) as (Hne & Hloc & Hf). split.
           ++ cbn. by eapply list_remove_others.
           ++ change (truthy (need_install
                        (get (upd spec (set_need_install (FBool false)) s) r)) = true).
              by rewrite get_upd_ne.
      * split; [|split].
        -- change (NoDup (names (upd spec (set_need_install (FBool false)) s)
                            (Patcher.local s))).
           by rewrite names_upd_need_install.
        -- cbn. pose proof (list_remove_sublist _ _ _ El) as Hs.
           eapply sublist_NoDup; eassumption.
        -- intros r Hr. cbn in Hr. destruct (Hl r Hr) as (Hne & Hloc & Hf). split; [done|].
           change (truthy (need_install
                     (get (upd spec (set_need_install (FBool false)) s) r)) = true).
           by rewrite get_upd_ne.
    + destruct (negb (truthy (is_local (get s spec)))); [done|].
      destruct (bool_decide _ && negb force); [done|]. cbn [snd].
      set (s0 := match Py.list_remove spec (Patcher.need_update s) with
                 | Some l => Patcher.with_need_update l s
                 | None => s
                 end).
      assert (Patcher.local s0 = Patcher.local s /\
              Patcher.need_install s0 = Patcher.need_install s /\
              forall r, get s0 r = get s r) as (E1 & E2 & E3).
      { unfold s0. by destruct (Py.list_remove spec (Patcher.need_update s)). }
      set (s3 := upd spec (set_need_update (FBool false))
                   (upd spec (set_need_install (FBool false))
                      (upd spec (set_need_uninstall (FBool true)) s0))).
      assert (forall r, name (get s3 r) = name (get s r)) as En.
      { intros r. unfold s3. destruct (decide (spec = r)) as [<-|Hne].
        - rewrite !get_upd_eq, E3. by destruct (get s spec).
        - rewrite !get_upd_ne by done. by rewrite E3. }
      assert (forall r, r <> spec -> get s3 r = get s r) as Eo.
      { intros r Hr. unfold s3. rewrite !get_upd_ne by done. apply E3. }
      change (consistent (Patcher.with_need_uninstall (Patcher.need_uninstall s3 ++ [spec]) s3)).
      split; [|split].
      * change (NoDup (names s3 (Patcher.local s0))). rewrite E1.
        by rewrite (names_ext s s3) by exact En.
      * change (NoDup (Patcher.need_install s0)). by rewrite E2.
      * intros r Hr. change (r ∈ Patcher.need_install s0) in Hr. rewrite E2 in Hr.
        destruct (Hin r Hr) as [Hloc Hf]. split.
        -- change (r ∈ Patcher.local s0). by rewrite E1.
        -- change (truthy (need_install (get s3 r)) = true). rewrite Eo; [done|].
           intros ->. congruence.
Qed.

Lemma staging_keeps_consistent_witness :
  consistent cycle_queued /\
  (forall rv s', addMod 3 cycle_queued 1%nat None = Some (rv, s') -> consistent s') /\
  consistent (removeMod cycle_queued 1%nat false).2.
Proof.
  assert (consistent cycle_queued) as C.
  { split; [|split].
    - apply (bool_decide_unpack _). vm_compute. reflexivity.
    - apply (bool_decide_unpack _). vm_compute. reflexivity.
    - apply Forall_forall. apply (bool_decide_unpack _). vm_compute. reflexivity. }
  split; [exact C|]. apply (staging_keeps_consistent cycle_queued 1%nat None 3 false C).
Defined.

(** X14: Unstaging right after staging: when [addMod] has queued a package
    whose name was new to the local catalog, [removeMod] on the queued
    record returns [True] with or without [force] and without looking at
    dependents; it takes that one record out of the local catalog and
    the install queue and clears its flag.  The records that [addMod]
    pulled in as dependencies stay in both lists, flagged as before. *)
Theorem addMod_then_removeMod (s s1 : Patcher.t) (spec : ref) (src : option ref)
    (fuel : nat) (rv : retval) (force : bool) :
  addMod fuel s spec src = Some (rv, s1) ->
  find_name s (Patcher.local s) (name (get s spec)) = None ->
  (forall r, r ∈ Patcher.need_install s -> r ∈ Patcher.local s) ->
  let spec' := default spec (find_name s (Patcher.remote s) (name (get s spec))) in
  exists l s2,
    Patcher.local s1 = Patcher.local s ++ spec' :: l /\
    Patcher.need_install s1 = Patcher.need_install s ++ spec' :: l /\
    removeMod s1 spec' force = (inr RetTrue, s2) /\
    Patcher.local s2 = Patcher.local s ++ l /\
    Patcher.need_install s2 = Patcher.need_install s ++ l /\
    need_install (get s2 spec') = FBool false /\
    (forall r, r <> spec' -> get s2 r = get s1 r) /\
    (forall r, r ∈ l -> truthy (need_install (get s2 r)) = true).
Proof.
  intros H Hnew Hsub spec'. pose proof (addMod_inv _ _ _ _ _ _ H) as Hinv.
  rewrite Hnew in Hinv. destruct Hinv as [_ (l & G)]. fold spec' in G.
  assert (spec' ∉ Patcher.local s) as Hnl.
  { apply new_name_not_local, (grows_new _ _ _ G). by left. }
  assert (spec' ∉ l) as Hnotin.
  { pose proof (grows_fresh _ _ _ G) as Hnd. apply NoDup_fmap_1 in Hnd.
    by apply NoDup_cons in Hnd as [? _]. }
  exists l. eexists. split; [apply (grows_local _ _ _ G)|].
  split; [apply (grows_need_install _ _ _ G)|].
  unfold removeMod. rewrite (grows_queued _ _ _ G spec') by by left.
  rewrite (grows_need_install _ _ _ G), list_remove_middle by (intros Hc; by apply Hnl, Hsub).
  cbn [Patcher.local upd Patcher.with_heap Patcher.with_need_install].
  rewrite (grows_local _ _ _ G), list_remove_middle by done.
  split; [reflexivity|]. split; [reflexivity|]. split; [reflexivity|].
  split; [|split].
  - change (need_install (get (upd spec' (set_need_install (FBool false)) s1) spec')
            = FBool false).
    rewrite get_upd_eq. by destruct (get s1 spec').
  - intros r Hr.
    change (get (upd spec' (set_need_install (FBool false)) s1) r = get s1 r).
    by rewrite get_upd_ne.
  - intros r Hr.
    change (truthy (need_install (get (upd spec' (set_need_install (FBool false)) s1) r))
            = true).
    rewrite get_upd_ne by (intros ->; by apply Hnotin).
    apply (grows_queued _ _ _ G). by right.
Qed.

Lemma addMod_then_removeMod_witness :
  exists l s2,
    Patcher.local libs_queued = Patcher.local libs ++ 1%nat :: l /\
    Patcher.need_install libs_queued = Patcher.need_install libs ++ 1%nat :: l /\
    removeMod libs_queued 1%nat false = (inr RetTrue, s2) /\
    Patcher.local s2 = Patcher.local libs ++ l /\
    Patcher.need_install s2 = Patcher.need_install libs ++ l /\
    need_install (get s2 1%nat) = FBool false /\
    (forall r, r <> 1%nat -> get s2 r = get libs_queued r) /\
    (forall r, r ∈ l -> truthy (need_install (get s2 r)) = true).
Proof.
  apply (addMod_then_removeMod libs libs_queued 1%nat None 2 RetTrue false).
  - vm_compute. reflexivity.
  - vm_compute. reflexivity.
  - intros r Hr. vm_compute in Hr. by apply elem_of_nil in Hr.
Defined.

(** The state after step three of [removeMod]. *)
Lemma removeMod_staged s spec force :
  truthy (need_install (get s spec)) = false ->
  truthy (is_local (get s spec)) = true ->
  (bool_decide (dependents s (name (get s spec)) <> []) && negb force = false) ->
  exists s1,
    removeMod s spec force = (inr RetTrue, s1) /\
    Patcher.local s1 = Patcher.local s /\
    Patcher.remote s1 = Patcher.remote s /\
    Patcher.need_install s1 = Patcher.need_install s /\
    Patcher.need_uninstall s1 = Patcher.need_uninstall s ++ [spec] /\
    Patcher.need_update s1 =
      default (Patcher.need_update s) (Py.list_remove spec (Patcher.need_update s)) /\
    get s1 spec =
      set_need_update (FBool false)
        (set_need_install (FBool false) (set_need_uninstall (FBool true) (get s spec))) /\
    (forall r, r <> spec -> get s1 r = get s r).
Proof.
  intros Hni Hloc Hgo. unfold removeMod. rewrite Hni, Hloc, Hgo. cbn [negb].
  set (s0 := match Py.list_remove spec (Patcher.need_update s) with
             | Some l => Patcher.with_need_update l s
             | None => s
             end).
  assert (Patcher.local s0 = Patcher.local s /\
          Patcher.remote s0 = Patcher.remote s /\
          Patcher.need_install s0 = Patcher.need_install s /\
          Patcher.need_uninstall s0 = Patcher.need_uninstall s /\
          Patcher.need_update s0 =
            default (Patcher.need_update s) (Py.list_remove spec (Patcher.need_update s)) /\
          forall r, get s0 r = get s r) as (E1 & E2 & E3 & E4 & E5 & E6).
  { unfold s0. by destruct (Py.list_remove spec (Patcher.need_update s)). }
  set (s3 := upd spec (set_need_update (FBool false))
               (upd spec (set_need_install (FBool false))
                  (upd spec (set_need_uninstall (FBool true)) s0))).
  exists (Patcher.with_need_uninstall (Patcher.need_uninstall s3 ++ [spec]) s3).
  split; [reflexivity|].
  split; [exact E1|]. split; [exact E2|]. split; [exact E3|].
  split; [change (Patcher.need_uninstall s0 ++ [spec] = Patcher.need_uninstall s ++ [spec]);
          by rewrite E4|].
  split; [exact E5|]. split.
  - change (get s3 spec = set_need_update (FBool false)
        (set_need_install (FBool false) (set_need_uninstall (FBool true) (get s spec)))).
    unfold s3. by rewrite !get_upd_eq, E6.
  - intros r Hr. change (get s3 r = get s r). unfold s3.
    rewrite !get_upd_ne by done. apply E6.
Qed.






(** ** The update check *)

Lemma checked_refl s : checked s s.
Proof.
  split; try done. intros r. exists (need_update (get s r)), (is_local (get s r)).
  by destruct (get s r).
Qed.

Lemma checked_trans s1 s2 s3 : checked s1 s2 -> checked s2 s3 -> checked s1 s3.
Proof.
  intros A B. split.
  - by rewrite (checked_local _ _ B), (checked_local _ _ A).
  - by rewrite (checked_remote _ _ B), (checked_remote _ _ A).
  - intros r. destruct (checked_data _ _ A r) as (a & b & Ea).
    destruct (checked_data _ _ B r) as (c & d & Eb). exists c, d. by rewrite Eb, Ea.
  - intros r H. by apply (checked_is_local _ _ B), (checked_is_local _ _ A).
  - intros r H. by apply (checked_need_update _ _ B), (checked_need_update _ _ A).
Qed.

Lemma checked_name s s' r : checked s s' -> name (get s' r) = name (get s r).
Proof. intros C. destruct (checked_data _ _ C r) as (a & b & ->). done. Qed.

Lemma checked_version s s' r : checked s s' -> version (get s' r) = version (get s r).
Proof. intros C. destruct (checked_data _ _ C r) as (a & b & ->). done. Qed.

Lemma outdated_ext s s' spec l : checked s s' -> outdated s' spec l = outdated s spec l.
Proof.
  intros C. unfold outdated. f_equal. apply list_filter_iff. intros r.
  by rewrite !(checked_name s s'), !(checked_version s s').
Qed.

Lemma outdated_cons s spec rspec l :
  outdated s spec (rspec :: l) = (outdated s spec [rspec] + outdated s spec l)%nat.
Proof.
  unfold outdated. change (rspec :: l) with ([rspec] ++ l). by rewrite filter_app, length_app.
Qed.

Lemma checked_upd_is_local s r : checked s (upd r (set_is_local (FBool true)) s).
Proof.
  split; try done.
  - intros x. rewrite get_upd. destruct (decide (r = x)) as [<-|].
    + exists (need_update (get s r)), (FBool true). by destruct (get s r).
    + exists (need_update (get s x)), (is_local (get s x)). by destruct (get s x).
  - intros x H. rewrite get_upd. by destruct (decide (r = x)) as [<-|].
  - intros x H. rewrite get_upd. destruct (decide (r = x)) as [<-|]; [|done].
    by destruct (get s r).
Qed.

Lemma checked_upd_need_update s r : checked s (upd r (set_need_update (FBool true)) s).
Proof.
  split; try done.
  - intros x. rewrite get_upd. destruct (decide (r = x)) as [<-|].
    + exists (FBool true), (is_local (get s r)). by destruct (get s r).
    + exists (need_update (get s x)), (is_local (get s x)). by destruct (get s x).
  - intros x H. rewrite get_upd. destruct (decide (r = x)) as [<-|]; [|done].
    by destruct (get s r).
  - intros x H. rewrite get_upd. by destruct (decide (r = x)) as [<-|].
Qed.

Lemma check_updates_cons spec rspec rest s :
  check_updates spec (rspec :: rest) s = check_updates spec rest (check_one spec rspec s).
Proof.
  cbn [check_updates]. unfold check_one.
  destruct (decide (name (get s spec) = name (get s rspec))); [|done].
  by destruct (Py.list_lt _ _).
Qed.

Lemma check_one_effect spec rspec s :
  checked s (check_one spec rspec s) /\
  Patcher.need_update (check_one spec rspec s) =
    Patcher.need_update s ++ replicate (outdated s spec [rspec]) spec /\
  (name (get s spec) = name (get s rspec) ->
   is_local (get (check_one spec rspec s) rspec) = FBool true) /\
  (outdated s spec [rspec] <> 0%nat ->
   need_update (get (check_one spec rspec s) spec) = FBool true) /\
  (forall r, r <> rspec -> is_local (get (check_one spec rspec s) r) = is_local (get s r)) /\
  (forall r, r <> spec -> need_update (get (check_one spec rspec s) r) = need_update (get s r)).
Proof.
  unfold check_one, outdated. rewrite filter_cons, filter_nil.
  destruct (decide (name (get s spec) = name (get s rspec))) as [Hn|Hn].
  2:{ rewrite decide_False by (intros [? _]; done). cbn [length replicate].
      rewrite app_nil_r. split; [apply checked_refl|]. by repeat split. }
  set (s1 := upd rspec (set_is_local (FBool true)) s).
  pose proof (checked_upd_is_local s rspec) as C1. fold s1 in C1.
  rewrite !(checked_version s s1) by done.
  assert (is_local (get s1 rspec) = FBool true) as Hl.
  { unfold s1. rewrite get_upd_eq. by destruct (get s rspec). }
  assert (forall r, need_update (get s1 r) = need_update (get s r)) as Hu.
  { intros r. unfold s1. rewrite get_upd. destruct (decide (rspec = r)) as [<-|]; [|done].
    by destruct (get s rspec). }
  assert (forall r, r <> rspec -> is_local (get s1 r) = is_local (get s r)) as Hil.
  { intros r Hr. unfold s1. by rewrite get_upd_ne. }
  destruct (Py.list_lt (version (get s spec)) (version (get s rspec))) eqn:Hlt.
  - rewrite decide_True by done. cbn [length replicate].
    set (s2 := upd spec (set_need_update (FBool true)) s1).
    pose proof (checked_upd_need_update s1 spec) as C2. fold s2 in C2.
    assert (checked s2 (Patcher.with_need_update (Patcher.need_update s2 ++ [spec]) s2))
      as C3 by (split; try done; apply (checked_data _ _ (checked_refl s2))).
    split; [eapply checked_trans; [exact C1|]; eapply checked_trans; [exact C2|exact C3]|].
    split; [done|].
    split; [intros _; apply (checked_is_local _ _ C2), Hl|].
    split; [intros _; change (need_update (get s2 spec) = FBool true); unfold s2;
            rewrite get_upd_eq; by destruct (get s1 spec)|].
    split.
    + intros r Hr. change (is_local (get s2 r) = is_local (get s r)). unfold s2.
      rewrite get_upd. destruct (decide (spec = r)) as [<-|]; [|by apply Hil].
      rewrite <- Hil by done. by destruct (get s1 spec).
    + intros r Hr. change (need_update (get s2 r) = need_update (get s r)). unfold s2.
      by rewrite get_upd_ne, Hu.
  - rewrite decide_False by (intros [_ ?]; done). cbn [length replicate].
    rewrite app_nil_r. split; [exact C1|]. split; [done|]. split; [done|].
    split; [done|]. split; [exact Hil|]. intros r _. apply Hu.
Qed.

Lemma check_updates_spec (s : Patcher.t) (spec : ref) (remotes : list ref) :
  checked s (check_updates spec remotes s) /\
  Patcher.need_update (check_updates spec remotes s) =
    Patcher.need_update s ++ replicate (outdated s spec remotes) spec /\
  (forall r, r ∈ remotes -> name (get s spec) = name (get s r) ->
             is_local (get (check_updates spec remotes s) r) = FBool true) /\
  (outdated s spec remotes <> 0%nat ->
   need_update (get (check_updates spec remotes s) spec) = FBool true) /\
  (forall r, r ∉ remotes ->
             is_local (get (check_updates spec remotes s) r) = is_local (get s r)) /\
  (forall r, r <> spec ->
             need_update (get (check_updates spec remotes s) r) = need_update (get s r)).
Proof.
  revert s. induction remotes as [|rspec rest IH]; intros s.
  { cbn [check_updates]. unfold outdated. rewrite filter_nil. cbn [length replicate].
    rewrite app_nil_r. split; [apply checked_refl|]. split; [done|].
    split; [intros r H; by apply elem_of_nil in H|]. by repeat split. }
  rewrite check_updates_cons.
  destruct (check_one_effect spec rspec s) as (C1 & Q1 & L1 & U1 & I1 & N1).
  destruct (IH (check_one spec rspec s)) as (C2 & Q2 & L2 & U2 & I2 & N2).
  rewrite (outdated_ext s) in Q2, U2 by done.
  split; [by eapply checked_trans|].
  split.
  { rewrite Q2, Q1, (outdated_cons s spec rspec rest), replicate_add. by rewrite <- app_assoc. }
  split; [|split; [|split]].
  - intros r [->|Hr]%elem_of_cons Hn.
    + by apply (checked_is_local _ _ C2), L1.
    + apply L2; [done|]. rewrite !(checked_name s (check_one spec rspec s)) by done.
      exact Hn.
  - rewrite outdated_cons. intros Hk.
    destruct (decide (outdated s spec [rspec] = 0%nat)) as [Hz|Hz].
    + apply U2. lia.
    + by apply (checked_need_update _ _ C2), U1.
  - intros r [Hne Hr]%not_elem_of_cons. rewrite I2 by done. by apply I1.
  - intros r Hr. rewrite N2 by done. by apply N1.
Qed.

(** X16: The update check of one installed record against the remote
    catalog: the record is appended to the update queue once for every
    remote record of its name whose version compares greater, so twice
    when the listing offers two newer releases; it is flagged
    [need_update] as soon as there is one, and every remote record of
    its name is flagged [is_local].  Catalogs and all other fields of
    all records are kept, and no flag is cleared. *)
Theorem check_updates_effect (s : Patcher.t) (spec : ref) (remotes : list ref) :
  checked s (check_updates spec remotes s) /\
  Patcher.need_update (check_updates spec remotes s) =
    Patcher.need_update s ++ replicate (outdated s spec remotes) spec /\
  (forall r, r ∈ remotes -> name (get s spec) = name (get s r) ->
             is_local (get (check_updates spec remotes s) r) = FBool true) /\
  (outdated s spec remotes <> 0%nat ->
   need_update (get (check_updates spec remotes s) spec) = FBool true) /\
  (forall r, r ∉ remotes ->
             is_local (get (check_updates spec remotes s) r) = is_local (get s r)) /\
  (forall r, r <> spec ->
             need_update (get (check_updates spec remotes s) r) = need_update (get s r)).
Proof. exact (check_updates_spec s spec remotes). Qed.

Lemma update_pass_effect l s :
  let s' := foldl (fun st spec => check_updates spec (Patcher.remote st) st) s l in
  checked s s' /\
  Patcher.need_update s' =
    Patcher.need_update s ++
    (l ≫= fun spec => replicate (outdated s spec (Patcher.remote s)) spec) /\
  (forall spec r, spec ∈ l -> r ∈ Patcher.remote s ->
                  name (get s spec) = name (get s r) -> is_local (get s' r) = FBool true) /\
  (forall spec, spec ∈ l -> outdated s spec (Patcher.remote s) <> 0%nat ->
                need_update (get s' spec) = FBool true).
Proof.
  revert s. induction l as [|x l IH]; intros s; cbn [foldl].
  { cbn. rewrite app_nil_r. split; [apply checked_refl|]. split; [done|].
    split; [intros ? ? H|intros ? H]; by apply elem_of_nil in H. }
  destruct (check_updates_spec s x (Patcher.remote s)) as (C1 & Q1 & L1 & U1 & _ & _).
  set (s1 := check_updates x (Patcher.remote s) s) in *.
  destruct (IH s1) as (C2 & Q2 & L2 & U2). cbv zeta.
  set (s' := foldl _ s1 l) in *.
  rewrite (checked_remote _ _ C1) in Q2, L2, U2.
  split; [by eapply checked_trans|]. split; [|split].
  - rewrite Q2, Q1, bind_cons, <- app_assoc. do 2 f_equal.
    apply list_bind_ext; [|done]. intros spec. by rewrite (outdated_ext s s1).
  - intros spec r [->|Hs]%elem_of_cons Hr Hn.
    + by apply (checked_is_local _ _ C2), L1.
    + apply (L2 spec r Hs Hr). by rewrite !(checked_name s s1).
  - intros spec [->|Hs]%elem_of_cons Hk.
    + by apply (checked_need_update _ _ C2), U1.
    + apply (U2 spec Hs). by rewrite (outdated_ext s s1).
Qed.

Section Refresh.

Variable env : Env.

(** X17: A refresh with the update check, when it returns: the install and
    uninstall queues are empty, and the update queue lists the local
    catalog in its order, each record once for every remote record of
    its name with a greater version: not at all when it is up to date or
    unknown to the listing, more than once when the listing has several
    newer records of that name.  A local record that is listed at all is
    flagged [need_update], and every remote record that shares the name
    of a local one is flagged [is_local]. *)
Theorem refreshMods_update_queue (s s' : Patcher.t) :
  refreshMods env s true = (inr tt, s') ->
  Patcher.need_install s' = [] /\
  Patcher.need_uninstall s' = [] /\
  Patcher.need_update s' =
    (Patcher.local s' ≫= fun spec => replicate (outdated s' spec (Patcher.remote s')) spec) /\
  (forall spec r, spec ∈ Patcher.local s' -> r ∈ Patcher.remote s' ->
                  name (get s' spec) = name (get s' r) -> is_local (get s' r) = FBool true) /\
  (forall spec, spec ∈ Patcher.local s' -> spec ∈ Patcher.need_update s' ->
                need_update (get s' spec) = FBool true).
Proof.
  intros H. pose proof (refreshMods_queues env s true) as (Q1 & Q2 & _).
  rewrite H in Q1, Q2. cbn [snd] in Q1, Q2. split; [exact Q1|]. split; [exact Q2|].
  unfold refreshMods in H.
  set (s0 := Patcher.with_need_update [] _) in H.
  pose proof (getLocal_queues env s0) as (_ & _ & L3).
  destruct (getLocal env s0) as [[e|?] s1]; [discriminate|]. cbn [snd] in L3.
  pose proof (getRemote_queues env s1) as (_ & _ & R3).
  destruct (getRemote env s1) as [[e|?] s2]; [discriminate|]. cbn [snd] in R3.
  cbn [negb] in H. injection H as <-.
  destruct (update_pass_effect (Patcher.local s2) s2) as (C & Q & L & U). cbv zeta in *.
  set (s' := foldl _ s2 (Patcher.local s2)) in *.
  rewrite R3, L3 in Q. change (Patcher.need_update s0) with (@nil ref) in Q.
  rewrite app_nil_l in Q.
  assert (Patcher.need_update s' =
          Patcher.local s' ≫= fun spec => replicate (outdated s' spec (Patcher.remote s')) spec)
    as Q'.
  { rewrite Q, (checked_local _ _ C), (checked_remote _ _ C).
    apply list_bind_ext; [|done]. intros spec. by rewrite (outdated_ext s2 s'). }
  split; [exact Q'|]. split.
  - intros spec r Hs Hr Hn. rewrite (checked_local _ _ C) in Hs.
    rewrite (checked_remote _ _ C) in Hr. rewrite !(checked_name s2 s') in Hn by done.
    by apply (L spec r).
  - intros spec Hs Hq. rewrite (checked_local _ _ C) in Hs. apply (U spec Hs).
    rewrite Q in Hq. apply list_elem_of_bind in Hq as (x & Hx & _).
    apply elem_of_replicate in Hx as [-> Hk]. exact Hk.
Qed.

End Refresh.

Lemma refreshMods_update_queue_witness :
  let s' := (refreshMods two_releases stale_install true).2 in
  Patcher.need_install s' = [] /\
  Patcher.need_uninstall s' = [] /\
  Patcher.need_update s' =
    (Patcher.local s' ≫= fun spec => replicate (outdated s' spec (Patcher.remote s')) spec) /\
  (forall spec r, spec ∈ Patcher.local s' -> r ∈ Patcher.remote s' ->
                  name (get s' spec) = name (get s' r) -> is_local (get s' r) = FBool true) /\
  (forall spec, spec ∈ Patcher.local s' -> spec ∈ Patcher.need_update s' ->
                need_update (get s' spec) = FBool true).
Proof.
  apply (refreshMods_update_queue two_releases stale_install). vm_compute. reflexivity.
Defined.

(** ** Loading the catalogs *)

Lemma alloc_get m s r :
  get (alloc m s).2 r = if decide (r = Patcher.next_ref s) then m else get s r.
Proof.
  unfold get, alloc. cbn. rewrite lookup_total_insert.
  destruct (decide (Patcher.next_ref s = r)) as [<-|Hne].
  - by rewrite decide_True.
  - by rewrite decide_False.
Qed.

Lemma load_listing_effect mods s :
  exists k,
    Patcher.remote (load_listing mods s).2 = Patcher.remote s ++ seq (Patcher.next_ref s) k /\
    Patcher.next_ref (load_listing mods s).2 = (Patcher.next_ref s + k)%nat /\
    Patcher.local (load_listing mods s).2 = Patcher.local s /\
    (forall r, (r < Patcher.next_ref s)%nat -> get (load_listing mods s).2 r = get s r) /\
    (forall i, (i < k)%nat ->
       exists entry, mods !! i = Some entry /\
         fromBeatMods entry (Patcher.app_type s)
         = inr (get (load_listing mods s).2 (Patcher.next_ref s + i)%nat)) /\
    ((load_listing mods s).1 = inr tt -> k = length mods) /\
    (forall e, (load_listing mods s).1 = inl e ->
       exists entry, mods !! k = Some entry /\
                     fromBeatMods entry (Patcher.app_type s) = inl e).
Proof.
  revert s. induction mods as [|md mods IH]; intros s; cbn [load_listing].
  { exists 0%nat. cbn. rewrite app_nil_r, Nat.add_0_r. repeat split; try done. lia. }
  destruct (fromBeatMods md (Patcher.app_type s)) as [e|spec] eqn:E.
  { exists 0%nat. cbn. rewrite app_nil_r, Nat.add_0_r. repeat split; try done; [lia|].
    intros e' [= <-]. by exists md. }
  change (let '(r, s') := alloc spec s in
          load_listing mods (Patcher.with_remote (Patcher.remote s' ++ [r]) s'))
    with (load_listing mods
            (Patcher.with_remote (Patcher.remote s ++ [Patcher.next_ref s]) (alloc spec s).2)).
  set (s1 := Patcher.with_remote _ (alloc spec s).2).
  assert (forall r, get s1 r = if decide (r = Patcher.next_ref s) then spec else get s r)
    as Hget by apply alloc_get.
  destruct (IH s1) as (k & Hr & Hn & Hl & Hold & Hnew & Hok & Herr).
  change (Patcher.next_ref s1) with (S (Patcher.next_ref s)) in *.
  change (Patcher.remote s1) with (Patcher.remote s ++ [Patcher.next_ref s]) in Hr.
  change (Patcher.app_type s1) with (Patcher.app_type s) in *.
  exists (S k). split; [by rewrite Hr, <- app_assoc|]. split; [lia|]. split; [exact Hl|].
  split; [|split; [|split]].
  - intros r Hlt. rewrite Hold by lia. rewrite Hget. rewrite decide_False by lia. done.
  - intros [|i] Hi.
    + exists md. split; [done|]. rewrite Nat.add_0_r, Hold by lia.
      by rewrite Hget, decide_True.
    + destruct (Hnew i) as (entry & He & Hf); [lia|]. exists entry. split; [done|].
      by replace (Patcher.next_ref s + S i)%nat with (S (Patcher.next_ref s) + i)%nat by lia.
  - intros H. cbn [length]. by rewrite Hok.
  - intros e H. by apply Herr.
Qed.

Section Remote.

Variable env : Env.

(** X18: [getRemote] empties the remote catalog before it asks for the
    listing, so a failed request leaves it empty.  Otherwise the catalog
    is rebuilt from new records, one per listing entry and in the order
    of the listing; an entry that cannot be converted ends the call with
    its exception and leaves the records made from the entries before
    it.  Records that existed before and the local catalog are not
    touched. *)
Theorem getRemote_effect (s : Patcher.t) :
  (listing env = None ->
   getRemote env s = (inl OSError, Patcher.with_remote [] s)) /\
  (forall mods, listing env = Some mods ->
     exists k,
       Patcher.remote (getRemote env s).2 = seq (Patcher.next_ref s) k /\
       Patcher.local (getRemote env s).2 = Patcher.local s /\
       (forall r, (r < Patcher.next_ref s)%nat -> get (getRemote env s).2 r = get s r) /\
       (forall i, (i < k)%nat ->
          exists entry, mods !! i = Some entry /\
            fromBeatMods entry (Patcher.app_type s)
            = inr (get (getRemote env s).2 (Patcher.next_ref s + i)%nat)) /\
       ((getRemote env s).1 = inr tt -> k = length mods) /\
       (forall e, (getRemote env s).1 = inl e ->
          exists entry, mods !! k = Some entry /\
                        fromBeatMods entry (Patcher.app_type s) = inl e)).
Proof.
  unfold getRemote. split.
  - by intros ->.
  - intros mods ->.
    destruct (load_listing_effect mods (Patcher.with_remote [] s))
      as (k & Hr & _ & Hl & Hold & Hnew & Hok & Herr).
    exists k. by repeat split.
Qed.

End Remote.

Lemma ltb_asym a b : String.ltb a b = true -> String.ltb b a = false.
Proof.
  unfold String.ltb. rewrite (String.compare_antisym b a).
  by destruct (String.compare a b).
Qed.

Lemma sort_insert_ordered s r l : ordered s l -> ordered s (sort_insert s r l).
Proof.
  induction l as [|a l IH]; cbn [sort_insert]; [done|]. intros Ho.
  destruct (String.ltb (name (get s r)) (name (get s a))) eqn:E.
  - split; [by apply ltb_asym|exact Ho].
  - destruct Ho as [Hab Ho]. split; [|by apply IH].
    destruct l as [|b l]; cbn [sort_insert]; [exact E|].
    by destruct (String.ltb (name (get s r)) (name (get s b))).
Qed.

Lemma sort_insert_perm s r l : sort_insert s r l ≡ₚ r :: l.
Proof.
  induction l as [|a l IH]; cbn [sort_insert]; [done|].
  destruct (String.ltb _ _); [done|]. rewrite IH. apply Permutation_swap.
Qed.

Lemma sort_by_name_spec s l : ordered s (sort_by_name s l) /\ sort_by_name s l ≡ₚ l.
Proof.
  unfold sort_by_name.
  assert (forall acc, ordered s acc ->
            ordered s (foldl (fun acc r => sort_insert s r acc) acc l) /\
            foldl (fun acc r => sort_insert s r acc) acc l ≡ₚ acc ++ l) as H.
  { induction l as [|x l IH]; intros acc Ho; cbn [foldl].
    - by rewrite app_nil_r.
    - destruct (IH (sort_insert s x acc)) as [H1 H2]; [by apply sort_insert_ordered|].
      split; [exact H1|]. rewrite H2, sort_insert_perm. cbn [app]. apply Permutation_middle. }
  by apply (H []).
Qed.

Lemma ordered_ext s s' l :
  (forall r, name (get s' r) = name (get s r)) -> ordered s l -> ordered s' l.
Proof.
  intros Hn. induction l as [|a l IH]; [done|]. intros [Hab Ho]. split; [|by apply IH].
  destruct l as [|b l]; [done|]. by rewrite !Hn.
Qed.

Lemma fromSpecFile_defaults d m :
  fromSpecFile d = inr m ->
  category m = OTHER /\ gameVersion m = [1; 0; 0] /\ _archive m = None /\ _source m = None.
Proof.
  unfold fromSpecFile.
  repeat (match goal with
          | |- res_bind ?x _ = inr _ -> _ =>
              destruct x; cbn [res_bind]; [discriminate|]
          end).
  cbv zeta. by intros [= <-].
Qed.

Section Local.

Variable env : Env.

Lemma load_manifests_effect entries s :
  exists new,
    Patcher.local (load_manifests env entries s).2 = Patcher.local s ++ new /\
    Patcher.remote (load_manifests env entries s).2 = Patcher.remote s /\
    (Patcher.next_ref s <= Patcher.next_ref (load_manifests env entries s).2)%nat /\
    NoDup new /\
    (forall r, (r < Patcher.next_ref s)%nat ->
               get (load_manifests env entries s).2 r = get s r) /\
    (forall r, r ∈ new ->
       (Patcher.next_ref s <= r)%nat /\
       truthy (ignore (get (load_manifests env entries s).2 r)) = false /\
       exists p c, (p, c) ∈ entries /\ Py.endswith p ".json" = true /\
                   res_bind (json_load env c) fromSpecFile
                   = inr (get (load_manifests env entries s).2 r)) /\
    ((load_manifests env entries s).1 = inr tt ->
     forall p c, (p, c) ∈ entries -> Py.endswith p ".json" = true ->
       exists m, res_bind (json_load env c) fromSpecFile = inr m /\
                 (truthy (ignore m) = false ->
                  exists r, r ∈ new /\ get (load_manifests env entries s).2 r = m)).
Proof.
  revert s. induction entries as [|[p c] entries IH]; intros s; cbn [load_manifests].
  { exists []. rewrite app_nil_r. split; [done|]. split; [done|]. split; [done|].
    split; [apply NoDup_nil_2|]. split; [done|].
    split; [intros r H; by apply elem_of_nil in H|].
    intros _ ? ? H. by apply elem_of_nil in H. }
  destruct (Py.endswith p ".json") eqn:Hjson.
  2:{ destruct (IH s) as (new & H1 & H2 & H3 & H4 & H5 & H6 & H7). exists new.
      split; [done|]. split; [done|]. split; [done|]. split; [done|]. split; [done|].
      split.
      - intros r Hr. destruct (H6 r Hr) as (? & ? & p' & c' & ? & ? & ?).
        split; [done|]. split; [done|]. exists p', c'. split; [by right|done].
      - intros Hok p' c' [[= -> ->]|Hin]%elem_of_cons Hj; [congruence|].
        by apply (H7 Hok p' c'). }
  destruct (res_bind (json_load env c) fromSpecFile) as [e|spec] eqn:Hload.
  { exists []. rewrite app_nil_r. cbn [fst snd]. split; [done|]. split; [done|].
    split; [done|]. split; [apply NoDup_nil_2|]. split; [done|].
    split; [intros r H; by apply elem_of_nil in H|]. discriminate. }
  destruct (truthy (ignore spec)) eqn:Hign.
  { destruct (IH s) as (new & H1 & H2 & H3 & H4 & H5 & H6 & H7). exists new.
    split; [done|]. split; [done|]. split; [done|]. split; [done|]. split; [done|].
    split.
    - intros r Hr. destruct (H6 r Hr) as (? & ? & p' & c' & ? & ? & ?).
      split; [done|]. split; [done|]. exists p', c'. split; [by right|done].
    - intros Hok p' c' [[= -> ->]|Hin]%elem_of_cons Hj; [|by apply (H7 Hok p' c')].
      exists spec. split; [done|]. congruence. }
  change (let '(r, s') := alloc spec s in
          load_manifests env entries (Patcher.with_local (Patcher.local s' ++ [r]) s'))
    with (load_manifests env entries
            (Patcher.with_local (Patcher.local s ++ [Patcher.next_ref s]) (alloc spec s).2)).
  set (s1 := Patcher.with_local _ (alloc spec s).2).
  assert (forall r, get s1 r = if decide (r = Patcher.next_ref s) then spec else get s r)
    as Hget by apply alloc_get.
  destruct (IH s1) as (new & H1 & H2 & H3 & H4 & H5 & H6 & H7).
  change (Patcher.next_ref s1) with (S (Patcher.next_ref s)) in *.
  change (Patcher.local s1) with (Patcher.local s ++ [Patcher.next_ref s]) in H1.
  assert (get (load_manifests env entries s1).2 (Patcher.next_ref s) = spec) as Hn.
  { rewrite H5 by lia. by rewrite Hget, decide_True. }
  exists (Patcher.next_ref s :: new). split; [by rewrite H1, <- app_assoc|].
  split; [exact H2|]. split; [lia|]. split; [|split; [|split]].
  - apply NoDup_cons. split; [|exact H4]. intros Hin. apply H6 in Hin as [? _]. lia.
  - intros r Hr. rewrite H5 by lia. rewrite Hget. by rewrite decide_False by lia.
  - intros r [->|Hr]%elem_of_cons.
    + split; [lia|]. rewrite Hn. split; [exact Hign|]. exists p, c. split; [by left|done].
    + destruct (H6 r Hr) as (? & ? & p' & c' & ? & ? & ?). split; [lia|].
      split; [done|]. exists p', c'. split; [by right|done].
  - intros Hok p' c' [[= -> ->]|Hin]%elem_of_cons Hj.
    + exists spec. split; [done|]. intros _. exists (Patcher.next_ref s).
      split; [by left|exact Hn].
    + destruct (H7 Hok p' c' Hin Hj) as (m & Hm & Hex). exists m. split; [done|].
      intros Hi. destruct (Hex Hi) as (r & Hr & Hg). exists r. split; [by right|done].
Qed.

(** X19: [getLocal], when it returns: the local catalog is rebuilt from new,
    pairwise distinct records.  Each of them was read from a file of the
    manifest directory whose name ends in [.json] and whose manifest is
    not set to [ignore], and every such file has its record (one that
    does not parse would have ended the call with its exception).  The
    catalog is ordered by name, and every record in it has the category
    [OTHER], whatever the package had in the listing.  Records that
    existed before and the remote catalog are not touched. *)
Theorem getLocal_catalog (s s' : Patcher.t) :
  getLocal env s = (inr tt, s') ->
  ordered s' (Patcher.local s') /\
  NoDup (Patcher.local s') /\
  (forall r, r ∈ Patcher.local s' ->
     (Patcher.next_ref s <= r)%nat /\
     truthy (ignore (get s' r)) = false /\
     category (get s' r) = OTHER /\
     exists p c, Patcher.fs s !! p = Some c /\
                 is_child (Patcher.manifest_cache s) p = true /\
                 Py.endswith p ".json" = true /\
                 res_bind (json_load env c) fromSpecFile = inr (get s' r)) /\
  (forall p c, Patcher.fs s !! p = Some c ->
     is_child (Patcher.manifest_cache s) p = true ->
     Py.endswith p ".json" = true ->
     exists m, res_bind (json_load env c) fromSpecFile = inr m /\
               (truthy (ignore m) = false ->
                exists r, r ∈ Patcher.local s' /\ get s' r = m)) /\
  (forall r, (r < Patcher.next_ref s)%nat -> get s' r = get s r) /\
  Patcher.remote s' = Patcher.remote s.
Proof.
  unfold getLocal.
  set (s0 := Patcher.with_local [] s).
  set (entries := filter _ (map_to_list (Patcher.fs s0))).
  assert (forall p c, (p, c) ∈ entries <->
            Patcher.fs s !! p = Some c /\ is_child (Patcher.manifest_cache s) p = true)
    as Hentries.
  { intros p c. unfold entries. rewrite list_elem_of_filter, elem_of_map_to_list. cbn.
    tauto. }
  destruct (load_manifests_effect entries s0) as (new & H1 & H2 & H3 & H4 & H5 & H6 & H7).
  destruct (load_manifests env entries s0) as [[e|[]] s1]; [discriminate|].
  cbn [fst snd] in *. intros [= <-].
  change (Patcher.local s0) with (@nil ref) in H1. rewrite app_nil_l in H1.
  destruct (sort_by_name_spec s1 (Patcher.local s1)) as [Ho Hp].
  set (l := sort_by_name s1 (Patcher.local s1)) in *.
  change (Patcher.local (Patcher.with_local l s1)) with l.
  assert (forall r, get (Patcher.with_local l s1) r = get s1 r) as Hg by done.
  split; [by apply (ordered_ext s1)|]. split; [by rewrite Hp, H1|]. split; [|split; [|split]].
  - intros r Hr. rewrite Hp, H1 in Hr. rewrite Hg.
    destruct (H6 r Hr) as (? & ? & p & c & Hin & ? & Hparse). apply Hentries in Hin as [? ?].
    split; [done|]. split; [done|]. split; [|by exists p, c].
    destruct (json_load env c) as [e|d]; cbn [res_bind] in Hparse; [discriminate|].
    by apply fromSpecFile_defaults in Hparse as [? _].
  - intros p c Hfs Hch Hj.
    destruct (H7 eq_refl p c) as (m & Hm & Hex); [by apply Hentries|done|].
    exists m. split; [done|]. intros Hi. destruct (Hex Hi) as (r & Hr & Hgr).
    exists r. split; [by rewrite Hp, H1|by rewrite Hg].
  - intros r Hr. rewrite Hg. by apply H5.
  - exact H2.
Qed.

End Local.

Lemma getLocal_catalog_witness :
  let s' := (getLocal two_releases stale_install).2 in
  ordered s' (Patcher.local s') /\
  NoDup (Patcher.local s') /\
  (forall r, r ∈ Patcher.local s' ->
     (Patcher.next_ref stale_install <= r)%nat /\
     truthy (ignore (get s' r)) = false /\
     category (get s' r) = OTHER /\
     exists p c, Patcher.fs stale_install !! p = Some c /\
                 is_child (Patcher.manifest_cache stale_install) p = true /\
                 Py.endswith p ".json" = true /\
                 res_bind (json_load two_releases c) fromSpecFile = inr (get s' r)) /\
  (forall p c, Patcher.fs stale_install !! p = Some c ->
     is_child (Patcher.manifest_cache stale_install) p = true ->
     Py.endswith p ".json" = true ->
     exists m, res_bind (json_load two_releases c) fromSpecFile = inr m /\
               (truthy (ignore m) = false ->
                exists r, r ∈ Patcher.local s' /\ get s' r = m)) /\
  (forall r, (r < Patcher.next_ref stale_install)%nat -> get s' r = get stale_install r) /\
  Patcher.remote s' = Patcher.remote stale_install.
Proof.
  apply (getLocal_catalog two_releases stale_install). vm_compute. reflexivity.
Defined.

(** ** Listing entries *)

Lemma assoc_dict_set k v kvs t :
  Dyn.assoc t (dict_set k v kvs) = if decide (k = t) then Some v else Dyn.assoc t kvs.
Proof.
  induction kvs as [|[k' v'] kvs IH]; cbn [dict_set Dyn.assoc].
  - destruct (decide (k = t)); done.
  - destruct (decide (k' = k)) as [->|Hne]; cbn [Dyn.assoc].
    + destruct (decide (k = t)); done.
    + destruct (decide (k' = t)) as [->|Hne'].
      * by rewrite decide_False by done.
      * exact IH.
Qed.

Lemma variant_cons t i entries :
  variant t (i :: entries) =
    match variant t entries with
    | Some j => Some j
    | None => if has_type t i then Some i else None
    end.
Proof.
  unfold variant. rewrite filter_cons. destruct (has_type t i) eqn:E.
  - rewrite decide_True by done. rewrite last_cons. by destruct (last _).
  - rewrite decide_False by (by intros ?). by destruct (last _).
Qed.

Lemma collect_downloads_assoc entries acc downloads t :
  collect_downloads entries acc = inr downloads ->
  Dyn.assoc t downloads =
    match variant t entries with
    | Some i => Some i
    | None => Dyn.assoc t acc
    end.
Proof.
  revert acc. induction entries as [|i entries IH]; intros acc; cbn [collect_downloads].
  { by intros [= <-]. }
  rewrite variant_cons. unfold has_type.
  destruct (Dyn.getitem i "type") as [e|ty]; cbn [res_bind]; [discriminate|].
  destruct ty as [|b|n|s|l|kvs]; try discriminate; intros H; rewrite (IH _ H);
    destruct (variant t entries); try done.
  rewrite assoc_dict_set. destruct (decide (s = t)) as [->|Hne].
  - by rewrite bool_decide_eq_true_2.
  - by rewrite bool_decide_eq_false_2.
Qed.

Lemma getitem_quiet d k e : Dyn.getitem d k = inl e -> is_runtime e = false.
Proof.
  unfold Dyn.getitem. destruct d; try (by intros [= <-]).
  destruct (Dyn.assoc k kvs); [discriminate|]. by intros [= <-].
Qed.

Lemma getitem_str_quiet d k e :
  res_bind (Dyn.getitem d k) Dyn.as_str = inl e -> is_runtime e = false.
Proof.
  destruct (Dyn.getitem d k) as [e'|v] eqn:E; cbn [res_bind].
  - intros [= <-]. by eapply getitem_quiet.
  - destruct v; cbn; try discriminate; by intros [= <-].
Qed.

Lemma res_map_quiet {A B} (f : A -> res B) l e :
  (forall a e, f a = inl e -> is_runtime e = false) ->
  res_map f l = inl e -> is_runtime e = false.
Proof.
  intros Hf. induction l as [|a l IH]; cbn [res_map]; [discriminate|].
  destruct (f a) as [e'|b] eqn:E; cbn [res_bind]; [intros [= <-]; by eapply Hf|].
  destruct (res_map f l) as [e'|bs]; cbn [res_bind]; [|discriminate].
  intros [= <-]. by apply IH.
Qed.

Lemma getitem_list_quiet {A} (f : json -> res A) d k e :
  (forall a e, f a = inl e -> is_runtime e = false) ->
  res_bind (Dyn.getitem d k) (Dyn.as_list f) = inl e -> is_runtime e = false.
Proof.
  intros Hf. destruct (Dyn.getitem d k) as [e'|v] eqn:E; cbn [res_bind].
  - intros [= <-]. by eapply getitem_quiet.
  - destruct v; cbn [Dyn.as_list]; try (by intros [= <-]). by apply res_map_quiet.
Qed.

Lemma file_of_json_quiet v e : file_of_json v = inl e -> is_runtime e = false.
Proof.
  unfold file_of_json.
  destruct (res_bind (Dyn.getitem v "file") Dyn.as_str) as [e'|f] eqn:E1; cbn [res_bind].
  { intros [= <-]. by eapply getitem_str_quiet. }
  destruct (res_bind (Dyn.getitem v "hash") Dyn.as_str) as [e'|h] eqn:E2; cbn [res_bind].
  { intros [= <-]. by eapply getitem_str_quiet. }
  discriminate.
Qed.

Lemma dependency_of_json_quiet v e : dependency_of_json v = inl e -> is_runtime e = false.
Proof.
  unfold dependency_of_json.
  destruct (res_bind (Dyn.getitem v "name") Dyn.as_str) as [e'|f] eqn:E1; cbn [res_bind].
  { intros [= <-]. by eapply getitem_str_quiet. }
  discriminate.
Qed.

Lemma parse_version_quiet d k e : parse_version d k = inl e -> is_runtime e = false.
Proof.
  unfold parse_version. destruct (Dyn.getitem d k) as [e'|v] eqn:E; cbn [res_bind].
  { intros [= <-]. by eapply getitem_quiet. }
  destruct v; try (by intros [= <-]). apply res_map_quiet.
  intros a e'. destruct (Py.int_of_str a); [discriminate|]. by intros [= <-].
Qed.

Lemma iter_quiet d k e :
  res_bind (Dyn.getitem d k) Dyn.iter = inl e -> is_runtime e = false.
Proof.
  destruct (Dyn.getitem d k) as [e'|v] eqn:E; cbn [res_bind].
  - intros [= <-]. by eapply getitem_quiet.
  - destruct v; cbn; try discriminate; by intros [= <-].
Qed.

Lemma collect_downloads_quiet entries acc e :
  collect_downloads entries acc = inl e -> is_runtime e = false.
Proof.
  revert acc. induction entries as [|i entries IH]; intros acc; cbn [collect_downloads];
    [discriminate|].
  destruct (Dyn.getitem i "type") as [e'|ty] eqn:E; cbn [res_bind].
  { intros [= <-]. by eapply getitem_quiet. }
  destruct ty; try apply IH; by intros [= <-].
Qed.

(** X20: Which download a listing entry is converted with: of the entries of
    its [downloads] list, the last one for the application type; when
    there is none, the last one of type [universal]; the record takes
    its [url] and [hashMd5] from that entry and is flagged [is_remote]
    and nothing else.  When there is neither, the conversion raises the
    [RuntimeError] that names the application type, and this is the only
    [RuntimeError] it raises. *)
Theorem fromBeatMods_variant (d : json) (type : string) :
  match fromBeatMods d type with
  | inr m =>
      exists entries pick,
        res_bind (Dyn.getitem d "downloads") Dyn.iter = inr entries /\
        (variant type entries = Some pick \/
         variant type entries = None /\ variant "universal" entries = Some pick) /\
        res_bind (Dyn.getitem pick "url") Dyn.as_str = inr (url m) /\
        res_bind (Dyn.getitem pick "hashMd5") (Dyn.as_list file_of_json) = inr (files m) /\
        _archive m = None /\
        is_remote m = FBool true /\ is_local m = FBool false /\ ignore m = FBool false /\
        need_install m = FBool false /\ need_update m = FBool false /\
        need_uninstall m = FBool false
  | inl (RuntimeError msg) =>
      msg = "No version found for application type '" +:+ type +:+ "'" /\
      exists entries,
        res_bind (Dyn.getitem d "downloads") Dyn.iter = inr entries /\
        variant type entries = None /\ variant "universal" entries = None
  | inl _ => True
  end.
Proof.
  assert (forall e (P : string -> Prop), is_runtime e = false ->
            match e with RuntimeError msg => P msg | _ => True end) as Q
    by (intros [] ? ?; done).
  unfold fromBeatMods.
  destruct (res_bind (Dyn.getitem d "_id") Dyn.as_str) as [e|i] eqn:E1; cbn [res_bind].
  { apply Q. by eapply getitem_str_quiet. }
  destruct (res_bind (Dyn.getitem d "name") Dyn.as_str) as [e|n] eqn:E2; cbn [res_bind].
  { apply Q. by eapply getitem_str_quiet. }
  destruct (parse_version d "gameVersion") as [e|gv] eqn:E3; cbn [res_bind].
  { apply Q. by eapply parse_version_quiet. }
  destruct (Dyn.getitem d "category") as [e|c] eqn:E4; cbn [res_bind].
  { apply Q. by eapply getitem_quiet. }
  destruct (res_bind (Dyn.getitem d "downloads") Dyn.iter) as [e|entries] eqn:E5;
    cbn [res_bind].
  { apply Q. by eapply iter_quiet. }
  destruct (collect_downloads entries []) as [e|downloads] eqn:E6; cbn [res_bind].
  { apply Q. by eapply collect_downloads_quiet. }
  pose proof (collect_downloads_assoc _ _ _ type E6) as Ht.
  pose proof (collect_downloads_assoc _ _ _ "universal"%string E6) as Hu.
  cbn [Dyn.assoc] in Ht, Hu.
  assert (forall pick,
            variant type entries = Some pick \/
            variant type entries = None /\ variant "universal" entries = Some pick ->
            match
              (let? url := res_bind (Dyn.getitem pick "url") Dyn.as_str in
               let? files :=
                 res_bind (Dyn.getitem pick "hashMd5") (Dyn.as_list file_of_json) in
               let? dependencies :=
                 res_bind (Dyn.getitem d "dependencies") (Dyn.as_list dependency_of_json) in
               let obj := ModSpec_init i n (try_except (parse_version d "version") [0; 0; 0])
                            url files dependencies (category_of_label c) gv in
               inr {| _archive := _archive obj; _source := _source obj;
                      id := i; name := n;
                      version := try_except (parse_version d "version") [0; 0; 0];
                      gameVersion := gv;
                      dependencies := dependencies; category := category_of_label c;
                      url := url; files := files;
                      ignore := ignore obj; is_local := is_local obj;
                      is_remote := FBool true;
                      need_update := need_update obj; need_install := need_install obj;
                      need_uninstall := need_uninstall obj |})
            with
            | inr m =>
                exists entries' pick',
                  (inr entries : res (list json)) = inr entries' /\
                  (variant type entries' = Some pick' \/
                   variant type entries' = None /\
                   variant "universal" entries' = Some pick') /\
                  res_bind (Dyn.getitem pick' "url") Dyn.as_str = inr (url m) /\
                  res_bind (Dyn.getitem pick' "hashMd5") (Dyn.as_list file_of_json)
                  = inr (files m) /\
                  _archive m = None /\
                  is_remote m = FBool true /\ is_local m = FBool false /\
                  ignore m = FBool false /\
                  need_install m = FBool false /\ need_update m = FBool false /\
                  need_uninstall m = FBool false
            | inl (RuntimeError msg) =>
                msg = "No version found for application type '" +:+ type +:+ "'" /\
                exists entries',
                  (inr entries : res (list json)) = inr entries' /\
                  variant type entries' = None /\ variant "universal" entries' = None
            | inl _ => True
            end) as Htail.
  { intros pick Hor.
    destruct (res_bind (Dyn.getitem pick "url") Dyn.as_str) as [e|u] eqn:E7;
      cbn [res_bind].
    { apply Q. by eapply getitem_str_quiet. }
    destruct (res_bind (Dyn.getitem pick "hashMd5") (Dyn.as_list file_of_json))
      as [e|fl] eqn:E8; cbn [res_bind].
    { apply Q. eapply getitem_list_quiet; [|exact E8]. apply file_of_json_quiet. }
    destruct (res_bind (Dyn.getitem d "dependencies") (Dyn.as_list dependency_of_json))
      as [e|deps] eqn:E9; cbn [res_bind].
    { apply Q. eapply getitem_list_quiet; [|exact E9]. apply dependency_of_json_quiet. }
    exists entries, pick. by repeat split. }
  rewrite Ht, Hu.
  destruct (variant type entries) as [p1|] eqn:V1.
  { apply (Htail p1). by left. }
  destruct (variant "universal" entries) as [p2|] eqn:V2.
  { apply (Htail p2). by right. }
  cbn [res_bind raise]. split; [done|]. by exists entries.
Qed.

(** ** The command line *)

Lemma same_disk_refl s : same_disk s s.
Proof. by repeat split. Qed.

Lemma same_disk_trans s1 s2 s3 : same_disk s1 s2 -> same_disk s2 s3 -> same_disk s1 s3.
Proof.
  intros (A1 & A2 & A3 & A4 & A5) (B1 & B2 & B3 & B4 & B5).
  repeat split; congruence.
Qed.

Lemma same_disk_upd r f s : same_disk s (upd r f s).
Proof. by repeat split. Qed.

Lemma load_manifests_disk env entries s : same_disk s (load_manifests env entries s).2.
Proof.
  revert s. induction entries as [|[p c] entries IH]; intros s; cbn [load_manifests].
  { apply same_disk_refl. }
  destruct (Py.endswith p ".json"); [|apply IH].
  destruct (res_bind (json_load env c) fromSpecFile) as [e|spec]; [apply same_disk_refl|].
  destruct (truthy (ignore spec)); [apply IH|].
  change (let '(r, s') := alloc spec s in
          load_manifests env entries (Patcher.with_local (Patcher.local s' ++ [r]) s'))
    with (load_manifests env entries
            (Patcher.with_local (Patcher.local s ++ [Patcher.next_ref s]) (alloc spec s).2)).
  eapply same_disk_trans; [|apply IH]. by repeat split.
Qed.

Lemma getLocal_disk env s : same_disk s (getLocal env s).2.
Proof.
  unfold getLocal.
  pose proof (load_manifests_disk env
    (filter (fun kv => is_child (Patcher.manifest_cache (Patcher.with_local [] s)) kv.1 = true)
            (map_to_list (Patcher.fs (Patcher.with_local [] s))))
    (Patcher.with_local [] s)) as H.
  destruct (load_manifests env _ _) as [[e|?] s']; exact H.
Qed.

Lemma load_listing_disk mods s : same_disk s (load_listing mods s).2.
Proof.
  revert s. induction mods as [|md mods IH]; intros s; cbn [load_listing].
  { apply same_disk_refl. }
  destruct (fromBeatMods md (Patcher.app_type s)) as [e|spec]; [apply same_disk_refl|].
  change (let '(r, s') := alloc spec s in
          load_listing mods (Patcher.with_remote (Patcher.remote s' ++ [r]) s'))
    with (load_listing mods
            (Patcher.with_remote (Patcher.remote s ++ [Patcher.next_ref s]) (alloc spec s).2)).
  eapply same_disk_trans; [|apply IH]. by repeat split.
Qed.

Lemma getRemote_disk env s : same_disk s (getRemote env s).2.
Proof.
  unfold getRemote. destruct (listing env) as [mods|]; [|by repeat split].
  apply (load_listing_disk mods (Patcher.with_remote [] s)).
Qed.

Lemma refreshMods_disk env s : same_disk s (refreshMods env s false).2.
Proof.
  unfold refreshMods.
  set (s0 := Patcher.with_need_update [] _).
  assert (same_disk s s0) as H0 by by repeat split.
  pose proof (getLocal_disk env s0) as H1.
  destruct (getLocal env s0) as [[e|?] s1]; cbn [snd] in *;
    [by eapply same_disk_trans|].
  pose proof (getRemote_disk env s1) as H2.
  destruct (getRemote env s1) as [[e|?] s2]; cbn [snd negb] in *;
    eapply same_disk_trans; try exact H0; by eapply same_disk_trans.
Qed.

Lemma addMod_found_disk s md : same_disk s (addMod_found s md).
Proof.
  unfold addMod_found. destruct (truthy (need_uninstall (get s md))).
  - by destruct (Py.list_remove md (Patcher.need_uninstall s)).
  - destruct (truthy (need_install (get s md))); apply same_disk_refl.
Qed.

Lemma addMod_disk fuel s spec src rv s' :
  addMod fuel s spec src = Some (rv, s') -> same_disk s s'.
Proof.
  revert s spec src rv s'. induction fuel as [|fuel IH]; intros s spec src rv s';
    [discriminate|].
  rewrite addMod_S.
  destruct (find_name s (Patcher.local s) (name (get s spec))) as [md|].
  { intros [= <- <-]. apply addMod_found_disk. }
  cbv zeta.
  set (spec' := default spec (find_name s (Patcher.remote s) (name (get s spec)))).
  assert (same_disk s (queue_record s spec' src)) as H1 by by destruct src.
  generalize dependent (queue_record s spec' src). intros s1 H1.
  generalize (dependencies (get s1 spec')). intros deps.
  destruct (deps_loop (addMod fuel) spec' deps s1) as [u'|] eqn:E; [|discriminate].
  intros [= <- <-]. eapply same_disk_trans; [exact H1|]. clear H1.
  revert s1 E. induction deps as [|depend deps IHd]; intros s1; cbn [deps_loop].
  { intros [= <-]. apply same_disk_refl. }
  destruct (find_name s1 (Patcher.local s1) (dep_name depend)); [apply IHd|].
  destruct (find_name s1 (Patcher.remote s1) (dep_name depend)) as [md|]; [|apply IHd].
  destruct (addMod fuel s1 md (Some spec')) as [[rv' u1]|] eqn:E1; [|discriminate].
  intros H. eapply same_disk_trans; [by eapply IH|by apply IHd].
Qed.

Lemma removeMod_disk s spec force : same_disk s (removeMod s spec force).2.
Proof.
  unfold removeMod. destruct (truthy (need_install (get s spec))).
  - destruct (Py.list_remove spec (Patcher.need_install s)) as [l|]; [|apply same_disk_refl].
    cbn [Patcher.local upd Patcher.with_heap Patcher.with_need_install].
    by destruct (Py.list_remove spec (Patcher.local s)).
  - destruct (negb (truthy (is_local (get s spec)))); [apply same_disk_refl|].
    destruct (bool_decide _ && negb force); [apply same_disk_refl|].
    by destruct (Py.list_remove spec (Patcher.need_update s)).
Qed.

Lemma getRemote_length env s :
  (length (Patcher.remote (getRemote env s).2) <= length (default [] (listing env)))%nat.
Proof.
  unfold getRemote. destruct (listing env) as [mods|]; cbn [default snd]; [|cbn; lia].
  destruct (load_listing_effect mods (Patcher.with_remote [] s))
    as (k & Hr & _ & _ & _ & Hnew & _ & _).
  rewrite Hr. cbn [Patcher.remote Patcher.with_remote app]. rewrite length_seq.
  destruct (decide (k <= length mods)%nat) as [|Hgt]; [done|].
  destruct (Hnew (length mods)) as (entry & He & _); [lia|].
  rewrite lookup_ge_None_2 in He by lia. discriminate.
Qed.

Lemma refreshMods_remote_length env s s1 :
  refreshMods env s false = (inr tt, s1) ->
  (length (Patcher.remote s1) <= length (default [] (listing env)))%nat.
Proof.
  unfold refreshMods. set (s0 := Patcher.with_need_update [] _).
  destruct (getLocal env s0) as [[e|?] s']; [discriminate|].
  pose proof (getRemote_length env s') as H.
  destruct (getRemote env s') as [[e|?] s'']; [discriminate|]. cbn [negb snd] in *.
  by intros [= <-].
Qed.

Section Install.

Variable env : Env.

(** X21: The [install] command never installs: whatever the listing, the
    installation and the answer typed at the prompt, [installMods] ends
    with an exception and leaves every file as it was.  When the package
    is found in the listing, the exception is the [NameError] of the
    unbound name [n] in the test of the answer, raised once the package
    and its dependencies are queued and listed, and before [patch] is
    called. *)
Theorem installMods_never_patches (fuel : nat) (s : Patcher.t) (modname cont : string) :
  (length (default [] (listing env)) < fuel)%nat ->
  exists e out s',
    installMods env fuel s modname cont = Some (inl e, out, s') /\
    Patcher.fs s' = Patcher.fs s /\
    Patcher.trace s' = Patcher.trace s /\
    forall s1 spec,
      refreshMods env s false = (inr tt, s1) ->
      find_name s1 (Patcher.remote s1) modname = Some spec ->
      e = NameError "n" /\
      (find_name s1 (Patcher.local s1) modname = None ->
       exists l, Patcher.need_install s' = spec :: l /\
                 Patcher.local s' = Patcher.local s1 ++ spec :: l /\
                 forall r, r ∈ spec :: l -> getStatusMsg (get s' r) = "install").
Proof.
  intros Hfuel. unfold installMods.
  pose proof (refreshMods_disk env s) as (D1 & D2 & _).
  pose proof (refreshMods_queues env s false) as (Q1 & _).
  pose proof (refreshMods_remote_length env s) as Hlen.
  destruct (refreshMods env s false) as [[e|[]] s1]; cbn [snd] in *.
  { eexists _, _, _. split; [reflexivity|]. split; [done|]. split; [done|]. discriminate. }
  specialize (Hlen s1 eq_refl).
  destruct (find_name s1 (Patcher.remote s1) modname) as [spec|] eqn:Hfind.
  2:{ eexists _, _, _. split; [reflexivity|]. split; [done|]. split; [done|].
      intros s1' spec' [= <-] Hf. congruence. }
  pose proof (find_name_Some _ _ _ _ Hfind) as [_ Hname].
  pose proof (addMod_returns fuel s1 spec None) as R.
  pose proof (missing_le_remote s1) as Hm.
  rewrite Hname, Hfind in R. cbn [default] in R.
  destruct (find_name s1 (Patcher.local s1) modname) as [md|] eqn:Hloc.
  - rewrite R by (left; lia). cbv zeta.
    pose proof (addMod_found_disk s1 md) as (F1 & F2 & _).
    eexists _, _, _. split; [reflexivity|]. split; [congruence|]. split; [congruence|].
    intros s1' spec' [= <-] Hf. split; [done|]. congruence.
  - destruct R as (s2 & l & E & G); [left; lia|].
    pose proof (addMod_disk _ _ _ _ _ _ E) as (F1 & F2 & _). rewrite E. cbv zeta.
    eexists _, _, _. split; [reflexivity|]. split; [congruence|]. split; [congruence|].
    intros s1' spec' [= <-] Hf. split; [done|]. intros _.
    assert (spec' = spec) as -> by congruence.
    exists l. split; [by rewrite (grows_need_install _ _ _ G), Q1|].
    split; [apply (grows_local _ _ _ G)|].
    intros r Hr. unfold getStatusMsg. by rewrite (grows_queued _ _ _ G r Hr).
Qed.

End Install.

Lemma installMods_never_patches_witness :
  exists e out s',
    installMods two_releases 3 nothing_installed "SongCore" "y" = Some (inl e, out, s') /\
    Patcher.fs s' = Patcher.fs nothing_installed /\
    Patcher.trace s' = Patcher.trace nothing_installed /\
    forall s1 spec,
      refreshMods two_releases nothing_installed false = (inr tt, s1) ->
      find_name s1 (Patcher.remote s1) "SongCore" = Some spec ->
      e = NameError "n" /\
      (find_name s1 (Patcher.local s1) "SongCore" = None ->
       exists l, Patcher.need_install s' = spec :: l /\
                 Patcher.local s' = Patcher.local s1 ++ spec :: l /\
                 forall r, r ∈ spec :: l -> getStatusMsg (get s' r) = "install").
Proof.
  apply (installMods_never_patches two_releases 3 nothing_installed "SongCore" "y").
  vm_compute. lia.
Defined.

Section Remove.

Variable env : Env.

Lemma cleanup_lookup s p :
  Patcher.fs (cleanup env s) !! p =
    if is_child (Patcher.download_cache s) p && writable env p then None
    else Patcher.fs s !! p.
Proof.
  unfold cleanup. cbn [Patcher.fs Patcher.with_fs].
  destruct (is_child (Patcher.download_cache s) p && writable env p) eqn:E.
  - apply map_lookup_filter_None. right. intros x _. cbn. congruence.
  - destruct (Patcher.fs s !! p) as [c|] eqn:Hp.
    + apply map_lookup_filter_Some. by split.
    + apply map_lookup_filter_None. by left.
Qed.

(** X22: The [remove] command on a new patcher (nothing queued), once the
    manifests are loaded.  A name that no manifest carries ends it with
    the "not found" error.  For an installed package (the first manifest
    of that name, in the order of the catalog) that other installed
    packages depend on, it ends with the dependency conflict, whose
    message lists them, unless [force] is given.  Otherwise it returns,
    and on disk: nothing is created or overwritten; each file the
    package lists, at the game directory joined with its entry, is gone
    if it may be removed, and so is the file of the manifest cache
    named after the name and version of the package; the download cache
    is emptied of what may be removed.  When none of these paths has a
    [".."] component, every other such file is as it was; this includes
    the manifest the package was read from when it is stored under
    another file name.  In the two error cases no file is touched. *)
Theorem uninstallMods_effect (s s1 : Patcher.t) (modname : string) (force : bool) :
  getLocal env s = (inr tt, s1) ->
  Patcher.need_install s = [] ->
  Patcher.need_uninstall s = [] ->
  Patcher.need_update s = [] ->
  Patcher.fs s1 = Patcher.fs s /\
  match find_name s1 (Patcher.local s1) modname with
  | None =>
      uninstallMods env s modname force =
        (inl (RuntimeError ("Unable to uninstall mod '" +:+ modname
                            +:+ "': Package not found in local repository.")), s1)
  | Some spec =>
      truthy (need_install (get s1 spec)) = false ->
      truthy (is_local (get s1 spec)) = true ->
      if bool_decide (dependents s1 modname <> []) && negb force then
        uninstallMods env s modname force =
          (inl (RuntimeError
             ("Other mods depend on this package. Uninstall the following mods first: "
              +:+ Py.join ", " (dependents s1 modname))), s1)
      else
        exists s',
          uninstallMods env s modname force = (inr tt, s') /\
          Patcher.fs s' ⊆ Patcher.fs s /\
          (forall f, f ∈ files (get s1 spec) ->
             writable env (path_join (Patcher.path s) (file f)) = true ->
             Patcher.fs s' !! path_join (Patcher.path s) (file f) = None) /\
          (writable env (path_join (Patcher.manifest_cache s)
                           (_getSpecFileName (get s1 spec))) = true ->
           Patcher.fs s' !! path_join (Patcher.manifest_cache s)
                              (_getSpecFileName (get s1 spec)) = None) /\
          (forall p, is_child (Patcher.download_cache s) p = true ->
                     writable env p = true -> Patcher.fs s' !! p = None) /\
          ((forall f, f ∈ files (get s1 spec) ->
              plain (path_join (Patcher.path s) (file f)) = true) ->
           plain (path_join (Patcher.manifest_cache s)
                    (_getSpecFileName (get s1 spec))) = true ->
           forall p,
             plain p = true ->
             (forall f, f ∈ files (get s1 spec) ->
                        p <> path_join (Patcher.path s) (file f)) ->
             p <> path_join (Patcher.manifest_cache s) (_getSpecFileName (get s1 spec)) ->
             (is_child (Patcher.download_cache s) p && writable env p) = false ->
             Patcher.fs s' !! p = Patcher.fs s !! p)
  end.
Proof.
  intros Hload Hq1 Hq2 Hq3.
  pose proof (getLocal_disk env s) as (D1 & D2 & D3 & D4 & D5).
  pose proof (getLocal_queues env s) as (L1 & L2 & L3).
  unfold uninstallMods. rewrite Hload in *. cbn [snd] in *. split; [exact D1|].
  destruct (find_name s1 (Patcher.local s1) modname) as [spec|] eqn:Hfind; [|done].
  pose proof (find_name_Some _ _ _ _ Hfind) as [_ Hname].
  intros Hni Hloc. rewrite <- Hname.
  destruct (bool_decide (dependents s1 (name (get s1 spec)) <> []) && negb force) eqn:Hgo.
  { unfold removeMod. by rewrite Hni, Hloc, Hgo. }
  destruct (removeMod_staged s1 spec force Hni Hloc Hgo)
    as (s2 & E & El & Er & Ei & Eu & Eup & Es & Eo).
  rewrite E.
  pose proof (removeMod_disk s1 spec force) as R.
  rewrite E in R. cbn [snd] in R. destruct R as (R1 & R2 & R3 & R4 & R5).
  assert (truthy (is_local (get s2 spec)) = true) as Hloc2.
  { rewrite Es. exact Hloc. }
  assert (files (get s2 spec) = files (get s1 spec)) as Hfiles by by rewrite Es.
  assert (_getSpecFileName (get s2 spec) = _getSpecFileName (get s1 spec)) as Hfn
    by by rewrite Es.
  destruct (uninstallMod_spec env s2 spec) as [_ U]. specialize (U Hloc2).
  destruct U as (U1 & U2 & U3 & U4 & U5 & U6 & U7).
  unfold patch. rewrite Eu, Eup, L2, L3, Hq2, Hq3. cbn [app default Py.list_remove].
  cbn [uninstall_all].
  destruct (_uninstallMod env s2 spec) as [[x|[]] s3]; cbn [fst snd] in *; [discriminate|].
  rewrite (stable_need_update _ _ U3), (stable_need_install _ _ U3), Eup, Ei, L1, L3, Hq1, Hq3.
  cbn [default Py.list_remove substitute_remotes omap list_omap app download_all].
  rewrite !filter_nil. cbn [install_all].
  exists (cleanup env s3). split; [reflexivity|].
  assert (forall p, Patcher.fs (cleanup env s3) !! p =
            if is_child (Patcher.download_cache s) p && writable env p then None
            else Patcher.fs s3 !! p) as Hc.
  { intros p. by rewrite cleanup_lookup, (stable_download_cache _ _ U3), R4, D4. }
  rewrite Hfiles, Hfn, R3, R5, D3, D5 in *. rewrite R1, D1 in *.
  split; [|split; [|split; [|split]]].
  - apply map_subseteq_spec. intros p c. rewrite Hc.
    destruct (is_child _ _ && writable env p); [discriminate|].
    intros Hp. by apply (lookup_weaken _ _ _ _ Hp).
  - intros f Hf Hw. rewrite Hc. destruct (is_child _ _ && writable env _); [done|].
    by apply U6.
  - intros Hw. rewrite Hc. destruct (is_child _ _ && writable env _); [done|].
    by apply U7.
  - intros p Hp Hw. by rewrite Hc, Hp, Hw.
  - intros _ _ p _ Hf Hm Hd. rewrite Hc, Hd. by apply U5.
Qed.

End Remove.

Lemma uninstallMods_effect_witness :
  let s := on_disk in
  let s1 := (getLocal two_releases on_disk).2 in
  Patcher.fs s1 = Patcher.fs s /\
  match find_name s1 (Patcher.local s1) "SongCore" with
  | None =>
      uninstallMods two_releases s "SongCore" false =
        (inl (RuntimeError ("Unable to uninstall mod '" +:+ "SongCore"
                            +:+ "': Package not found in local repository.")), s1)
  | Some spec =>
      truthy (need_install (get s1 spec)) = false ->
      truthy (is_local (get s1 spec)) = true ->
      if bool_decide (dependents s1 "SongCore" <> []) && negb false then
        uninstallMods two_releases s "SongCore" false =
          (inl (RuntimeError
             ("Other mods depend on this package. Uninstall the following mods first: "
              +:+ Py.join ", " (dependents s1 "SongCore"))), s1)
      else
        exists s',
          uninstallMods two_releases s "SongCore" false = (inr tt, s') /\
          Patcher.fs s' ⊆ Patcher.fs s /\
          (forall f, f ∈ files (get s1 spec) ->
             writable two_releases (path_join (Patcher.path s) (file f)) = true ->
             Patcher.fs s' !! path_join (Patcher.path s) (file f) = None) /\
          (writable two_releases (path_join (Patcher.manifest_cache s)
                                    (_getSpecFileName (get s1 spec))) = true ->
           Patcher.fs s' !! path_join (Patcher.manifest_cache s)
                              (_getSpecFileName (get s1 spec)) = None) /\
          (forall p, is_child (Patcher.download_cache s) p = true ->
                     writable two_releases p = true -> Patcher.fs s' !! p = None) /\
          ((forall f, f ∈ files (get s1 spec) ->
              plain (path_join (Patcher.path s) (file f)) = true) ->
           plain (path_join (Patcher.manifest_cache s)
                    (_getSpecFileName (get s1 spec))) = true ->
           forall p,
             plain p = true ->
             (forall f, f ∈ files (get s1 spec) ->
                        p <> path_join (Patcher.path s) (file f)) ->
             p <> path_join (Patcher.manifest_cache s) (_getSpecFileName (get s1 spec)) ->
             (is_child (Patcher.download_cache s) p && writable two_releases p) = false ->
             Patcher.fs s' !! p = Patcher.fs s !! p)
  end.
Proof.
  apply (uninstallMods_effect two_releases on_disk); vm_compute; reflexivity.
Defined.

(** The manifest of [stale_install] is stored as [SongCore-1.0.0.json]:
    the command returns and the file stays. *)
Example uninstallMods_keeps_renamed_manifest :
  (uninstallMods two_releases stale_install "SongCore" false).1 = inr tt /\
  Patcher.fs (uninstallMods two_releases stale_install "SongCore" false).2
  = Patcher.fs stale_install.
Proof. split; vm_compute; reflexivity. Qed.

Section Status.

Variable env : Env.

Lemma installMod_record s s' spec :
  _installMod env s spec = (inr tt, s') ->
  get s' spec = set_need_install (FBool false)
                  (set_is_local (FBool true) (set_is_remote (FBool false) (get s spec))).
Proof.
  unfold _installMod. destruct (Patcher.fs s !! _); [|discriminate].
  destruct (open_zip env s _) as [archive|]; [|discriminate].
  pose proof (extract_members_heap env spec (infolist archive) s) as Hh.
  destruct (extract_members env spec (infolist archive) s) as [[ex|?] s1];
    cbn [snd] in *; [discriminate|].
  set (s2 := upd spec (set_need_install (FBool false)) _).
  assert (get s2 spec = set_need_install (FBool false)
            (set_is_local (FBool true) (set_is_remote (FBool false) (get s spec)))) as Hget.
  { unfold s2. rewrite !get_upd_eq. do 3 f_equal. unfold get. by rewrite Hh. }
  unfold _writeSpec. destruct (write_file env _ _ s2) as [s3|] eqn:E; [|discriminate].
  apply write_file_Some in E as [-> _]. by intros [= <-].
Qed.

(** X23: The status shown for a record follows what was done to it: a record
    that [addMod] queued reads "install"; a queued record of the listing
    that is unstaged again reads "not installed"; an installed record
    staged for removal reads "uninstall", also when an update was
    pending for it; a record that [_installMod] installed reads
    "installed", unless it is still flagged for an update or a removal,
    which [_installMod] does not clear. *)
Theorem getStatusMsg_lifecycle (s : Patcher.t) (spec : ref) :
  (forall fuel src rv s' r,
     addMod fuel s spec src = Some (rv, s') ->
     find_name s (Patcher.local s) (name (get s spec)) = None ->
     r ∈ Patcher.need_install s' -> r ∉ Patcher.need_install s ->
     getStatusMsg (get s' r) = "install") /\
  (forall force,
     truthy (need_install (get s spec)) = true -> spec ∈ Patcher.need_install s ->
     truthy (is_remote (get s spec)) = true -> truthy (is_local (get s spec)) = false ->
     getStatusMsg (get (removeMod s spec force).2 spec) = "not installed") /\
  (truthy (need_install (get s spec)) = false -> truthy (is_local (get s spec)) = true ->
   getStatusMsg (get (removeMod s spec true).2 spec) = "uninstall") /\
  (forall s',
     _installMod env s spec = (inr tt, s') ->
     getStatusMsg (get s' spec) =
       if truthy (need_update (get s spec)) then "update pending"
       else if truthy (need_uninstall (get s spec)) then "uninstall"
       else "installed").
Proof.
  split; [|split; [|split]].
  - intros fuel src rv s' r H Hnew Hr Hnr. pose proof (addMod_inv _ _ _ _ _ _ H) as Hinv.
    rewrite Hnew in Hinv. destruct Hinv as [_ (l & G)].
    rewrite (grows_need_install _ _ _ G) in Hr. apply elem_of_app in Hr as [Hr|Hr]; [done|].
    unfold getStatusMsg. by rewrite (grows_queued _ _ _ G r Hr).
  - intros force Hni Hin Hrem Hloc. unfold removeMod. rewrite Hni.
    destruct (Py.list_remove spec (Patcher.need_install s)) as [l|] eqn:El.
    2:{ apply list_remove_None in El. done. }
    cbn [Patcher.local upd Patcher.with_heap Patcher.with_need_install].
    assert (get (upd spec (set_need_install (FBool false)) s) spec
            = set_need_install (FBool false) (get s spec)) as Hg by apply get_upd_eq.
    assert (getStatusMsg (set_need_install (FBool false) (get s spec)) = "not installed")
      as Hst.
    { unfold getStatusMsg. cbn [need_install set_need_install is_remote is_local truthy
        int_of_flag Z.eqb negb]. by rewrite Hrem, Hloc. }
    destruct (Py.list_remove spec (Patcher.local s)); cbn [snd];
      change (getStatusMsg (get (upd spec (set_need_install (FBool false)) s) spec)
              = "not installed"); by rewrite Hg.
  - intros Hni Hloc.
    destruct (removeMod_staged s spec true Hni Hloc) as (s1 & E & _ & _ & _ & _ & _ & Es & _);
      [apply andb_false_r|].
    rewrite E. cbn [snd]. rewrite Es. unfold getStatusMsg.
    cbn [need_install set_need_install set_need_update set_need_uninstall is_remote
         is_local need_update need_uninstall]. rewrite Hloc.
    change (truthy (FBool false)) with false. change (truthy (FBool true)) with true.
    cbn [negb andb]. by rewrite andb_false_r.
  - intros s' H. rewrite (installMod_record _ _ _ H). unfold getStatusMsg.
    cbn [need_install set_need_install set_is_local set_is_remote is_remote
         is_local need_update need_uninstall].
    change (truthy (FBool false)) with false. change (truthy (FBool true)) with true.
    by cbn [negb andb].
Qed.

End Status.

(** ** File names *)

Lemma append_cons x a b : String x a +:+ b = String x (a +:+ b).
Proof. reflexivity. Qed.

Lemma append_nil b : "" +:+ b = b.
Proof. reflexivity. Qed.

Lemma has_char_app c a b : has_char c (a +:+ b) = has_char c a || has_char c b.
Proof.
  induction a as [|x a IH]; [done|]. rewrite append_cons. cbn [has_char]. rewrite IH.
  by rewrite orb_assoc.
Qed.

Lemma pretty_N_go_chars c x s :
  (forall y, pretty_N_char y <> c) -> has_char c s = false ->
  has_char c (pretty_N_go x s) = false.
Proof.
  intros Hc. revert s. induction (N.lt_wf_0 x) as [x _ IH]; intros s Hs.
  assert (x = 0 \/ 0 < x)%N as [->|Hx] by lia; [by rewrite pretty_N_go_0|].
  rewrite pretty_N_go_step by done. apply IH; [by apply N.div_lt|].
  cbn [has_char]. rewrite Hs. by rewrite bool_decide_eq_false_2 by apply Hc.
Qed.

Lemma pretty_N_go_length x s : (String.length s <= String.length (pretty_N_go x s))%nat.
Proof.
  revert s. induction (N.lt_wf_0 x) as [x _ IH]; intros s.
  assert (x = 0 \/ 0 < x)%N as [->|Hx] by lia; [by rewrite pretty_N_go_0|].
  rewrite pretty_N_go_step by done.
  etrans; [|apply IH; by apply N.div_lt]. cbn [String.length]. lia.
Qed.

Lemma pretty_N_chars c (x : N) :
  (forall y, pretty_N_char y <> c) -> has_char c (pretty x) = false /\ pretty x <> "".
Proof.
  intros Hc. unfold pretty, pretty_N. destruct (decide (x = 0%N)) as [->|Hx].
  - split; [|done]. cbn [has_char]. rewrite orb_false_r. apply bool_decide_eq_false_2.
    apply (Hc 0%N).
  - split; [by apply pretty_N_go_chars|].
    assert (0 < x)%N as Hpos by lia. rewrite pretty_N_go_step by done.
    intros Heq. pose proof (pretty_N_go_length (x `div` 10)
      (String (pretty_N_char (x `mod` 10)) "")) as Hlen.
    rewrite Heq in Hlen. cbn in Hlen. lia.
Qed.

Lemma str_of_int_chars c n :
  (forall y, pretty_N_char y <> c) -> c <> "-"%char ->
  has_char c (Py.str_of_int n) = false /\ Py.str_of_int n <> "".
Proof.
  intros Hc Hd. unfold Py.str_of_int, pretty, pretty_Z. destruct n as [|p|p].
  - split; [|done]. cbn [has_char]. rewrite orb_false_r. apply bool_decide_eq_false_2.
    apply (Hc 0%N).
  - apply (pretty_N_chars c (Npos p) Hc).
  - split; [|done]. rewrite append_cons, append_nil. cbn [has_char].
    rewrite bool_decide_eq_false_2 by done. apply (pretty_N_chars c (Npos p) Hc).
Qed.

Lemma digit_not_underscore y : pretty_N_char y <> "_"%char.
Proof. unfold pretty_N_char. by repeat case_match. Qed.

Lemma digit_not_dot y : pretty_N_char y <> "."%char.
Proof. unfold pretty_N_char. by repeat case_match. Qed.

Lemma join_chars c sep l :
  has_char c sep = false -> Forall (fun p => has_char c p = false) l ->
  has_char c (Py.join sep l) = false.
Proof.
  intros Hsep. induction 1 as [|p l Hp Hl IH]; [done|]. cbn [Py.join].
  destruct l as [|q l]; [done|]. by rewrite !has_char_app, Hp, Hsep, IH.
Qed.

(** Splitting at the first occurrence of a character. *)
Lemma split_first c a1 a2 b1 b2 :
  has_char c a1 = false -> has_char c a2 = false ->
  a1 +:+ String c b1 = a2 +:+ String c b2 -> a1 = a2 /\ b1 = b2.
Proof.
  revert a2. induction a1 as [|x a1 IH]; intros [|y a2];
    rewrite ?append_cons, ?append_nil; cbn [has_char].
  - by intros _ _ [= ->].
  - intros _ Hy [= <- _]. by rewrite bool_decide_eq_true_2 in Hy.
  - intros Hx _ [= -> _]. by rewrite bool_decide_eq_true_2 in Hx.
  - intros [_ Hx]%orb_false_elim [_ Hy]%orb_false_elim [= -> H].
    by destruct (IH a2 Hx Hy H) as [-> ->].
Qed.

(** Splitting at the last occurrence of a character. *)
Lemma split_last c a1 a2 b1 b2 :
  has_char c b1 = false -> has_char c b2 = false ->
  a1 +:+ String c b1 = a2 +:+ String c b2 -> a1 = a2 /\ b1 = b2.
Proof.
  intros H1 H2. revert a2. induction a1 as [|x a1 IH]; intros [|y a2];
    rewrite ?append_cons, ?append_nil.
  - by intros [= ->].
  - intros [= <- ->]. rewrite has_char_app in H1. cbn [has_char] in H1.
    rewrite bool_decide_eq_true_2 in H1 by done. by rewrite orb_true_r in H1.
  - intros [= -> <-]. rewrite has_char_app in H2. cbn [has_char] in H2.
    rewrite bool_decide_eq_true_2 in H2 by done. by rewrite orb_true_r in H2.
  - intros [= -> H]. by destruct (IH a2 H) as [-> ->].
Qed.

Lemma string_length_app a b :
  String.length (a +:+ b) = (String.length a + String.length b)%nat.
Proof.
  induction a as [|x a IH]; [done|]. rewrite append_cons. cbn [String.length].
  by rewrite IH.
Qed.

Lemma append_inj_suffix a b c : a +:+ c = b +:+ c -> a = b.
Proof.
  revert b. induction a as [|x a IH]; intros [|y b];
    rewrite ?append_cons, ?append_nil; [done|..].
  - intros H. apply (f_equal String.length) in H. cbn [String.length] in H.
    rewrite string_length_app in H. lia.
  - intros H. apply (f_equal String.length) in H. cbn [String.length] in H.
    rewrite string_length_app in H. lia.
  - intros [= -> H]. by rewrite (IH b H).
Qed.

Lemma join_dot_inj (l1 l2 : list Z) :
  Py.join "." (Py.str_of_int <$> l1) = Py.join "." (Py.str_of_int <$> l2) -> l1 = l2.
Proof.
  assert (forall n, has_char "." (Py.str_of_int n) = false) as Hdot
    by (intros n; by apply str_of_int_chars; [apply digit_not_dot|]).
  assert (forall n, Py.str_of_int n <> "") as Hne
    by (intros n; by apply (str_of_int_chars "."); [apply digit_not_dot|]).
  assert (forall n l, Py.join "." (Py.str_of_int <$> n :: l) <> "") as Hjne.
  { intros n l. cbn [fmap list_fmap Py.join]. destruct (Py.str_of_int <$> l).
    - apply Hne.
    - pose proof (Hne n). by destruct (Py.str_of_int n). }
  revert l2. induction l1 as [|x l1 IH]; intros [|y l2]; [done|..].
  - intros H. symmetry in H. by apply Hjne in H.
  - intros H. by apply Hjne in H.
  - change (Py.str_of_int <$> x :: l1) with (Py.str_of_int x :: (Py.str_of_int <$> l1)).
    change (Py.str_of_int <$> y :: l2) with (Py.str_of_int y :: (Py.str_of_int <$> l2)).
    destruct l1 as [|x' l1], l2 as [|y' l2].
    + cbn [fmap list_fmap Py.join]. intros H. unfold Py.str_of_int in H.
      by apply (inj pretty) in H as ->.
    + cbn [fmap list_fmap Py.join]. intros H.
      pose proof (Hdot x) as Hx. rewrite H, has_char_app in Hx. cbn in Hx.
      by rewrite orb_true_r in Hx.
    + cbn [fmap list_fmap Py.join]. intros H.
      pose proof (Hdot y) as Hy. rewrite <- H, has_char_app in Hy. cbn in Hy.
      by rewrite orb_true_r in Hy.
    + intros H.
      change (Py.str_of_int x +:+ String "." (Py.join "." (Py.str_of_int <$> x' :: l1))
              = Py.str_of_int y +:+ String "." (Py.join "." (Py.str_of_int <$> y' :: l2)))
        in H.
      apply split_first in H as [Hxy Hrest]; [|apply Hdot..].
      unfold Py.str_of_int in Hxy. apply (inj pretty) in Hxy as ->.
      by rewrite (IH _ Hrest).
Qed.

Lemma version_str_no_underscore m : has_char "_" (version_str m) = false.
Proof.
  unfold version_str. apply join_chars; [done|]. apply Forall_fmap, Forall_forall.
  intros n _. by apply str_of_int_chars; [apply digit_not_underscore|].
Qed.

(** X24: Two records share a manifest file name, or an archive file name,
    only when they have the same name and the same version: the version
    part holds no underscore, so the last underscore of the file name
    separates the two, whatever the package name is. *)
Theorem file_names_inj (m m' : ModSpec) :
  (_getSpecFileName m = _getSpecFileName m' \/ _getArchiveName m = _getArchiveName m') ->
  name m = name m' /\ version m = version m'.
Proof.
  assert (forall ext, has_char "_" ext = false ->
            name m +:+ "_" +:+ version_str m +:+ ext
            = name m' +:+ "_" +:+ version_str m' +:+ ext ->
            name m = name m' /\ version m = version m') as H.
  { intros ext Hext Heq.
    change (name m +:+ String "_" (version_str m +:+ ext)
            = name m' +:+ String "_" (version_str m' +:+ ext)) in Heq.
    apply split_last in Heq as [Hn Hv];
      [|by rewrite has_char_app, version_str_no_underscore, Hext..].
    split; [exact Hn|]. apply append_inj_suffix in Hv. by apply join_dot_inj. }
  intros [Heq|Heq]; [apply (H ".json")|apply (H ".zip")]; done.
Qed.

Lemma file_names_inj_witness :
  name songcore = name songcore_installed /\ version songcore = version songcore_installed.
Proof.
  apply (file_names_inj songcore songcore_installed). left. vm_compute. reflexivity.
Defined.

(** ** Installing a package from a local archive *)

Section LocalPackage.

Variable env : Env.



End LocalPackage.


(** ** Downloads *)

Section Download.

Variable env : Env.


End Download.
